(** * dir2md: directory tree to Markdown, and the generated viewer's parser

    A shallow embedding of [src/dir2md.py]:
    - [DirectoryTree] ([should_ignore], [format_size], [build_tree],
      [generate_tree]),
    - [MarkdownGenerator] ([tree_to_lines], [generate_markdown]),
    - the viewer program emitted by [generate_gui_script]
      ([parse_tree_lines], the extraction of the fenced block in
      [load_directory_tree], and [build_treeview]), and the name under
      which the program is written.

    Python [str] values are sequences of Unicode code points, so a string is
    a list of code points here; literals are written as in the source
    (UTF-8 text, with the escape [\n]) and decoded by [lit]. *)

From Stdlib Require Import List NArith ZArith Bool String Ascii Lia.
From Stdlib Require Import DecimalString.
From Stdlib Require Import Sorting.Sorted Sorting.Permutation.
Import ListNotations.

Set Implicit Arguments.
Local Open Scope N_scope.

(** ** Python strings *)

Module PyStr.

Definition char := N.
Definition str := list char.

(** UTF-8 decoding of a literal: [need] continuation bytes are still
    expected for the code point accumulated in [acc]. *)
Fixpoint utf8_go (s : string) (acc : N) (need : nat) : str :=
  match s with
  | EmptyString => []
  | String a rest =>
      let b := N_of_ascii a in
      match need with
      | O =>
          if b <? 128 then b :: utf8_go rest 0 0
          else if b <? 224 then utf8_go rest (b - 192) 1
          else if b <? 240 then utf8_go rest (b - 224) 2
          else utf8_go rest (b - 240) 3
      | S O => (acc * 64 + (b - 128)) :: utf8_go rest 0 0
      | S n => utf8_go rest (acc * 64 + (b - 128)) n
      end
  end.

(** The escape [\n] of a Python literal. *)
Fixpoint unescape (s : str) : str :=
  match s with
  | [] => []
  | c :: t =>
      match t with
      | d :: rest =>
          if (c =? 92) && (d =? 110) then 10 :: unescape rest
          else c :: unescape t
      | [] => [c]
      end
  end.

Definition lit (s : string) : str := unescape (utf8_go s 0 0).

Fixpoint eqb (a b : str) : bool :=
  match a, b with
  | [], [] => true
  | x :: a', y :: b' => N.eqb x y && eqb a' b'
  | _, _ => false
  end.

(** [a <= b] for Python strings: lexicographic on code points. *)
Fixpoint leb (a b : str) : bool :=
  match a, b with
  | [], _ => true
  | _ :: _, [] => false
  | x :: a', y :: b' =>
      if x <? y then true else if y <? x then false else leb a' b'
  end.

(** [str.isspace] on one code point; the same set is matched by [\s] in a
    [re] pattern over [str]. *)
Definition isspace (c : char) : bool :=
  ((9 <=? c) && (c <=? 13)) || ((28 <=? c) && (c <=? 32))
  || (c =? 133) || (c =? 160) || (c =? 5760)
  || ((8192 <=? c) && (c <=? 8202))
  || (c =? 8232) || (c =? 8233) || (c =? 8239) || (c =? 8287)
  || (c =? 12288).

Fixpoint lstrip (s : str) : str :=
  match s with
  | c :: s' => if isspace c then lstrip s' else s
  | [] => []
  end.

Definition rstrip (s : str) : str := rev (lstrip (rev s)).

Definition strip (s : str) : str := rstrip (lstrip s).

(** [a.startswith(p)] *)
Fixpoint startswith (p a : str) : bool :=
  match p, a with
  | [], _ => true
  | x :: p', y :: a' => N.eqb x y && startswith p' a'
  | _ :: _, [] => false
  end.

(** [s.split(sep)] for a one-character separator: the current field is
    accumulated in [cur] (reversed). *)
Fixpoint split_go (sep : char) (s : str) (cur : str) : list str :=
  match s with
  | [] => [rev cur]
  | c :: s' =>
      if N.eqb c sep then rev cur :: split_go sep s' []
      else split_go sep s' (c :: cur)
  end.

Definition split (sep : char) (s : str) : list str := split_go sep s [].

(** ["".join(parts)] *)
Definition join (parts : list str) : str := List.concat parts.

(** [str(n)] for a non-negative integer. *)
Definition str_of_int (n : N) : str :=
  lit (NilZero.string_of_uint (N.to_uint n)).

(** [sub in s] *)
Fixpoint contains (sub s : str) : bool :=
  startswith sub s
  || match s with
     | [] => false
     | _ :: s' => contains sub s'
     end.

(** Membership in a Python [set] of strings. *)
Definition mem (x : str) (s : list str) : bool := existsb (eqb x) s.

End PyStr.

Import PyStr.


(** ** The file system seen by the walker

    A [Path] is an entry together with what the walker can observe of it:
    [path.name], [path.is_dir()], the result of [path.stat().st_size] for a
    file ([None] when [stat] raises [OSError]) and the result of
    [path.iterdir()] for a directory ([readable = false] when the listing
    raises [PermissionError] or another [OSError]; [entries] is then never
    looked at).  [entries] is in the arbitrary order of the operating
    system.  [Unstatable] is an entry on which [path.is_dir()] itself
    raises: [pathlib] answers [False] for a missing entry or a broken link
    and, in the releases that do not swallow them, propagates other
    errors of the underlying [stat], such as a permission error for an
    entry of a directory that can be listed but not searched.  The tree
    is finite: links that close a cycle are outside the model. *)

#[local] Unset Elimination Schemes.

Inductive Path : Type :=
| File (name : str) (st_size : option N)
| Dir (name : str) (readable : bool) (entries : list Path)
| Unstatable (name : str).

#[local] Set Elimination Schemes.

Definition path_name (p : Path) : str :=
  match p with
  | File n _ => n
  | Dir n _ _ => n
  | Unstatable n => n
  end.

Definition path_is_dir (p : Path) : bool :=
  match p with
  | Dir _ _ _ => true
  | _ => false
  end.

(** ** [sorted]

    [sorted(path.iterdir())] orders sibling paths, which share their
    parent, by their last component.  [sorted] is stable: an element is
    placed before the first one that is not smaller. *)

Section Sorted.
Variables (A : Type) (key : A -> str).

Fixpoint insert_sorted (x : A) (l : list A) : list A :=
  match l with
  | [] => [x]
  | y :: l' =>
      if PyStr.leb (key x) (key y) then x :: y :: l'
      else y :: insert_sorted x l'
  end.

Fixpoint sorted (l : list A) : list A :=
  match l with
  | [] => []
  | x :: l' => insert_sorted x (sorted l')
  end.

End Sorted.

(** ** [TreeNode] and [DirectoryTree] *)

#[local] Unset Elimination Schemes.

Inductive TreeNode : Type :=
  mkTreeNode { name : str; is_dir : bool; size : N;
               children : list TreeNode }.

#[local] Set Elimination Schemes.

Definition DEFAULT_IGNORE_DIRS : list str :=
  map lit
    [ ".git"; ".svn"; ".hg"; ".bzr";
      "__pycache__"; ".pytest_cache"; ".mypy_cache";
      "node_modules"; ".next"; ".nuxt";
      "cache"; ".cache"; "tmp"; "temp";
      ".idea"; ".vscode"; ".vs";
      "dist"; "build"; ".build";
      ".venv"; "venv"; "env"; ".env";
      ".DS_Store"; "Thumbs.db" ]%string.

(** The fields of a [DirectoryTree] object that are set once by
    [__init__]. *)
Record DirectoryTree : Type := mkDirectoryTree {
  root_path : Path;
  ignore_dirs : list str;
  include_all : bool;
  only_dirs : bool;
  max_depth : option Z;
  include_size : bool
}.

(** The fields of a [DirectoryTree] object that [build_tree] updates. *)
Record Counters : Type := mkCounters {
  dir_count : N;
  file_count : N;
  total_size : N
}.

(** A method either returns a value or raises [OSError]
    ([PermissionError] is a subclass); either way it may have updated the
    counters. *)
Inductive result (A : Type) : Type :=
| Ok (a : A)
| OSError.

Arguments Ok {A} a.
Arguments OSError {A}.

Definition M (A : Type) : Type := Counters -> result A * Counters.

Definition ret {A} (a : A) : M A := fun c => (Ok a, c).

Definition raise {A} : M A := fun c => (OSError, c).

Definition bind {A B} (m : M A) (k : A -> M B) : M B :=
  fun c =>
    match m c with
    | (Ok a, c') => k a c'
    | (OSError, c') => (OSError, c')
    end.

(** [try: m  except (PermissionError, OSError): handler] *)
Definition try_except {A} (m handler : M A) : M A :=
  fun c =>
    match m c with
    | (Ok a, c') => (Ok a, c')
    | (OSError, c') => handler c'
    end.

Notation "x <- m ;; k" := (bind m (fun x => k))
  (at level 61, m at next level, right associativity).
Notation "m ;;; k" := (bind m (fun _ => k))
  (at level 61, right associativity).

Definition count_dir (c : Counters) : Counters :=
  mkCounters (dir_count c + 1) (file_count c) (total_size c).

Definition count_file (c : Counters) : Counters :=
  mkCounters (dir_count c) (file_count c + 1) (total_size c).

Definition count_size (n : N) (c : Counters) : Counters :=
  mkCounters (dir_count c) (file_count c) (total_size c + n).

(** [self.dir_count += 1] *)
Definition incr_dir_count : M unit := fun c => (Ok tt, count_dir c).

(** [self.file_count += 1] *)
Definition incr_file_count : M unit := fun c => (Ok tt, count_file c).

(** [self.total_size += n] *)
Definition add_total_size (n : N) : M unit := fun c => (Ok tt, count_size n c).

(** [path.iterdir()], consumed by [sorted]. *)
Definition iterdir {A} (readable : bool) (entries : list A) : M (list A) :=
  if readable then ret entries else raise.

(** [path.stat().st_size] *)
Definition stat_size (st_size : option N) : M N :=
  match st_size with
  | Some sz => ret sz
  | None => raise
  end.

Definition should_ignore (self : DirectoryTree) (nm : str) : bool :=
  if include_all self then false
  else PyStr.mem nm (ignore_dirs self) || startswith (lit ".") nm.

(** *** [format_size]

    The argument is an [int]; the first [size /= 1024.0] converts it to a
    [float] (round to nearest, ties to even, 53 significant bits) and
    every later division by 1024 only lowers the exponent, so each float
    that arises is an integer [m] of at most 53 significant bits divided
    by a power of 1024, and is kept exactly as [PyFloat m e], of value
    [m / 1024^e].  (An [int] of 2^1024 or more makes the conversion raise
    [OverflowError]; byte counts that large are outside the model.) *)

Inductive number : Type :=
| PyInt (n : N)
| PyFloat (m e : N).

(** [float(n)], as an integer. *)
Definition float_of_int (n : N) : N :=
  let bits := N.size n in
  if bits <=? 53 then n
  else
    let sh := bits - 53 in
    let q := N.shiftr n sh in
    let r := n - N.shiftl q sh in
    let half := N.shiftl 1 (sh - 1) in
    let q' := if (half <? r) || ((r =? half) && N.odd q) then q + 1 else q in
    N.shiftl q' sh.

(** The value of a number as a float, [(m, e)] for [m / 1024^e]. *)
Definition to_float (x : number) : N * N :=
  match x with
  | PyInt n => (float_of_int n, 0)
  | PyFloat m e => (m, e)
  end.

(** [size < 1024.0]: comparison of an [int] with a [float] is exact. *)
Definition lt_1024 (x : number) : bool :=
  match x with
  | PyInt n => n <? 1024
  | PyFloat m e => m <? 1024 * 1024 ^ e
  end.

(** [size /= 1024.0] *)
Definition div_1024 (x : number) : number :=
  let (m, e) := to_float x in PyFloat m (e + 1).

(** The integer nearest to [n / d], ties to even. *)
Definition round_half_even (n d : N) : N :=
  let m := n / d in
  let r := n mod d in
  if (d <? 2 * r) || ((2 * r =? d) && N.odd m) then m + 1 else m.

(** The decimal text, with two fractional digits, of [h] hundredths. *)
Definition two_decimals (h : N) : str :=
  str_of_int (h / 100) ++ lit "." ++
  str_of_int ((h mod 100) / 10) ++ str_of_int (h mod 10).

(** [f"{x:.2f}"]: the decimal expansion with two fractional digits
    nearest to the exact value of [x], ties to even. *)
Definition fmt_2f (x : number) : str :=
  let (m, e) := to_float x in
  two_decimals (round_half_even (100 * m) (1024 ^ e)).

Fixpoint format_size_loop (units : list str) (size : number) : str :=
  match units with
  | unit :: rest =>
      if lt_1024 size then fmt_2f size ++ lit " " ++ unit
      else format_size_loop rest (div_1024 size)
  | [] => fmt_2f size ++ lit " PB"
  end.

Definition format_size (size : N) : str :=
  format_size_loop (map lit ["B"; "KB"; "MB"; "GB"; "TB"]%string) (PyInt size).

(** *** [build_tree] *)

(** [self.max_depth is not None and depth > self.max_depth] *)
Definition beyond_max_depth (self : DirectoryTree) (depth : Z) : bool :=
  match max_depth self with
  | None => false
  | Some d => (d <? depth)%Z
  end.

(** The body of [for item in sorted(path.iterdir())], given for every
    item the recursive call on it; [items.append] in iteration order.  An
    [OSError] raised by a call leaves the loop. *)
Fixpoint build_items (self : DirectoryTree)
    (items : list (Path * (Z -> M (option TreeNode)))) (depth : Z)
    : M (list TreeNode) :=
  match items with
  | [] => ret []
  | (item, build_item) :: rest =>
      if should_ignore self (path_name item) then build_items self rest depth
      else
        child_node <- build_item (depth + 1)%Z ;;
        items' <- build_items self rest depth ;;
        ret (match child_node with
             | Some n => n :: items'
             | None => items'
             end)
  end.

(** The recursion is structural in [path]; each entry is paired with the
    recursive call on it before the listing is sorted.  [node.children]
    is assigned at the end of the [try] block only, so it is still empty
    when the handler runs. *)
Fixpoint build_tree (self : DirectoryTree) (path : Path)
    : Z -> M (option TreeNode) :=
  fun depth =>
    if beyond_max_depth self depth then ret None
    else
      match path with
      | Unstatable _ =>
          (* TreeNode(path.name, path.is_dir(), 0, path) *)
          raise
      | Dir nm readable entries =>
          incr_dir_count ;;;
          children <-
            try_except
              (listing <- iterdir readable
                            (map (fun item => (item, build_tree self item))
                               entries) ;;
               build_items self
                 (sorted (fun it => path_name (fst it)) listing) depth)
              (* except (PermissionError, OSError): pass *)
              (ret []) ;;
          ret (Some (mkTreeNode nm true 0 children))
      | File nm st_size =>
          if negb (only_dirs self) then
            incr_file_count ;;;
            sz <-
              try_except
                (sz <- stat_size st_size ;;
                 add_total_size sz ;;;
                 ret sz)
                (* except (OSError, PermissionError): node.size = 0 *)
                (ret 0) ;;
            ret (Some (mkTreeNode nm false sz []))
          else ret None
      end.

(** The same loop over the sorted paths themselves, calling [build_tree]
    on each: the form the source has (see [build_tree_Dir]). *)
Fixpoint build_children (self : DirectoryTree) (items : list Path)
    (depth : Z) : M (list TreeNode) :=
  match items with
  | [] => ret []
  | item :: rest =>
      if should_ignore self (path_name item) then
        build_children self rest depth
      else
        child_node <- build_tree self item (depth + 1)%Z ;;
        items' <- build_children self rest depth ;;
        ret (match child_node with
             | Some n => n :: items'
             | None => items'
             end)
  end.

Definition reset_counters : M unit :=
  fun _ => (Ok tt, mkCounters 0 0 0).

Definition generate_tree (self : DirectoryTree) : M (option TreeNode) :=
  reset_counters ;;;
  build_tree self (root_path self) 0%Z.

(** The command-line options that reach the walker. *)
Record Args : Type := mkArgs {
  args_include_all : bool;
  args_only_dirs : bool;
  args_max_depth : option Z;
  args_include_size : bool
}.

(** The [DirectoryTree] that [main] builds for a directory [input_dir]. *)
Definition main_tree_generator (args : Args) (input_dir : Path)
    : DirectoryTree :=
  mkDirectoryTree input_dir
    (if args_include_all args then [] else DEFAULT_IGNORE_DIRS)
    (args_include_all args) (args_only_dirs args) (args_max_depth args)
    (args_include_size args).

(** The nodes below a node, and the nodes of a tree, in document order. *)
Fixpoint descendants (node : TreeNode) : list TreeNode :=
  match node with
  | mkTreeNode _ _ _ children =>
      flat_map (fun c => c :: descendants c) children
  end.

Definition nodes (node : TreeNode) : list TreeNode :=
  node :: descendants node.

(** ** [MarkdownGenerator] *)

Record MarkdownGenerator : Type := mkMarkdownGenerator {
  tree_generator : DirectoryTree;
  root_name : str
}.

(** [__init__]: [root_name or tree_generator.root_path.name] *)
Definition new_MarkdownGenerator (tg : DirectoryTree)
    (root_name : option str) : MarkdownGenerator :=
  mkMarkdownGenerator tg
    match root_name with
    | Some (c :: r) => c :: r
    | _ => path_name (root_path tg)
    end.

(** [self.tree_generator.root_path.name] *)
Definition root_path_name (self : MarkdownGenerator) : str :=
  path_name (root_path (tree_generator self)).

Fixpoint tree_to_lines (self : MarkdownGenerator) (node : TreeNode)
    (prefix : str) (is_last : bool) : list str :=
  match node with
  | mkTreeNode nm isdir sz children =>
      let lines :=
        if negb (PyStr.eqb nm (root_path_name self)) then
          let connector := if is_last then lit "└── " else lit "├── " in
          let marker := if isdir then lit "📁" else lit "📄" in
          let size_str :=
            if include_size (tree_generator self) && negb isdir then
              lit " (" ++ format_size sz ++ lit ")"
            else [] in
          [prefix ++ connector ++ marker ++ lit " " ++ nm ++ size_str
             ++ lit "\n"]
        else [] in
      lines ++
      match isdir, children with
      | true, _ :: _ =>
          let child_prefix :=
            if PyStr.eqb nm (root_path_name self) then prefix
            else prefix ++ (if is_last then lit "    " else lit "│   ") in
          (fix for_children (i : nat) (cs : list TreeNode) : list str :=
             match cs with
             | [] => []
             | child :: cs' =>
                 let is_last_child := Nat.eqb i (List.length children - 1) in
                 tree_to_lines self child child_prefix is_last_child
                   ++ for_children (S i) cs'
             end) O children
      | _, _ => []
      end
  end.

Definition PLACEHOLDER : str := lit "# 目录结构\n\n目录为空或无法访问。\n".

Definition get_counters : M Counters := fun c => (Ok c, c).

(** The lines of the fenced block after the root line:
    [for i, child in enumerate(root_node.children)]. *)
Fixpoint root_children_lines (self : MarkdownGenerator) (n : nat) (i : nat)
    (cs : list TreeNode) : list str :=
  match cs with
  | [] => []
  | child :: cs' =>
      let is_last := Nat.eqb i (n - 1) in
      tree_to_lines self child [] is_last
        ++ root_children_lines self n (S i) cs'
  end.

(** The statistics section. *)
Definition summary_lines (self : MarkdownGenerator) (c : Counters)
    : list str :=
  [lit "\n## 统计信息\n\n";
   lit "- **目录数**: " ++ str_of_int (dir_count c) ++ lit "\n"]
  ++ (if negb (only_dirs (tree_generator self)) then
        [lit "- **文件数**: " ++ str_of_int (file_count c) ++ lit "\n"]
        ++ (if include_size (tree_generator self) then
              [lit "- **总大小**: " ++ format_size (total_size c)
                 ++ lit "\n"]
            else [])
      else []).

(** The lines between the fences. *)
Definition block_lines (self : MarkdownGenerator) (root_node : TreeNode)
    : list str :=
  let root_marker := if is_dir root_node then lit "📁" else lit "📄" in
  [root_marker ++ lit " " ++ root_name self ++ lit "/\n"]
  ++ root_children_lines self (List.length (children root_node)) O
       (children root_node).

Definition generate_markdown (self : MarkdownGenerator) : M str :=
  root_node <- generate_tree (tree_generator self) ;;
  match root_node with
  | None => ret PLACEHOLDER
  | Some root_node =>
      c <- get_counters ;;
      ret (join
             ([lit "# 目录结构: " ++ root_name self ++ lit "\n\n";
               lit "```\n"]
              ++ block_lines self root_node
              ++ [lit "```\n"]
              ++ summary_lines self c))
  end.

(** ** The generated viewer

    [generate_gui_script] writes a program whose text is fixed up to the
    file name; the part of it that reads the document back is modelled
    here. *)

(** *** Regular expressions

    The patterns of the viewer, matched as [re] does it: by backtracking,
    alternatives tried in priority order (a greedy quantifier takes as
    much as it can first, a lazy one as little; an optional part is tried
    before it is skipped).  Quantifiers occur on single characters and
    character classes only. *)

Module Re.

Inductive regex : Type :=
| Empty                                       (* the empty pattern *)
| Chr (c : char)                              (* a literal character *)
| Class (p : char -> bool)                    (* [\s], [.], [[...]] *)
| Rep (greedy at_least_one : bool) (p : char -> bool)
                                              (* [+], [*], [+?], [*?] *)
| Seq (r1 r2 : regex)
| Opt (r : regex)                             (* [r?] *)
| Group (i : nat) (r : regex)                 (* capturing group [i] *)
| Eol.                                        (* [$] *)

(** The groups that took part in the match, most recent first. *)
Definition groups := list (nat * str).

Definition cont := str -> groups -> option groups.

Definition orelse {A} (a b : option A) : option A :=
  match a with
  | Some _ => a
  | None => b
  end.

(** [stop] tells whether the repetition may end at the current position. *)
Fixpoint rep_greedy (p : char -> bool) (stop : bool) (s : str) (g : groups)
    (k : cont) : option groups :=
  let done := if stop then k s g else None in
  match s with
  | c :: s' => if p c then orelse (rep_greedy p true s' g k) done else done
  | [] => done
  end.

Fixpoint rep_lazy (p : char -> bool) (stop : bool) (s : str) (g : groups)
    (k : cont) : option groups :=
  orelse (if stop then k s g else None)
    match s with
    | c :: s' => if p c then rep_lazy p true s' g k else None
    | [] => None
    end.

Fixpoint run (r : regex) (s : str) (g : groups) (k : cont) : option groups :=
  match r with
  | Empty => k s g
  | Chr c =>
      match s with
      | x :: s' => if x =? c then k s' g else None
      | [] => None
      end
  | Class p =>
      match s with
      | x :: s' => if p x then k s' g else None
      | [] => None
      end
  | Rep greedy at_least_one p =>
      if greedy then rep_greedy p (negb at_least_one) s g k
      else rep_lazy p (negb at_least_one) s g k
  | Seq r1 r2 => run r1 s g (fun s' g' => run r2 s' g' k)
  | Opt r' => orelse (run r' s g k) (k s g)
  | Group i r' =>
      run r' s g
        (fun s' g' =>
           k s' ((i, firstn (List.length s - List.length s') s) :: g'))
  | Eol =>
      match s with
      | [] => k s g
      | [c] => if c =? 10 then k s g else None
      | _ => None
      end
  end.

(** [re.match(r, s)] *)
Definition re_match (r : regex) (s : str) : option groups :=
  run r s [] (fun _ g => Some g).

(** [re.search(r, s)] *)
Fixpoint re_search (r : regex) (s : str) : option groups :=
  orelse (re_match r s)
    match s with
    | _ :: s' => re_search r s'
    | [] => None
    end.

(** [m.group(i)]: [None] when the group took no part in the match. *)
Fixpoint group (i : nat) (g : groups) : option str :=
  match g with
  | [] => None
  | (j, v) :: g' => if Nat.eqb i j then Some v else group i g'
  end.

Fixpoint seq (rs : list regex) : regex :=
  match rs with
  | [] => Empty
  | [r] => r
  | r :: rs' => Seq r (seq rs')
  end.

Definition str_ (s : string) : regex := seq (map Chr (lit s)).

Definition one_of (s : string) : char -> bool :=
  fun c => existsb (N.eqb c) (lit s).

Definition none_of (s : string) : char -> bool :=
  fun c => negb (existsb (N.eqb c) (lit s)).

Definition dot : char -> bool := fun c => negb (c =? 10).

Definition any : char -> bool := fun _ => true.

End Re.

Import Re.

(** [r'📁\s+(.+?)/?$'] *)
Definition ROOT_PATTERN : regex :=
  seq [str_ "📁"; Rep true true isspace; Group 1 (Rep false true dot);
       Opt (str_ "/"); Eol].

(** [r'([├└]──\s+)?([📁📄])\s+(.+?)(?:\s+\(([^)]+)\))?$'] *)
Definition CONTENT_PATTERN : regex :=
  seq [Opt (Group 1 (seq [Class (one_of "├└"); str_ "──";
                          Rep true true isspace]));
       Group 2 (Class (one_of "📁📄"));
       Rep true true isspace;
       Group 3 (Rep false true dot);
       Opt (seq [Rep true true isspace; str_ "(";
                 Group 4 (Rep true true (none_of ")")); str_ ")"]);
       Eol].

(** [r'```\n(.*?)```'] with [re.DOTALL] *)
Definition FENCE_PATTERN : regex :=
  seq [str_ "```\n"; Group 1 (Rep false false any); str_ "```"].

(** *** The viewer's [TreeNode] objects and [parse_tree_lines]

    The parser keeps references to the nodes it has created on a stack
    and appends to the [children] of the node on top, so nodes live in a
    store addressed by creation order; [children] and [parent] hold
    addresses. *)

Record ViewerNode : Type := mkViewerNode {
  v_name : str;
  v_is_dir : bool;
  v_size : str;
  v_children : list nat;
  v_parent : option nat
}.

Definition store := list ViewerNode.

(** [parent_node.children.append(node)] *)
Fixpoint append_child (h : store) (parent child : nat) : store :=
  match h, parent with
  | [], _ => []
  | n :: h', O =>
      mkViewerNode (v_name n) (v_is_dir n) (v_size n)
        (v_children n ++ [child]) (v_parent n) :: h'
  | n :: h', S p => n :: append_child h' p child
  end.

(** [while len(stack) > 1 and stack[-1][1] >= level: stack.pop()];
    the top of the stack is the head of the list. *)
Fixpoint pop_while (stack : list (nat * Z)) (level : Z) : list (nat * Z) :=
  match stack with
  | top :: ((_ :: _) as below) =>
      if (level <=? snd top)%Z then pop_while below level else stack
  | _ => stack
  end.

(** One iteration of [for line in lines[1:]]. *)
Definition parse_line (st : store * list (nat * Z)) (line : str)
    : store * list (nat * Z) :=
  let (h, stack) := st in
  match strip line with
  | [] => st
  | _ :: _ =>
      let stripped := lstrip line in
      match stripped with
      | [] => st
      | _ :: _ =>
          let leading_chars := (List.length line - List.length stripped)%nat in
          match re_match CONTENT_PATTERN stripped with
          | None => st
          | Some g =>
              let marker := group 2 g in
              let nm := match group 3 g with Some v => v | None => [] end in
              let sz := match group 4 g with Some v => v | None => [] end in
              let isdir :=
                match marker with
                | Some m => PyStr.eqb m (lit "📁")
                | None => false
                end in
              let level := (Z.of_nat leading_chars / 4)%Z in
              let node := List.length h in
              let stack := pop_while stack level in
              let (h, parent) :=
                match stack with
                | (parent_node, _) :: _ =>
                    (append_child h parent_node node, Some parent_node)
                | [] => (h, None)
                end in
              let h := h ++ [mkViewerNode nm isdir sz [] parent] in
              (h, if isdir then (node, level) :: stack else stack)
          end
      end
  end.

(** The address of the root node and the store, or [None]. *)
Definition parse_tree_lines (lines : list str) : option (nat * store) :=
  match lines with
  | [] => None
  | line0 :: rest =>
      let root_line := strip line0 in
      match re_match ROOT_PATTERN root_line with
      | None => None
      | Some g =>
          let root_name := match group 1 g with Some v => v | None => [] end in
          let root_node := mkViewerNode root_name true [] [] None in
          let (h, _) := fold_left parse_line rest ([root_node], [(O, (-1)%Z)]) in
          Some (O, h)
      end
  end.

(** The tree of objects reachable from an address, as a value. *)
#[local] Unset Elimination Schemes.

Inductive ViewTree : Type :=
  VNode (nm : str) (isdir : bool) (sz : str) (kids : list ViewTree).

#[local] Set Elimination Schemes.

Fixpoint reify (fuel : nat) (h : store) (a : nat) : option ViewTree :=
  match fuel with
  | O => None
  | S fuel' =>
      match nth_error h a with
      | None => None
      | Some n =>
          let kids :=
            fold_right
              (fun k acc =>
                 match reify fuel' h k, acc with
                 | Some t, Some ts => Some (t :: ts)
                 | _, _ => None
                 end)
              (Some []) (v_children n) in
          match kids with
          | Some ts => Some (VNode (v_name n) (v_is_dir n) (v_size n) ts)
          | None => None
          end
      end
  end.

(** [load_directory_tree], from the text of the document to the tree that
    is handed to [build_treeview]. *)
Definition load_directory_tree (content : str) : option ViewTree :=
  match re_search FENCE_PATTERN content with
  | None => None
  | Some g =>
      let tree_content := match group 1 g with Some v => v | None => [] end in
      let lines := split 10 (strip tree_content) in
      match parse_tree_lines lines with
      | None => None
      | Some (root, h) => reify (S (List.length h)) h root
      end
  end.

(** What the viewer should show for a tree of the builder: the same names,
    kinds and nesting, a file's size as the text written in the document. *)
Fixpoint view_of (with_size : bool) (node : TreeNode) : ViewTree :=
  match node with
  | mkTreeNode nm isdir sz children =>
      VNode nm isdir
        (if with_size && negb isdir then format_size sz else [])
        (map (view_of with_size) children)
  end.

Definition view_of_root (self : MarkdownGenerator) (root_node : TreeNode)
    : ViewTree :=
  VNode (root_name self) true []
    (map (view_of (include_size (tree_generator self))) (children root_node)).

(** ** Vocabulary of the statements *)

(** An entry that [build_tree] turns into a node when it is within the
    depth limit and can be examined; a listed entry that the loop of
    [build_tree] does not skip; an entry on which [is_dir] raises. *)
Definition kept (self : DirectoryTree) (p : Path) : bool :=
  path_is_dir p || negb (only_dirs self).

Definition listed (self : DirectoryTree) (p : Path) : bool :=
  negb (should_ignore self (path_name p)) && kept self p.

Definition unstatable (p : Path) : bool :=
  match p with
  | Unstatable _ => true
  | _ => false
  end.

(** Every entry of a listing that the loop does not skip as ignored can
    be examined. *)
Definition examinable (self : DirectoryTree) (items : list Path) : bool :=
  forallb
    (fun p => should_ignore self (path_name p) || negb (unstatable p))
    items.



(** Name order, on names and on things that have one. *)
Definition name_le (a b : str) : Prop := PyStr.leb a b = true.

Definition key_le {A} (key : A -> str) (x y : A) : Prop :=
  name_le (key x) (key y).

(** ** Sample inputs *)

Definition no_counts : Counters := mkCounters 0 0 0.

(** [proj/] with [src/core/x.py] and [README.md], listed in no
    particular order. *)
Definition sample_nested : Path :=
  Dir (lit "proj") true
    [ Dir (lit "src") true
        [ Dir (lit "core") true [ File (lit "x.py") (Some 3) ] ];
      File (lit "README.md") (Some 120) ].

(** [proj/] with an unreadable directory [locked/], a file [gone.txt]
    whose [stat] fails, a file [a.txt] of 10 bytes, and a directory
    [odd/] holding [ok.txt] and an entry [zz] that cannot be examined. *)
Definition sample_odd : Path :=
  Dir (lit "odd") true
    [ Unstatable (lit "zz"); File (lit "ok.txt") (Some 4) ].

Definition sample_failures : Path :=
  Dir (lit "proj") true
    [ Dir (lit "locked") false [];
      File (lit "gone.txt") None;
      sample_odd;
      File (lit "a.txt") (Some 10) ].

(** Every node of a tree is a directory. *)
Definition all_dirs (node : TreeNode) : Prop :=
  Forall (fun n => is_dir n = true) (nodes node).

(** The children of every node of a tree are in name order. *)
Definition children_sorted (node : TreeNode) : Prop :=
  Forall (fun n => StronglySorted name_le (map name (children n)))
    (nodes node).

(** No node below the root of a tree has an ignored name. *)
Definition none_ignored_below (self : DirectoryTree) (node : TreeNode)
    : Prop :=
  Forall (fun n => should_ignore self (name n) = false) (descendants node).

(** [proj/] with [.git/], [node_modules/] and [src/main.py]. *)
Definition sample_vcs : Path :=
  Dir (lit "proj") true
    [ Dir (lit "src") true [ File (lit "main.py") (Some 1) ];
      Dir (lit "node_modules") true [ File (lit "x.js") (Some 1) ];
      Dir (lit ".git") true [ File (lit "HEAD") (Some 1) ] ].

(** A build directory given as the root: [dir2md ./build]. *)
Definition sample_build_root : Path :=
  Dir (lit "build") true [ File (lit "out.txt") (Some 1) ].

Definition default_args : Args := mkArgs false false None false.

(** [proj/] with [a.txt] of 10 bytes and [b/c.txt] of 2048 bytes. *)
Definition sample_a_txt : Path := File (lit "a.txt") (Some 10).

Definition sample_b : Path :=
  Dir (lit "b") true [ File (lit "c.txt") (Some 2048) ].

Definition sample_proj (entries : list Path) : Path :=
  Dir (lit "proj") true entries.

(** [dir2md proj -s] *)
Definition size_args : Args := mkArgs false false None true.

(** The generator that [main] sets up. *)
Definition main_generator (args : Args) (input_dir : Path)
    : MarkdownGenerator :=
  new_MarkdownGenerator (main_tree_generator args input_dir) None.

(** The text that [main] gets from [generate_markdown], when it returns. *)
Definition document (args : Args) (input_dir : Path) (c : Counters)
    : result str :=
  fst (generate_markdown (main_generator args input_dir) c).

(** An empty directory and a directory that cannot be listed. *)
Definition sample_empty : Path := Dir (lit "proj") true [].

Definition sample_unreadable : Path :=
  Dir (lit "proj") false [ File (lit "secret") (Some 1) ].

(** [proj/] holding a directory that is also called [proj], with a file in
    it. *)
Definition sample_same_name : Path :=
  Dir (lit "proj") true
    [ Dir (lit "proj") true [ File (lit "x.py") (Some 3) ] ].

(** ** The rendering as the specification words it *)

(** The unit names of the size suffix, and the size text in closed form:
    the byte count as a float, divided by 1024 as many times as it takes
    to get below 1024 (five times at most), with two decimals. *)
Definition UNITS : list str := map lit ["B"; "KB"; "MB"; "GB"; "TB"; "PB"]%string.

Definition unit_index (n : N) : nat :=
  let m := float_of_int n in
  if n <? 1024 then 0%nat
  else if m <? 1024 ^ 2 then 1%nat
  else if m <? 1024 ^ 3 then 2%nat
  else if m <? 1024 ^ 4 then 3%nat
  else if m <? 1024 ^ 5 then 4%nat
  else 5%nat.

Definition spec_format_size (n : N) : str :=
  let k := unit_index n in
  two_decimals (round_half_even (100 * float_of_int n) (1024 ^ N.of_nat k))
  ++ lit " " ++ nth k UNITS [].

(** A line of the block for an entry below the root: the ancestry prefix
    (for each ancestor below the root, outermost first, four spaces when
    that ancestor was a last sibling and a vertical bar with three spaces
    otherwise), the connector, the marker glyph, the name, and for a file,
    when sizes are on, the size in parentheses. *)

Definition ancestry_prefix (ancestors_last : list bool) : str :=
  List.concat
    (map (fun last : bool => if last then lit "    " else lit "│   ")
       ancestors_last).

Definition spec_line (with_size : bool) (ancestors_last : list bool)
    (is_last : bool) (node : TreeNode) : str :=
  ancestry_prefix ancestors_last
  ++ (if is_last then lit "└── " else lit "├── ")
  ++ (if is_dir node then lit "📁" else lit "📄")
  ++ lit " " ++ name node
  ++ (if with_size && negb (is_dir node)
      then lit " (" ++ spec_format_size (size node) ++ lit ")" else [])
  ++ lit "\n".

(** The lines for an entry and everything below it, depth first; among
    siblings the last one, and only it, is marked as last. *)
Fixpoint spec_tree_lines (with_size : bool) (ancestors_last : list bool)
    (is_last : bool) (node : TreeNode) : list str :=
  match node with
  | mkTreeNode _ _ _ children =>
      spec_line with_size ancestors_last is_last node
      :: (fix siblings (cs : list TreeNode) : list str :=
            match cs with
            | [] => []
            | c :: cs' =>
                spec_tree_lines with_size (ancestors_last ++ [is_last])
                  (match cs' with [] => true | _ :: _ => false end) c
                ++ siblings cs'
            end) children
  end.

Fixpoint spec_siblings_lines (with_size : bool) (ancestors_last : list bool)
    (cs : list TreeNode) : list str :=
  match cs with
  | [] => []
  | c :: cs' =>
      spec_tree_lines with_size ancestors_last
        (match cs' with [] => true | _ :: _ => false end) c
      ++ spec_siblings_lines with_size ancestors_last cs'
  end.

(** *** The loops of the renderer *)

(** The loop of [tree_to_lines] over [children], from index [i] on; [n] is
    [len(children)]. *)
Fixpoint children_lines (self : MarkdownGenerator) (n : nat)
    (child_prefix : str) (i : nat) (cs : list TreeNode) : list str :=
  match cs with
  | [] => []
  | child :: cs' =>
      tree_to_lines self child child_prefix (Nat.eqb i (n - 1))
        ++ children_lines self n child_prefix (S i) cs'
  end.

(** A file node has no children. *)
Definition leaf_if_file (n : TreeNode) : Prop :=
  is_dir n = false -> children n = [].

(** On a tree whose files are leaves and where no node bears the root
    directory's name, [tree_to_lines] yields the specified lines. *)
Definition renders_as_specified (self : MarkdownGenerator) (node : TreeNode)
    : Prop :=
  Forall leaf_if_file (nodes node) ->
  Forall (fun n => name n <> root_path_name self) (nodes node) ->
  forall anc is_last,
    tree_to_lines self node (ancestry_prefix anc) is_last
    = spec_tree_lines (include_size (tree_generator self)) anc is_last node.

(** The document as specified for a root node and the counters of the
    walk: the title, the fenced block with the unprefixed root line and
    the lines of everything below the root, and the summary with the
    directory count, then, unless directories only, the file count and,
    if sizes are on, the total size. *)
Definition spec_document (self : MarkdownGenerator) (root_node : TreeNode)
    (c : Counters) : str :=
  let tg := tree_generator self in
  join
    ([lit "# 目录结构: " ++ root_name self ++ lit "\n\n";
      lit "```\n";
      (if is_dir root_node then lit "📁" else lit "📄") ++ lit " "
        ++ root_name self ++ lit "/\n"]
     ++ spec_siblings_lines (include_size tg) [] (children root_node)
     ++ [lit "```\n";
         lit "\n## 统计信息\n\n";
         lit "- **目录数**: " ++ str_of_int (dir_count c) ++ lit "\n"]
     ++ (if only_dirs tg then []
         else
           (lit "- **文件数**: " ++ str_of_int (file_count c) ++ lit "\n")
           :: (if include_size tg then
                 [lit "- **总大小**: " ++ spec_format_size (total_size c)
                    ++ lit "\n"]
               else []))).

(** [proj/] with [docs/] (holding [a.md] and [b.md]) and a larger file. *)
Definition sample_docs : Path :=
  Dir (lit "proj") true
    [ File (lit "data.bin") (Some 5242880);
      Dir (lit "docs") true
        [ File (lit "b.md") (Some 1536); File (lit "a.md") (Some 0) ] ].

(** [proj/] with [src/main.py] and [tests/]: the directory [src] has a
    child and is not the last of its siblings. *)
Definition sample_src_tests : Path :=
  Dir (lit "proj") true
    [ Dir (lit "tests") true [];
      Dir (lit "src") true [ File (lit "main.py") (Some 3) ] ].

(** What the viewer shows for the document written for a directory, and
    what it should show.  The viewer is given the text of the document
    as [generate_markdown] returned it; writing the file and reading it
    back in text mode changes the text only where it holds a carriage
    return. *)
Definition viewer_tree (args : Args) (input_dir : Path) : option ViewTree :=
  match document args input_dir no_counts with
  | Ok doc => load_directory_tree doc
  | OSError => None
  end.

Definition expected_tree (args : Args) (input_dir : Path)
    : option ViewTree :=
  match fst (generate_tree (main_tree_generator args input_dir) no_counts)
  with
  | Ok (Some root_node) =>
      Some (view_of_root (main_generator args input_dir) root_node)
  | _ => None
  end.

(** What a walk in directories-only mode leaves unchanged and builds. *)
Definition only_dirs_walk (self : DirectoryTree) (p : Path) : Prop :=
  forall depth c,
    file_count (snd (build_tree self p depth c)) = file_count c
    /\ total_size (snd (build_tree self p depth c)) = total_size c
    /\ forall node, fst (build_tree self p depth c) = Ok (Some node) ->
                    all_dirs node.

(** The names of the children of the root that [generate_tree] returns. *)
Definition root_listing (args : Args) (input_dir : Path)
    : option (list str) :=
  match fst (generate_tree (main_tree_generator args input_dir) no_counts)
  with
  | Ok (Some root_node) => Some (map name (children root_node))
  | _ => None
  end.

Unset Implicit Arguments.

(** ** Induction over paths and trees *)

Section PathInd.
Variable P : Path -> Prop.
Hypothesis HFile : forall nm st, P (File nm st).
Hypothesis HDir : forall nm r es, Forall P es -> P (Dir nm r es).
Hypothesis HUnstatable : forall nm, P (Unstatable nm).

Fixpoint Path_ind (p : Path) : P p :=
  match p with
  | File nm st => HFile nm st
  | Dir nm r es =>
      HDir nm r es
        ((fix all (l : list Path) : Forall P l :=
            match l with
            | [] => Forall_nil P
            | x :: l' => Forall_cons x (Path_ind x) (all l')
            end) es)
  | Unstatable nm => HUnstatable nm
  end.

End PathInd.

Section TreeNodeInd.
Variable P : TreeNode -> Prop.
Hypothesis HNode :
  forall nm d sz cs, Forall P cs -> P (mkTreeNode nm d sz cs).

Fixpoint TreeNode_ind (n : TreeNode) : P n :=
  match n with
  | mkTreeNode nm d sz cs =>
      HNode nm d sz cs
        ((fix all (l : list TreeNode) : Forall P l :=
            match l with
            | [] => Forall_nil P
            | x :: l' => Forall_cons x (TreeNode_ind x) (all l')
            end) cs)
  end.

End TreeNodeInd.

(** ** Census of a built tree *)

Definition plus_counters (a b : Counters) : Counters :=
  mkCounters (dir_count a + dir_count b) (file_count a + file_count b)
    (total_size a + total_size b).

Definition le_counters (a b : Counters) : Prop :=
  dir_count a <= dir_count b /\ file_count a <= file_count b
  /\ total_size a <= total_size b.

(** What one node contributes: a directory, or a file and its bytes. *)
Definition census_node (n : TreeNode) : Counters :=
  if is_dir n then mkCounters 1 0 0 else mkCounters 0 1 (size n).

Definition tally (l : list TreeNode) : Counters :=
  fold_right (fun n acc => plus_counters (census_node n) acc)
    (mkCounters 0 0 0) l.

(** The directories, files and bytes of a tree. *)
Definition census (t : TreeNode) : Counters := tally (nodes t).

Definition census_of (r : option TreeNode) : Counters :=
  match r with
  | Some t => census t
  | None => mkCounters 0 0 0
  end.


(** The number of levels below a node. *)
Fixpoint height (t : TreeNode) : Z :=
  match t with
  | mkTreeNode _ _ _ cs =>
      fold_right (fun c acc => Z.max (1 + height c) acc) 0%Z cs
  end.


Definition census_result (r : result (option TreeNode)) : Counters :=
  match r with
  | Ok o => census_of o
  | OSError => mkCounters 0 0 0
  end.

(** A call adds to the counters at least the census of what it built. *)
Definition counts_at_least (self : DirectoryTree) (p : Path) : Prop :=
  forall depth c,
    le_counters
      (plus_counters c (census_result (fst (build_tree self p depth c))))
      (snd (build_tree self p depth c)).

(** The same entries with every listing already in name order. *)
Fixpoint canon (p : Path) : Path :=
  match p with
  | Dir nm readable entries =>
      Dir nm readable (sorted path_name (map canon entries))
  | _ => p
  end.

(** The same generator with the directories-only flag set to [b]. *)
Definition with_only_dirs (b : bool) (self : DirectoryTree) : DirectoryTree :=
  mkDirectoryTree (root_path self) (ignore_dirs self) (include_all self) b
    (max_depth self) (include_size self).

(** A tree without its file nodes. *)
Fixpoint dirs_only (t : TreeNode) : TreeNode :=
  match t with
  | mkTreeNode nm d sz cs =>
      mkTreeNode nm d sz
        ((fix go (l : list TreeNode) : list TreeNode :=
            match l with
            | [] => []
            | c :: l' => if is_dir c then dirs_only c :: go l' else go l'
            end) cs)
  end.

Fixpoint dirs_only_list (l : list TreeNode) : list TreeNode :=
  match l with
  | [] => []
  | c :: l' =>
      if is_dir c then dirs_only c :: dirs_only_list l'
      else dirs_only_list l'
  end.

Definition dirs_only_result (r : result (option TreeNode))
    : result (option TreeNode) :=
  match r with
  | Ok (Some t) => if is_dir t then Ok (Some (dirs_only t)) else Ok None
  | Ok None => Ok None
  | OSError => OSError
  end.

(** A walk in directories-only mode against the walk without the flag:
    the tree is the other one without its files, and the directory count
    grows by the same amount. *)
Definition only_dirs_projection (self : DirectoryTree) (p : Path) : Prop :=
  forall depth c c0,
    fst (build_tree (with_only_dirs true self) p depth c0)
    = dirs_only_result (fst (build_tree (with_only_dirs false self) p depth c))
    /\ dir_count (snd (build_tree (with_only_dirs true self) p depth c0))
       + dir_count c
       = dir_count (snd (build_tree (with_only_dirs false self) p depth c))
         + dir_count c0.



(** ** Invariants of the viewer's node store *)

(** Children are created after their parent, and exist. *)
Definition children_later (h : store) : Prop :=
  forall a n,
    nth_error h a = Some n ->
    Forall (fun k => (a < k < List.length h)%nat) (v_children n).

(** The [parent] field of every node but the first names an earlier
    node, and [children] and [parent] agree. *)
Definition parents_agree (h : store) : Prop :=
  (forall n, nth_error h 0 = Some n -> v_parent n = None)
  /\ (forall k n, nth_error h (S k) = Some n ->
                  exists p, v_parent n = Some p /\ (p < S k)%nat)
  /\ (forall a k na nk,
         nth_error h a = Some na -> nth_error h k = Some nk ->
         (In k (v_children na) <-> v_parent nk = Some a)).

(** The stack holds existing nodes and is never empty. *)
Definition stack_ok (h : store) (stack : list (nat * Z)) : Prop :=
  stack <> [] /\ Forall (fun e => (fst e < List.length h)%nat) stack.

Definition parser_invariant (st : store * list (nat * Z)) : Prop :=
  children_later (fst st) /\ parents_agree (fst st)
  /\ stack_ok (fst st) (snd st) /\ fst st <> [].

(** What [parse_line] does with a line that matches: create the node,
    attach it to the node on top of the popped stack, and push it when it
    is a directory. *)
Definition add_node (st : store * list (nat * Z)) (nm : str) (isdir : bool)
    (sz : str) (level : Z) : store * list (nat * Z) :=
  let (h, stack) := st in
  let node := List.length h in
  let stack := pop_while stack level in
  let (h, parent) :=
    match stack with
    | (parent_node, _) :: _ =>
        (append_child h parent_node node, Some parent_node)
    | [] => (h, None)
    end in
  let h := h ++ [mkViewerNode nm isdir sz [] parent] in
  (h, if isdir then (node, level) :: stack else stack).

(** The text between the fences, as [load_directory_tree] cuts it into
    lines. *)
Definition fenced_lines (content : str) : option (list str) :=
  match re_search FENCE_PATTERN content with
  | None => None
  | Some g =>
      Some (split 10 (strip match group 1 g with Some v => v | None => [] end))
  end.

(** ** What a successful match looks like

    [matches r s g s' g']: the pattern [r] can consume a prefix of [s],
    leaving [s'], and turn the groups [g] into [g'].  The matcher [run]
    finds one of these (the first in priority order) for which the rest
    of the pattern succeeds. *)
Inductive matches : regex -> str -> groups -> str -> groups -> Prop :=
| matches_Empty s g : matches Empty s g s g
| matches_Chr c s g : matches (Chr c) (c :: s) g s g
| matches_Class (p : char -> bool) c s g :
    p c = true -> matches (Class p) (c :: s) g s g
| matches_Rep greedy at_least_one (p : char -> bool) cs s g :
    forallb p cs = true ->
    (at_least_one = true -> cs <> []) ->
    matches (Rep greedy at_least_one p) (cs ++ s) g s g
| matches_Seq r1 r2 s g s1 g1 s2 g2 :
    matches r1 s g s1 g1 -> matches r2 s1 g1 s2 g2 ->
    matches (Seq r1 r2) s g s2 g2
| matches_Opt_taken r s g s' g' :
    matches r s g s' g' -> matches (Opt r) s g s' g'
| matches_Opt_skipped r s g : matches (Opt r) s g s g
| matches_Group i r s g s' g' :
    matches r s g s' g' ->
    matches (Group i r) s g s'
      ((i, firstn (List.length s - List.length s') s) :: g')
| matches_Eol_end g : matches Eol [] g [] g
| matches_Eol_newline g : matches Eol [10] g [10] g.

(** What [parse_tree_lines] guarantees of a node it has created: a name
    that is not empty and holds no line break, a size text without a
    closing parenthesis, and children only below directories. *)
Definition well_formed_node (n : ViewerNode) : Prop :=
  v_name n <> [] /\ ~ In 10 (v_name n) /\ ~ In 41 (v_size n)
  /\ (v_is_dir n = false -> v_children n = []).

(** The stack holds directories only. *)
Definition stack_of_dirs (h : store) (stack : list (nat * Z)) : Prop :=
  Forall
    (fun e => exists n, nth_error h (fst e) = Some n /\ v_is_dir n = true)
    stack.

(** ** [build_treeview]

    The items of the [ttk.Treeview]: the text, the one value, the tag,
    whether the item is open, and the items inserted below it, in
    order. *)
#[local] Unset Elimination Schemes.

Inductive TreeviewItem : Type :=
  mkItem (text : str) (value : str) (tag : str) (open : bool)
         (items : list TreeviewItem).

#[local] Set Elimination Schemes.

(** The items that [build_treeview(node, parent)] inserts below
    [parent]. *)
Fixpoint build_treeview (node : ViewTree) : list TreeviewItem :=
  match node with
  | VNode nm isdir sz kids =>
      match nm with
      | [] => []
      | _ :: _ =>
          [mkItem nm sz (if isdir then lit "directory" else lit "file") false
             (flat_map build_treeview kids)]
      end
  end.

(** [self.tree.item(child_id, open=True)] *)
Definition open_item (i : TreeviewItem) : TreeviewItem :=
  match i with
  | mkItem text value tag _ items => mkItem text value tag true items
  end.

(** What [load_directory_tree] puts into the widget once the root node is
    parsed. *)
Definition show_tree (root_node : ViewTree) : list TreeviewItem :=
  match root_node with
  | VNode _ _ _ kids => map open_item (flat_map build_treeview kids)
  end.

(** One item for a node and for each node below it. *)
Fixpoint item_of (node : ViewTree) : TreeviewItem :=
  match node with
  | VNode nm isdir sz kids =>
      mkItem nm sz (if isdir then lit "directory" else lit "file") false
        (map item_of kids)
  end.

Definition view_kids (t : ViewTree) : list ViewTree :=
  match t with
  | VNode _ _ _ kids => kids
  end.

(** Every node of the tree has a name. *)
Fixpoint named (t : ViewTree) : Prop :=
  match t with
  | VNode nm _ _ kids =>
      nm <> [] /\ fold_right (fun k acc => named k /\ acc) True kids
  end.

Section ViewTreeInd.
Variable P : ViewTree -> Prop.
Hypothesis HNode :
  forall nm d sz kids, Forall P kids -> P (VNode nm d sz kids).

Fixpoint ViewTree_ind (t : ViewTree) : P t :=
  match t with
  | VNode nm d sz kids =>
      HNode nm d sz kids
        ((fix all (l : list ViewTree) : Forall P l :=
            match l with
            | [] => Forall_nil P
            | x :: l' => Forall_cons x (ViewTree_ind x) (all l')
            end) kids)
  end.

End ViewTreeInd.

(** ** The name of the viewer script

    [s.replace(old, new)]: the occurrences of [old] are found from left
    to right and do not overlap; [skip] counts the characters of the
    occurrence just replaced that are still to be passed over.  For an
    empty [old], [new] is put before every character and at the end. *)
Fixpoint replace_go (old new : str) (skip : nat) (s : str) : str :=
  match s with
  | [] => []
  | c :: s' =>
      match skip with
      | S k => replace_go old new k s'
      | O =>
          if startswith old s then
            new ++ replace_go old new (List.length old - 1) s'
          else c :: replace_go old new O s'
      end
  end.

Definition replace (old new s : str) : str :=
  match old with
  | [] => new ++ flat_map (fun c => c :: new) s
  | _ :: _ => replace_go old new O s
  end.

(** [script_name = md_filename.replace('.md', '.py')], the name under
    which [generate_gui_script] writes the viewer into the output
    directory. *)
Definition script_name (md_filename : str) : str :=
  replace (lit ".md") (lit ".py") md_filename.

(** A decimal digit. *)
Definition digit (c : char) : Prop := 48 <= c <= 57.

(** ** Trees that the viewer reads back

    A character that ends neither a line, nor a size, nor the fenced
    block. *)
Definition plain_char (c : char) : bool :=
  negb (c =? 10) && negb (c =? 13) && negb (c =? 40) && negb (c =? 41)
  && negb (c =? 96).

(** A blank directly before an opening parenthesis. *)
Fixpoint blank_paren (s : str) : bool :=
  match s with
  | w :: t =>
      match t with
      | c :: _ => (isspace w && (c =? 40)) || blank_paren t
      | [] => false
      end
  | [] => false
  end.

(** A character that ends no line and no fenced block. *)
Definition name_char (c : char) : bool :=
  negb (c =? 10) && negb (c =? 13) && negb (c =? 96).

(** A name that a line of the block gives back: it is not empty, has no
    blank at either end, no blank directly before a parenthesis, no line
    break and no backquote. *)
Definition plain_name (nm : str) : bool :=
  match nm with
  | [] => false
  | c :: _ =>
      negb (isspace c) && negb (isspace (last nm 0))
      && negb (blank_paren nm) && forallb name_char nm
  end.

(** The parts of the pattern of an entry: the size in parentheses, and
    what follows the name. *)
Definition SIZE_PATTERN : regex :=
  seq [Rep true true isspace; str_ "(";
       Group 4 (Rep true true (none_of ")")); str_ ")"].

Definition AFTER_NAME : regex := Seq (Opt SIZE_PATTERN) Eol.

(** The size, when a line has one. *)
Definition size_suffix (size : option str) : str :=
  match size with
  | Some F => lit " (" ++ F ++ lit ")"
  | None => []
  end.

(** The name of the root as its line gives it back. *)
Definition plain_root_name (nm : str) : bool :=
  match nm with
  | [] => false
  | c :: _ => negb (isspace c) && forallb name_char nm
  end.

(** A line of the block without its line break, at depth [d] below
    ancestors that were last siblings. *)
Definition entry_line (with_size : bool) (d : nat) (is_last : bool)
    (node : TreeNode) : str :=
  repeat 32 (4 * d)
  ++ (if is_last then lit "└── " else lit "├── ")
  ++ (if is_dir node then lit "📁" else lit "📄")
  ++ lit " " ++ name node
  ++ size_suffix
       (if with_size && negb (is_dir node)
        then Some (spec_format_size (size node)) else None).

(** The size that the viewer keeps for a node. *)
Definition size_text (with_size : bool) (node : TreeNode) : str :=
  if with_size && negb (is_dir node) then spec_format_size (size node)
  else [].

(** ** The store while the lines of a tree are parsed *)

Definition with_children (n : ViewerNode) (ks : list nat) : ViewerNode :=
  mkViewerNode (v_name n) (v_is_dir n) (v_size n) ks (v_parent n).

(** [h'] is [h] with nodes added and [ks] appended to the children of the
    node at [p]; the other nodes of [h] are as they were. *)
Definition grown (h h' : store) (p : nat) (ks : list nat) : Prop :=
  (List.length h <= List.length h')%nat
  /\ (forall a n, nth_error h a = Some n -> a <> p -> nth_error h' a = Some n)
  /\ (forall n, nth_error h p = Some n ->
                nth_error h' p = Some (with_children n (v_children n ++ ks))).

(** The tree below the node at [k] is [t]. *)
Definition shows (h : store) (k : nat) (t : ViewTree) : Prop :=
  exists fuel, reify fuel h k = Some t.

(** A line at depth [d] will be attached to the node at [p]. *)
Definition ready (stack : list (nat * Z)) (d : nat) (p : nat) : Prop :=
  exists below,
    pop_while stack (Z.of_nat d) = (p, (Z.of_nat d - 1)%Z) :: below.

(** The trees below a list of addresses, as [reify] collects them. *)
Definition reify_kids (fuel : nat) (h : store) (ks : list nat)
    : option (list ViewTree) :=
  fold_right
    (fun k acc =>
       match reify fuel h k, acc with
       | Some t, Some ts => Some (t :: ts)
       | _, _ => None
       end)
    (Some []) ks.

(** A tree in which every name is plain. *)
Fixpoint plain_names (node : TreeNode) : bool :=
  match node with
  | mkTreeNode nm _ _ cs => plain_name nm && forallb plain_names cs
  end.

(** A node without what is below it. *)
Definition without_children (n : TreeNode) : TreeNode :=
  mkTreeNode (name n) (is_dir n) (size n) [].

(** What the viewer keeps of a tree.  The lines below an entry that is
    not the last of its siblings are behind a vertical bar, which
    [lstrip] leaves in place, and are skipped: such an entry keeps
    nothing below it.  The last entry keeps what the viewer keeps below
    it. *)
Fixpoint shown_part (node : TreeNode) : TreeNode :=
  match node with
  | mkTreeNode nm d sz cs =>
      mkTreeNode nm d sz
        ((fix siblings (cs : list TreeNode) : list TreeNode :=
            match cs with
            | [] => []
            | c :: cs' =>
                match cs' with
                | [] => shown_part c
                | _ :: _ => without_children c
                end :: siblings cs'
            end) cs)
  end.

Fixpoint shown_siblings (cs : list TreeNode) : list TreeNode :=
  match cs with
  | [] => []
  | c :: cs' =>
      match cs' with
      | [] => shown_part c
      | _ :: _ => without_children c
      end :: shown_siblings cs'
  end.

Definition childless (n : TreeNode) : bool :=
  match children n with
  | [] => true
  | _ :: _ => false
  end.

(** Only the last of the siblings has entries below it. *)
Fixpoint only_last_has_children (cs : list TreeNode) : bool :=
  match cs with
  | c :: cs' =>
      match cs' with
      | [] => true
      | _ :: _ => childless c && only_last_has_children cs'
      end
  | [] => true
  end.

(** In every directory of the tree, only the last entry has entries of
    its own: no line of the block is behind a vertical bar. *)
Fixpoint last_branches (node : TreeNode) : bool :=
  match node with
  | mkTreeNode _ _ _ cs => only_last_has_children cs && forallb last_branches cs
  end.

(** The loop of [parse_tree_lines] over lines of the block, which reach
    it without their line breaks. *)
Definition parse_lines (lines : list str) (st : store * list (nat * Z))
    : store * list (nat * Z) :=
  fold_left parse_line (map (@removelast char) lines) st.

(** A line that starts, after blanks, with the vertical bar. *)
Definition behind_bar (l : str) : Prop :=
  exists n rest, removelast l = repeat 32 n ++ lit "│" ++ rest.

(** The lines of a node and of what is below it, parsed at depth [d]
    below the node at [p], leave in the store what the viewer keeps of
    the node, as a new child of [p]. *)
Definition parses_back (with_size : bool) (c : TreeNode) : Prop :=
  plain_names c = true ->
  Forall leaf_if_file (nodes c) ->
  forall d is_last (h : store) (stack : list (nat * Z)) p nP,
    nth_error h p = Some nP ->
    ready stack d p ->
    let st' :=
      parse_lines (spec_tree_lines with_size (repeat true d) is_last c)
        (h, stack) in
    grown h (fst st') p [List.length h]
    /\ shows (fst st') (List.length h)
         (view_of with_size
            (if is_last then shown_part c else without_children c))
    /\ (is_last = false \/ children c = [] ->
        ready (snd st') d p
        /\ nth_error (fst st') (List.length h)
           = Some (mkViewerNode (name c) (is_dir c) (size_text with_size c)
                     [] (Some p))).

(** A line of the block: a text without line break or backquote that
    does not end with a blank, and the line break. *)
Definition line_ok (l : str) : Prop :=
  exists b z,
    l = b ++ [z; 10]
    /\ forallb name_char (b ++ [z]) = true /\ isspace z = false.

Definition no_backquote (s : str) : bool :=
  forallb (fun c => negb (c =? 96)) s.

(** A tree with plain names: the root is a directory whose name its line
    gives back, every name below is plain, and no entry below the root
    has the name of the root directory. *)
Definition plainly_named (self : MarkdownGenerator) (root_node : TreeNode)
    : bool :=
  is_dir root_node
  && plain_root_name (root_name self)
  && forallb plain_names (children root_node)
  && forallb (fun n => negb (PyStr.eqb (name n) (root_path_name self)))
       (descendants root_node).

(** A tree whose document the viewer reads back in full. *)
Definition viewable (self : MarkdownGenerator) (root_node : TreeNode) : bool :=
  plainly_named self root_node && last_branches root_node.

(** * Properties *)

(** ** Facts about strings *)

Example lit_connector :
  lit "└── " = [9492; 9472; 9472; 32] /\ lit "│" = [9474] /\
  lit "📁" = [128193] /\ lit "a.txt" = [97; 46; 116; 120; 116].
Proof. repeat split; reflexivity. Qed.

Lemma str_eqb_eq (a b : str) : PyStr.eqb a b = true <-> a = b.
Proof.
  revert b; induction a as [|x a IH]; intros [|y b]; simpl;
    try (split; [discriminate | intros H; inversion H]); try tauto.
  rewrite andb_true_iff, N.eqb_eq, IH.
  split; [intros [-> ->]; reflexivity | intros H; inversion H; auto].
Qed.

Lemma str_eqb_refl (a : str) : PyStr.eqb a a = true.
Proof. apply str_eqb_eq; reflexivity. Qed.

Lemma str_eqb_neq (a b : str) : PyStr.eqb a b = false <-> a <> b.
Proof.
  rewrite <- str_eqb_eq. destruct (PyStr.eqb a b); split; congruence.
Qed.

Lemma str_leb_refl (a : str) : leb a a = true.
Proof.
  induction a as [|x a IH]; simpl; auto.
  rewrite N.ltb_irrefl; exact IH.
Qed.

Lemma str_leb_total (a b : str) : leb a b = true \/ leb b a = true.
Proof.
  revert b; induction a as [|x a IH]; intros [|y b]; simpl; auto.
  destruct (N.ltb_spec x y), (N.ltb_spec y x); auto; lia.
Qed.

Lemma str_leb_trans (a b c : str) :
  leb a b = true -> leb b c = true -> leb a c = true.
Proof.
  revert b c; induction a as [|x a IH]; intros [|y b] [|z c]; simpl;
    auto; try discriminate.
  destruct (N.ltb_spec x y), (N.ltb_spec y x), (N.ltb_spec y z),
    (N.ltb_spec z y), (N.ltb_spec x z), (N.ltb_spec z x);
    auto; try discriminate; try lia.
  apply IH.
Qed.


(** ** [sorted] *)

Section SortedFacts.
Variables (A : Type) (key : A -> str).

Let le := key_le key.

Lemma insert_sorted_perm (x : A) (l : list A) :
  Permutation (x :: l) (insert_sorted key x l).
Proof.
  induction l as [|y l IH]; simpl; auto.
  destruct (PyStr.leb (key x) (key y)); auto.
  rewrite perm_swap. constructor. exact IH.
Qed.

Lemma sorted_perm (l : list A) : Permutation l (sorted key l).
Proof.
  induction l as [|x l IH]; simpl; auto.
  rewrite <- insert_sorted_perm. constructor. exact IH.
Qed.

Lemma insert_sorted_sorted (x : A) (l : list A) :
  StronglySorted le l -> StronglySorted le (insert_sorted key x l).
Proof.
  induction 1 as [|y l Hs IH Hy]; simpl.
  - constructor; constructor.
  - destruct (PyStr.leb (key x) (key y)) eqn:E.
    + constructor; [constructor; assumption|].
      constructor; [exact E|].
      eapply Forall_impl; [|exact Hy].
      intros z Hz. unfold le, name_le in *. eapply str_leb_trans; eauto.
    + constructor; [exact IH|].
      eapply Permutation_Forall; [apply insert_sorted_perm|].
      constructor; [|exact Hy].
      unfold le, name_le.
      destruct (str_leb_total (key x) (key y)); congruence.
Qed.

Lemma sorted_sorted (l : list A) : StronglySorted le (sorted key l).
Proof.
  induction l as [|x l IH]; simpl; [constructor|].
  apply insert_sorted_sorted, IH.
Qed.

Lemma sorted_In (x : A) (l : list A) : In x (sorted key l) <-> In x l.
Proof.
  split; apply Permutation_in;
    [apply Permutation_sym|]; apply sorted_perm.
Qed.

End SortedFacts.

(** Sorting the entries paired with anything computed from them is
    sorting the entries. *)
Lemma sorted_paired (B : Type) (f : Path -> B) (l : list Path) :
  sorted (fun it => path_name (fst it)) (map (fun item => (item, f item)) l)
  = map (fun item => (item, f item)) (sorted path_name l).
Proof.
  induction l as [|x l IH]; simpl; auto.
  rewrite IH. generalize (sorted path_name l) as s.
  induction s as [|y s IHs]; simpl; auto.
  destruct (PyStr.leb (path_name x) (path_name y)); simpl; auto.
  rewrite IHs; reflexivity.
Qed.

(** ** [build_tree] in the shape of the source *)

Lemma build_items_children (self : DirectoryTree) (items : list Path)
    (depth : Z) :
  build_items self (map (fun item => (item, build_tree self item)) items)
    depth
  = build_children self items depth.
Proof.
  induction items as [|x items IH]; simpl; auto.
  rewrite IH; reflexivity.
Qed.

Lemma build_tree_pruned (self : DirectoryTree) (path : Path) (depth : Z) :
  beyond_max_depth self depth = true ->
  build_tree self path depth = ret None.
Proof.
  intros H. destruct path; simpl; rewrite H; reflexivity.
Qed.

(** On a directory: count it, then, inside [try], sort the listing and
    build the children of the entries that are not ignored. *)
Lemma build_tree_Dir (self : DirectoryTree) nm readable entries depth c :
  beyond_max_depth self depth = false ->
  build_tree self (Dir nm readable entries) depth c
  = (incr_dir_count ;;;
     children <-
       try_except
         (listing <- iterdir readable entries ;;
          build_children self (sorted path_name listing) depth)
         (ret []) ;;
     ret (Some (mkTreeNode nm true 0 children))) c.
Proof.
  intros H. simpl. rewrite H.
  unfold bind, try_except, iterdir, incr_dir_count, ret, raise.
  destruct readable; [|reflexivity].
  rewrite sorted_paired, build_items_children. reflexivity.
Qed.

Lemma build_tree_Dir_unreadable (self : DirectoryTree) nm entries depth c :
  beyond_max_depth self depth = false ->
  build_tree self (Dir nm false entries) depth c
  = (Ok (Some (mkTreeNode nm true 0 [])), count_dir c).
Proof.
  intros H. rewrite build_tree_Dir by assumption. reflexivity.
Qed.

Lemma build_tree_Dir_readable (self : DirectoryTree) nm entries depth c :
  beyond_max_depth self depth = false ->
  build_tree self (Dir nm true entries) depth c
  = match build_children self (sorted path_name entries) depth (count_dir c)
    with
    | (Ok items, c') => (Ok (Some (mkTreeNode nm true 0 items)), c')
    | (OSError, c') => (Ok (Some (mkTreeNode nm true 0 [])), c')
    end.
Proof.
  intros H. rewrite build_tree_Dir by assumption.
  unfold bind, try_except, iterdir, incr_dir_count, ret.
  destruct (build_children _ _ _ _) as [[items|] c']; reflexivity.
Qed.

Lemma build_tree_File (self : DirectoryTree) nm st depth c :
  beyond_max_depth self depth = false ->
  build_tree self (File nm st) depth c
  = if negb (only_dirs self) then
      match st with
      | Some sz =>
          (Ok (Some (mkTreeNode nm false sz [])),
           count_size sz (count_file c))
      | None => (Ok (Some (mkTreeNode nm false 0 [])), count_file c)
      end
    else (Ok None, c).
Proof.
  intros H. simpl. rewrite H.
  destruct (only_dirs self); [reflexivity|]. destruct st; reflexivity.
Qed.

Lemma build_tree_Unstatable (self : DirectoryTree) nm depth c :
  beyond_max_depth self depth = false ->
  build_tree self (Unstatable nm) depth c = (OSError, c).
Proof.
  intros H. simpl. rewrite H. reflexivity.
Qed.

(** ** The walker *)

(** What a call within the depth limit returns, by the kind of entry. *)
Lemma build_tree_result (self : DirectoryTree) (p : Path) depth c :
  beyond_max_depth self depth = false ->
  if unstatable p then build_tree self p depth c = (OSError, c)
  else if kept self p then
    exists node c', build_tree self p depth c = (Ok (Some node), c')
                    /\ name node = path_name p
                    /\ is_dir node = path_is_dir p
  else build_tree self p depth c = (Ok None, c).
Proof.
  intros H. destruct p as [nm st|nm r es|nm]; unfold kept;
    cbn [unstatable path_is_dir path_name orb].
  - rewrite build_tree_File by assumption.
    destruct (only_dirs self); simpl; [reflexivity|].
    destruct st; do 2 eexists; repeat split; reflexivity.
  - destruct r.
    + rewrite build_tree_Dir_readable by assumption.
      destruct (build_children _ _ _ _) as [[items|] c'];
        do 2 eexists; repeat split; reflexivity.
    + rewrite build_tree_Dir_unreadable by assumption.
      do 2 eexists; repeat split; reflexivity.
  - apply build_tree_Unstatable, H.
Qed.

(** A call on a directory or on a file returns: whatever is raised below
    a directory is caught by it. *)
Lemma build_tree_returns (self : DirectoryTree) (p : Path) depth c :
  unstatable p = false ->
  exists r c', build_tree self p depth c = (Ok r, c').
Proof.
  intros U. destruct (beyond_max_depth self depth) eqn:B.
  - rewrite build_tree_pruned by assumption. do 2 eexists; reflexivity.
  - pose proof (build_tree_result self p depth c B) as R.
    rewrite U in R. destruct (kept self p).
    + destruct R as (node & c' & E & _). eauto.
    + eauto.
Qed.

Lemma build_children_beyond (self : DirectoryTree) items depth c :
  beyond_max_depth self (depth + 1) = true ->
  build_children self items depth c = (Ok [], c).
Proof.
  intros H. induction items as [|x items IH]; simpl; auto.
  destruct (should_ignore _ _); auto.
  rewrite build_tree_pruned by assumption.
  unfold bind, ret. rewrite IH. reflexivity.
Qed.

(** When every entry that is not ignored can be examined, the loop
    returns, with one node for each entry that is neither ignored nor a
    skipped file. *)
Lemma build_children_names (self : DirectoryTree) items depth c :
  beyond_max_depth self (depth + 1) = false ->
  examinable self items = true ->
  exists nodes c',
    build_children self items depth c = (Ok nodes, c')
    /\ map name nodes = map path_name (filter (listed self) items).
Proof.
  intros H. revert c.
  induction items as [|x items IH]; intros c U; simpl.
  - do 2 eexists; split; reflexivity.
  - simpl in U. apply andb_true_iff in U. destruct U as [Ux U].
    unfold listed at 1.
    destruct (should_ignore self (path_name x)); simpl in *; [auto|].
    apply negb_true_iff in Ux.
    pose proof (build_tree_result self x (depth + 1) c H) as R.
    rewrite Ux in R. unfold bind. destruct (kept self x).
    + destruct R as (node & c1 & E & Hn & _). rewrite E.
      destruct (IH c1 U) as (ns & c2 & E2 & Hns). rewrite E2.
      do 2 eexists; split; [reflexivity|]. simpl. congruence.
    + rewrite R.
      destruct (IH c U) as (ns & c2 & E2 & Hns). rewrite E2.
      do 2 eexists; split; [reflexivity | exact Hns].
Qed.

Lemma examinable_sorted (self : DirectoryTree) (l : list Path) :
  examinable self (sorted path_name l) = examinable self l.
Proof.
  unfold examinable. apply eq_true_iff_eq.
  rewrite !forallb_forall. split; intros H x Hx; apply H.
  - apply sorted_In; exact Hx.
  - apply sorted_In in Hx; exact Hx.
Qed.

(** An entry that cannot be examined makes the loop raise; what the
    earlier iterations added to the counters stays. *)
Lemma build_children_raises (self : DirectoryTree) items depth c :
  beyond_max_depth self (depth + 1) = false ->
  examinable self items = false ->
  exists c', build_children self items depth c = (OSError, c').
Proof.
  intros H. revert c.
  induction items as [|x items IH]; intros c U; [discriminate U|].
  simpl in *. destruct (should_ignore self (path_name x)); simpl in U; [auto|].
  pose proof (build_tree_result self x (depth + 1) c H) as R.
  unfold bind. destruct (unstatable x) eqn:Ux; simpl in U.
  - rewrite R. eauto.
  - destruct (build_tree_returns self x (depth + 1) c Ux) as (r & c1 & E).
    rewrite E. destruct (IH c1 U) as (c2 & E2). rewrite E2. eauto.
Qed.


(** C5: an entry at a depth beyond the configured maximum is pruned:
    [build_tree] returns no node for it and leaves the three counters as
    they were; with maximum depth 0, a root directory yields a tree that
    is the root alone, counted as one directory, and the fenced block has
    the root line only. *)
Theorem C5_depth_limit_prunes :
  (forall self path depth d c,
      max_depth self = Some d -> (d < depth)%Z ->
      build_tree self path depth c = (Ok None, c))
  /\ (forall self display nm readable entries c,
        root_path self = Dir nm readable entries ->
        max_depth self = Some 0%Z ->
        let mg := new_MarkdownGenerator self display in
        generate_tree self c
        = (Ok (Some (mkTreeNode nm true 0 [])), mkCounters 1 0 0)
        /\ fst (generate_markdown mg c)
           = Ok (join
                   ([lit "# 目录结构: " ++ root_name mg ++ lit "\n\n";
                     lit "```\n";
                     lit "📁 " ++ root_name mg ++ lit "/\n";
                     lit "```\n"]
                    ++ summary_lines mg (mkCounters 1 0 0)))).
Proof.
  split.
  - intros self path depth d c Hd Hlt.
    rewrite build_tree_pruned; [reflexivity|].
    unfold beyond_max_depth. rewrite Hd. apply Z.ltb_lt, Hlt.
  - intros self display nm readable entries c Hroot Hd mg.
    assert (G : generate_tree self c
                = (Ok (Some (mkTreeNode nm true 0 [])), mkCounters 1 0 0)).
    { unfold generate_tree, bind, reset_counters. rewrite Hroot.
      assert (B : beyond_max_depth self 0 = false)
        by (unfold beyond_max_depth; rewrite Hd; reflexivity).
      destruct readable.
      + rewrite build_tree_Dir_readable by assumption.
        rewrite build_children_beyond
          by (unfold beyond_max_depth; rewrite Hd; reflexivity).
        reflexivity.
      + rewrite build_tree_Dir_unreadable by assumption. reflexivity. }
    split; [exact G|].
    unfold generate_markdown, bind. change (tree_generator mg) with self.
    rewrite G. reflexivity.
Qed.

Lemma C5_depth_limit_prunes_witness :
  build_tree
    (main_tree_generator (mkArgs false false (Some 0%Z) false) sample_nested)
    (Dir (lit "src") true []) 1%Z no_counts = (Ok None, no_counts)
  /\ document (mkArgs false false (Some 0%Z) false) sample_nested
       (mkCounters 7 7 7)
     = Ok (lit "# 目录结构: proj\n\n```\n📁 proj/\n```\n\n## 统计信息\n\n- **目录数**: 1\n- **文件数**: 0\n").
Proof.
  split.
  - apply (proj1 C5_depth_limit_prunes) with (d := 0%Z);
      [reflexivity | reflexivity].
  - refine (proj2 (proj2 C5_depth_limit_prunes _ None _ _ _ _ _ _));
      reflexivity.
Defined.





(** ** Directories only *)

Lemma StronglySorted_filter (A : Type) (R : A -> A -> Prop) (f : A -> bool)
    (l : list A) :
  StronglySorted R l -> StronglySorted R (filter f l).
Proof.
  induction 1 as [|x l Hs IH Hx]; simpl; [constructor|].
  destruct (f x); [|exact IH].
  constructor; [exact IH|].
  apply Forall_forall. intros y Hy. apply filter_In in Hy.
  eapply Forall_forall in Hx; [exact Hx | tauto].
Qed.

Lemma StronglySorted_map (A B : Type) (R : B -> B -> Prop) (f : A -> B)
    (l : list A) :
  StronglySorted (fun x y => R (f x) (f y)) l -> StronglySorted R (map f l).
Proof.
  induction 1 as [|x l Hs IH Hx]; simpl; constructor; auto.
  apply Forall_map. exact Hx.
Qed.

Lemma sorted_names_filter (f : Path -> bool) (l : list Path) :
  StronglySorted name_le (map path_name (filter f (sorted path_name l))).
Proof.
  apply StronglySorted_map, StronglySorted_filter, sorted_sorted.
Qed.

Lemma build_children_only_dirs (self : DirectoryTree) items :
  Forall (only_dirs_walk self) items ->
  forall depth c,
    file_count (snd (build_children self items depth c)) = file_count c
    /\ total_size (snd (build_children self items depth c)) = total_size c
    /\ forall ns, fst (build_children self items depth c) = Ok ns ->
                  Forall all_dirs ns.
Proof.
  induction 1 as [|x items Hx _ IH]; intros depth c; simpl.
  - repeat split. intros ns E. injection E as <-. constructor.
  - destruct (should_ignore self (path_name x)); [apply IH|].
    unfold bind. specialize (Hx (depth + 1)%Z c).
    destruct (build_tree self x (depth + 1) c) as [[r|] c1];
      simpl in Hx; destruct Hx as (Hf & Ht & Hn).
    + specialize (IH depth c1).
      destruct (build_children self items depth c1) as [[its|] c2];
        simpl in *; destruct IH as (If & It & In);
        (repeat split; try congruence).
      intros ns E. injection E as <-.
      destruct r; [constructor; auto | auto].
    + simpl. repeat split; auto. discriminate.
Qed.

Lemma build_tree_only_dirs (self : DirectoryTree) :
  only_dirs self = true -> forall p, only_dirs_walk self p.
Proof.
  intros Hod p.
  induction p as [nm st|nm r es IH|nm] using Path_ind; intros depth c;
    (destruct (beyond_max_depth self depth) eqn:B;
     [rewrite build_tree_pruned by assumption; simpl;
      repeat split; discriminate|]).
  - rewrite build_tree_File by assumption. rewrite Hod. simpl.
    repeat split; discriminate.
  - destruct r.
    + rewrite build_tree_Dir_readable by assumption.
      assert (IH' : Forall (only_dirs_walk self) (sorted path_name es)).
      { eapply Permutation_Forall; [apply sorted_perm | exact IH]. }
      pose proof (build_children_only_dirs self _ IH' depth (count_dir c))
        as (Hf & Ht & Hn).
      destruct (build_children _ _ _ _) as [[its|] c2]; simpl in *;
        (repeat split; auto); intros node E; injection E as <-;
        unfold all_dirs, nodes; simpl; constructor; auto.
      apply Forall_flat_map. apply Hn. reflexivity.
    + rewrite build_tree_Dir_unreadable by assumption. simpl.
      repeat split; auto.
      intros node E. injection E as <-. repeat constructor.
  - rewrite build_tree_Unstatable by assumption. simpl.
    repeat split; discriminate.
Qed.

(** The node that a call returns does not depend on the counters. *)
Lemma build_children_any_counters (self : DirectoryTree) items :
  Forall (fun p => forall depth c c',
            fst (build_tree self p depth c) = fst (build_tree self p depth c'))
    items ->
  forall depth c c',
    fst (build_children self items depth c)
    = fst (build_children self items depth c').
Proof.
  induction 1 as [|x items Hx _ IH]; intros depth c c'; [reflexivity|].
  cbn [build_children].
  destruct (should_ignore self (path_name x)); [apply IH|].
  unfold bind. specialize (Hx (depth + 1)%Z c c').
  destruct (build_tree self x (depth + 1) c) as [r1 c1],
           (build_tree self x (depth + 1) c') as [r2 c2].
  cbn [fst] in Hx. subst r2. destruct r1 as [r|]; [|reflexivity].
  specialize (IH depth c1 c2).
  destruct (build_children self items depth c1) as [q1 d1],
           (build_children self items depth c2) as [q2 d2].
  cbn [fst] in IH. subst q2. destruct q1; reflexivity.
Qed.

Lemma build_tree_any_counters (self : DirectoryTree) (p : Path) :
  forall depth c c',
    fst (build_tree self p depth c) = fst (build_tree self p depth c').
Proof.
  induction p as [nm st|nm r es IH|nm] using Path_ind; intros depth c c';
    (destruct (beyond_max_depth self depth) eqn:B;
     [rewrite !build_tree_pruned by assumption; reflexivity|]).
  - rewrite !build_tree_File by assumption.
    destruct (negb (only_dirs self)); [|reflexivity].
    destruct st; reflexivity.
  - destruct r.
    + rewrite !build_tree_Dir_readable by assumption.
      assert (IH' : Forall
                (fun p => forall depth c c',
                   fst (build_tree self p depth c)
                   = fst (build_tree self p depth c'))
                (sorted path_name es)).
      { eapply Permutation_Forall; [apply sorted_perm | exact IH]. }
      pose proof (build_children_any_counters self _ IH' depth
                    (count_dir c) (count_dir c')) as E.
      destruct (build_children self (sorted path_name es) depth (count_dir c))
        as [q1 d1],
        (build_children self (sorted path_name es) depth (count_dir c'))
        as [q2 d2].
      cbn [fst] in E. subst q2. destruct q1; reflexivity.
    + rewrite !build_tree_Dir_unreadable by assumption. reflexivity.
  - rewrite !build_tree_Unstatable by assumption. reflexivity.
Qed.

(** The children that the loop returns are the nodes that the calls of
    [build_tree] on the listed entries return, in the order of the
    entries. *)
Lemma build_children_recursive (self : DirectoryTree) items depth :
  forall c ns c',
    build_children self items depth c = (Ok ns, c') ->
    examinable self items = true ->
    beyond_max_depth self (depth + 1) = false ->
    Forall2
      (fun p n => forall c1,
         fst (build_tree self p (depth + 1) c1) = Ok (Some n))
      (filter (listed self) items) ns.
Proof.
  induction items as [|x items IH]; intros c ns c' E U B.
  - simpl in E. injection E as <- _. constructor.
  - cbn [build_children] in E. cbn [examinable forallb] in U.
    apply andb_true_iff in U. destruct U as [Ux U]. cbn [filter].
    unfold listed at 1.
    destruct (should_ignore self (path_name x)) eqn:Ig; cbn [negb andb].
    + eapply IH; eassumption.
    + cbn [orb] in Ux. apply negb_true_iff in Ux.
      pose proof (build_tree_result self x (depth + 1) c B) as R.
      rewrite Ux in R. unfold bind in E.
      destruct (kept self x).
      * destruct R as (node & c1 & Ex & _). rewrite Ex in E.
        destruct (build_children self items depth c1) as [[its|] c2] eqn:E2;
          [|discriminate E].
        simpl in E. injection E as <- _. constructor.
        -- intros c0.
           rewrite (build_tree_any_counters self x (depth + 1) c0 c), Ex.
           reflexivity.
        -- eapply IH; eassumption.
      * rewrite R in E.
        destruct (build_children self items depth c) as [[its|] c2] eqn:E2;
          [|discriminate E].
        simpl in E. injection E as <- _. eapply IH; eassumption.
Qed.

(** C8: with [only_dirs] set, [build_tree] on a file returns no node and
    leaves all counters as they were; over a whole walk [file_count] and
    [total_size] do not change and every node built is a directory; a
    readable directory within the depth limit still yields a node whose
    children are, in sorted name order, the nodes that [build_tree]
    returns, one level deeper, on the directories of its listing that are
    not ignored (none when they would exceed the depth limit). *)
Theorem C8_only_dirs_skips_files :
  forall self,
    only_dirs self = true ->
    (forall nm st depth c,
        build_tree self (File nm st) depth c = (Ok None, c))
    /\ (forall path depth c,
          file_count (snd (build_tree self path depth c)) = file_count c
          /\ total_size (snd (build_tree self path depth c)) = total_size c
          /\ forall node,
               fst (build_tree self path depth c) = Ok (Some node) ->
               Forall (fun n => is_dir n = true) (nodes node))
    /\ (forall nm entries depth c,
          beyond_max_depth self depth = false ->
          examinable self entries = true ->
          exists node c',
            build_tree self (Dir nm true entries) depth c
            = (Ok (Some node), c')
            /\ name node = nm
            /\ StronglySorted name_le (map name (children node))
            /\ map name (children node)
               = (if beyond_max_depth self (depth + 1) then []
                  else map path_name
                         (filter
                            (fun p => negb (should_ignore self (path_name p))
                                      && path_is_dir p)
                            (sorted path_name entries)))
            /\ (if beyond_max_depth self (depth + 1) then children node = []
                else
                  Forall2
                    (fun p n =>
                       forall c1,
                         fst (build_tree self p (depth + 1) c1)
                         = Ok (Some n))
                    (filter
                       (fun p => negb (should_ignore self (path_name p))
                                 && path_is_dir p)
                       (sorted path_name entries))
                    (children node))).
Proof.
  intros self Hod. split; [|split].
  - intros nm st depth c.
    destruct (beyond_max_depth self depth) eqn:B.
    + rewrite build_tree_pruned by assumption. reflexivity.
    + rewrite build_tree_File by assumption. rewrite Hod. reflexivity.
  - intros path depth c. apply build_tree_only_dirs, Hod.
  - intros nm entries depth c B U.
    rewrite build_tree_Dir_readable by assumption.
    destruct (beyond_max_depth self (depth + 1)) eqn:B1.
    + rewrite build_children_beyond by assumption.
      do 2 eexists; repeat split; constructor.
    + rewrite <- examinable_sorted in U.
      destruct (build_children_names self (sorted path_name entries) depth
                  (count_dir c) B1 U) as (ns & c' & E & Hn).
      pose proof (build_children_recursive self _ depth _ _ _ E U B1) as R.
      rewrite E. do 2 eexists. split; [reflexivity|]. simpl.
      assert (F : filter (listed self) (sorted path_name entries)
                  = filter (fun p => negb (should_ignore self (path_name p))
                                     && path_is_dir p)
                      (sorted path_name entries)).
      { apply filter_ext. intros p. unfold listed, kept.
        rewrite Hod. simpl. rewrite orb_false_r. reflexivity. }
      rewrite F in Hn, R. split; [reflexivity|].
      split; [|split; [exact Hn | exact R]].
      rewrite Hn. apply sorted_names_filter.
Qed.

Lemma C8_only_dirs_skips_files_witness :
  let self := main_tree_generator (mkArgs false true None false)
                sample_nested in
  build_tree self (File (lit "README.md") (Some 120)) 1%Z (mkCounters 1 0 0)
  = (Ok None, mkCounters 1 0 0)
  /\ exists node c',
       build_tree self sample_nested 0%Z no_counts = (Ok (Some node), c')
       /\ children node
          = [mkTreeNode (lit "src") true 0
               [mkTreeNode (lit "core") true 0 []]].
Proof.
  intros self.
  pose proof (C8_only_dirs_skips_files self eq_refl) as (A & _ & C).
  split; [apply A|].
  destruct (C (lit "proj")
              [ Dir (lit "src") true
                  [ Dir (lit "core") true [ File (lit "x.py") (Some 3) ] ];
                File (lit "README.md") (Some 120) ] 0%Z no_counts
              eq_refl eq_refl)
    as (node & c' & E & _ & _ & _ & R).
  exists node, c'. split; [exact E|].
  change (beyond_max_depth self (0 + 1)) with false in R. cbv iota in R.
  change (filter _ _)
    with [Dir (lit "src") true
            [ Dir (lit "core") true [ File (lit "x.py") (Some 3) ] ]] in R.
  inversion R as [|p n ps ns Hn Hrest]; subst.
  inversion Hrest; subst.
  specialize (Hn no_counts). vm_compute in Hn. injection Hn as <-.
  reflexivity.
Defined.

(** ** Repeated generation *)

Lemma generate_markdown_any_counters (self : MarkdownGenerator) c c' :
  generate_markdown self c = generate_markdown self c'.
Proof.
  unfold generate_markdown, generate_tree, bind, reset_counters.
  reflexivity.
Qed.

(** C9: [generate_tree] starts every generation from counters reset to
    zero, whatever they were, so generating the document a second time
    over the same directory state, starting from the counters the first
    run left behind, returns the same text (and the same counters). *)
Theorem C9_generation_idempotent :
  forall self c,
    generate_tree (tree_generator self) c
    = build_tree (tree_generator self) (root_path (tree_generator self)) 0%Z
        (mkCounters 0 0 0)
    /\ generate_markdown self (snd (generate_markdown self c))
       = generate_markdown self c.
Proof.
  intros self c. split; [reflexivity|].
  apply generate_markdown_any_counters.
Qed.

(** ** Order and filtering of the built tree *)

Lemma build_children_wf (self : DirectoryTree) (Q : TreeNode -> Prop)
    items :
  Forall
    (fun p => forall depth c node,
         fst (build_tree self p depth c) = Ok (Some node) ->
         name node = path_name p /\ Q node) items ->
  forall depth c ns,
    fst (build_children self items depth c) = Ok ns ->
    Forall (fun n => should_ignore self (name n) = false /\ Q n) ns.
Proof.
  induction 1 as [|x items Hx _ IH]; intros depth c ns; simpl.
  - intros E. injection E as <-. constructor.
  - destruct (should_ignore self (path_name x)) eqn:I; [apply IH|].
    unfold bind. specialize (Hx (depth + 1)%Z c).
    destruct (build_tree self x (depth + 1) c) as [[r|] c1];
      [|discriminate].
    specialize (IH depth c1).
    destruct (build_children self items depth c1) as [[its|] c2];
      [|discriminate].
    simpl in *. intros E. injection E as <-.
    specialize (IH its eq_refl).
    destruct r as [n|]; [|exact IH].
    destruct (Hx n eq_refl) as [Hn Hq].
    constructor; [|exact IH]. split; [congruence | exact Hq].
Qed.

Lemma build_children_listed (self : DirectoryTree) items depth c ns :
  beyond_max_depth self (depth + 1) = false ->
  fst (build_children self items depth c) = Ok ns ->
  map name ns = map path_name (filter (listed self) items).
Proof.
  intros B E.
  destruct (examinable self items) eqn:U.
  - destruct (build_children_names self items depth c B U)
      as (ns' & c' & E' & Hn).
    rewrite E' in E. injection E as <-. exact Hn.
  - destruct (build_children_raises self items depth c B U) as (c' & E').
    rewrite E' in E. discriminate E.
Qed.

Lemma build_children_sorted (self : DirectoryTree) es depth c ns :
  fst (build_children self (sorted path_name es) depth c) = Ok ns ->
  StronglySorted name_le (map name ns).
Proof.
  intros E. destruct (beyond_max_depth self (depth + 1)) eqn:B.
  - rewrite build_children_beyond in E by assumption.
    injection E as <-. constructor.
  - rewrite (build_children_listed self _ depth c ns B E).
    apply sorted_names_filter.
Qed.

Lemma build_tree_wf (self : DirectoryTree) (p : Path) :
  forall depth c node,
    fst (build_tree self p depth c) = Ok (Some node) ->
    name node = path_name p
    /\ (children_sorted node /\ none_ignored_below self node).
Proof.
  induction p as [nm st|nm r es IH|nm] using Path_ind; intros depth c node;
    (destruct (beyond_max_depth self depth) eqn:B;
     [rewrite build_tree_pruned by assumption; discriminate|]).
  - rewrite build_tree_File by assumption.
    destruct (only_dirs self); simpl; [discriminate|].
    destruct st; simpl; intros E; injection E as <-;
      repeat split; repeat constructor.
  - destruct r.
    + rewrite build_tree_Dir_readable by assumption.
      assert (IH' : Forall
        (fun p => forall depth c node,
           fst (build_tree self p depth c) = Ok (Some node) ->
           name node = path_name p
           /\ (children_sorted node /\ none_ignored_below self node))
        (sorted path_name es)).
      { eapply Permutation_Forall; [apply sorted_perm | exact IH]. }
      pose proof (build_children_wf self _ _ IH' depth (count_dir c)) as W.
      pose proof (build_children_sorted self es depth (count_dir c)) as S.
      destruct (build_children _ _ _ _) as [[its|] c2]; simpl in *;
        intros E; injection E as <-.
      * specialize (W its eq_refl). specialize (S its eq_refl).
        split; [reflexivity|]. split.
        -- unfold children_sorted, nodes. simpl.
           constructor; [exact S|].
           apply Forall_flat_map. eapply Forall_impl; [|exact W].
           intros n (_ & Hs & _). exact Hs.
        -- unfold none_ignored_below. simpl.
           apply Forall_flat_map. eapply Forall_impl; [|exact W].
           intros n (Hi & _ & Hb). constructor; assumption.
      * repeat split; repeat constructor.
    + rewrite build_tree_Dir_unreadable by assumption. simpl.
      intros E; injection E as <-. repeat split; repeat constructor.
  - rewrite build_tree_Unstatable by assumption. discriminate.
Qed.

Lemma should_ignore_default (args : Args) (input_dir : Path) :
  args_include_all args = false ->
  should_ignore (main_tree_generator args input_dir) (lit ".git") = true
  /\ should_ignore (main_tree_generator args input_dir) (lit "node_modules")
     = true.
Proof.
  intros H. unfold should_ignore, main_tree_generator. simpl.
  rewrite H. split; reflexivity.
Qed.

(** C6, as the code has it: in every built tree the children of every
    node are in sorted name order, and no node other than the root has a
    name matched by the ignore predicate (the root is the directory the
    user named and is never tested); with include-all set the predicate
    matches nothing.  So with the default ignore set no node below the
    root is called [.git] or [node_modules], whereas with include-all
    both are listed: for [proj/] holding [.git/], [node_modules/] and
    [src/] the children are [src] alone, respectively all three. *)
Theorem C6_sorted_and_filtered_below_root :
  (forall self c root_node,
      fst (generate_tree self c) = Ok (Some root_node) ->
      Forall (fun n => StronglySorted name_le (map name (children n)))
        (nodes root_node)
      /\ Forall (fun n => should_ignore self (name n) = false)
           (descendants root_node))
  /\ (forall self nm, include_all self = true -> should_ignore self nm = false)
  /\ (forall args input_dir c root_node,
        args_include_all args = false ->
        fst (generate_tree (main_tree_generator args input_dir) c)
        = Ok (Some root_node) ->
        Forall (fun n => name n <> lit ".git"
                         /\ name n <> lit "node_modules")
          (descendants root_node))
  /\ root_listing (mkArgs false false None false) sample_vcs
     = Some [lit "src"]
  /\ root_listing (mkArgs true false None false) sample_vcs
     = Some [lit ".git"; lit "node_modules"; lit "src"].
Proof.
  split; [|split; [|split; [|split]]].
  - intros self c root_node E.
    unfold generate_tree, bind, reset_counters in E.
    apply build_tree_wf in E. destruct E as (_ & Hs & Hb).
    split; assumption.
  - intros self nm H. unfold should_ignore. rewrite H. reflexivity.
  - intros args input_dir c root_node Hall E.
    unfold generate_tree, bind, reset_counters in E.
    apply build_tree_wf in E. destruct E as (_ & _ & Hb).
    destruct (should_ignore_default args input_dir Hall) as [Hg Hn].
    eapply Forall_impl; [|exact Hb].
    intros n Hi. cbv beta in Hi.
    split; intros Heq; rewrite Heq in Hi; congruence.
  - reflexivity.
  - reflexivity.
Qed.

Lemma C6_sorted_and_filtered_below_root_witness :
  let self := main_tree_generator default_args sample_vcs in
  (Forall (fun n => StronglySorted name_le (map name (children n)))
     (nodes (mkTreeNode (lit "proj") true 0
               [mkTreeNode (lit "src") true 0
                  [mkTreeNode (lit "main.py") false 1 []]]))
   /\ Forall (fun n => should_ignore self (name n) = false)
        (descendants (mkTreeNode (lit "proj") true 0
               [mkTreeNode (lit "src") true 0
                  [mkTreeNode (lit "main.py") false 1 []]])))
  /\ should_ignore (main_tree_generator (mkArgs true false None false)
                      sample_vcs) (lit ".git") = false
  /\ Forall (fun n => name n <> lit ".git" /\ name n <> lit "node_modules")
       (descendants (mkTreeNode (lit "proj") true 0
               [mkTreeNode (lit "src") true 0
                  [mkTreeNode (lit "main.py") false 1 []]])).
Proof.
  intros self.
  destruct C6_sorted_and_filtered_below_root as (A & B & C & _).
  split; [exact (A self no_counts _ eq_refl) |].
  split;
    [exact (B (main_tree_generator (mkArgs true false None false) sample_vcs)
              (lit ".git") eq_refl) |].
  exact (C default_args sample_vcs no_counts _ eq_refl eq_refl).
Defined.

(** The claim C6 as stated, for every node, fails at the root: when the
    directory given on the command line is itself called [build], the
    root node is in the tree although the ignore predicate matches its
    name. *)
Lemma C6_root_is_not_filtered :
  let self := main_tree_generator default_args sample_build_root in
  exists root_node,
    fst (generate_tree self no_counts) = Ok (Some root_node)
    /\ should_ignore self (name root_node) = true
    /\ ~ Forall (fun n => should_ignore self (name n) = false)
           (nodes root_node).
Proof.
  intros self. eexists. split; [reflexivity|]. split; [reflexivity|].
  intros H. inversion H as [|? ? Hroot _]. discriminate Hroot.
Qed.

(** ** The documents of the examples *)

(** C2, as the code has it: for [proj/] holding [a.txt] (10 bytes) and
    [b/c.txt] (2048 bytes), listed in either order, with sizes on, the
    block lists [a.txt (10.00 B)], then [b] with [c.txt (2.00 KB)] under
    it, and the summary reports 2 directories (the root is counted),
    2 files and a total of [2.01 KB] (2058 / 1024 = 2.0098). *)
Theorem C2_example_document :
  forall c,
    document size_args (sample_proj [sample_a_txt; sample_b]) c
    = Ok (lit "# 目录结构: proj\n\n```\n📁 proj/\n├── 📄 a.txt (10.00 B)\n└── 📁 b\n    └── 📄 c.txt (2.00 KB)\n```\n\n## 统计信息\n\n- **目录数**: 2\n- **文件数**: 2\n- **总大小**: 2.01 KB\n")
    /\ document size_args (sample_proj [sample_b; sample_a_txt]) c
       = document size_args (sample_proj [sample_a_txt; sample_b]) c.
Proof.
  intros c. unfold document.
  rewrite (generate_markdown_any_counters _ c no_counts).
  rewrite (generate_markdown_any_counters
             (main_generator size_args (sample_proj [sample_b; sample_a_txt]))
             c no_counts).
  split; vm_compute; reflexivity.
Qed.

(** The summary that C2 states (1 directory, total 2.05 KB) is not the
    one in the document. *)
Lemma C2_summary_not_as_stated :
  ~ exists doc,
      document size_args (sample_proj [sample_a_txt; sample_b]) no_counts
      = Ok doc
      /\ contains (lit "a.txt (10.00 B)") doc = true
      /\ contains (lit "c.txt (2.00 KB)") doc = true
      /\ contains (lit "- **目录数**: 1\n") doc = true
      /\ contains (lit "- **文件数**: 2\n") doc = true
      /\ contains (lit "- **总大小**: 2.05 KB\n") doc = true.
Proof.
  intros (doc & E & _ & _ & H & _).
  vm_compute in E. injection E as <-. vm_compute in H. discriminate H.
Qed.

(** C3 at an empty root directory, and at one whose listing fails: the
    document is not the placeholder; it has a fenced block with the root
    line and a summary of one directory. *)
Theorem C3_empty_root_gets_no_placeholder :
  document default_args sample_empty no_counts
  = Ok (lit "# 目录结构: proj\n\n```\n📁 proj/\n```\n\n## 统计信息\n\n- **目录数**: 1\n- **文件数**: 0\n")
  /\ document default_args sample_unreadable no_counts
     = document default_args sample_empty no_counts
  /\ document default_args sample_empty no_counts <> Ok PLACEHOLDER.
Proof.
  repeat split; try (vm_compute; reflexivity).
  vm_compute. discriminate.
Qed.

(** The placeholder is returned exactly when [generate_tree] returns no
    root node, that is, when the root itself is pruned by a negative
    maximum depth or is a file in directories-only mode. *)
Lemma generate_markdown_placeholder (self : MarkdownGenerator) c :
  fst (generate_markdown self c) = Ok PLACEHOLDER
  <-> fst (generate_tree (tree_generator self) c) = Ok None.
Proof.
  unfold generate_markdown, bind.
  destruct (generate_tree (tree_generator self) c) as [[[root_node|]|] c'];
    simpl; split; try reflexivity; discriminate.
Qed.

Lemma generate_tree_None (self : DirectoryTree) c :
  fst (generate_tree self c) = Ok None
  <-> beyond_max_depth self 0 = true
      \/ (path_is_dir (root_path self) = false
          /\ unstatable (root_path self) = false /\ only_dirs self = true).
Proof.
  unfold generate_tree, bind, reset_counters.
  destruct (beyond_max_depth self 0) eqn:B.
  - rewrite build_tree_pruned by assumption. simpl. tauto.
  - pose proof (build_tree_result self (root_path self) 0%Z
                  (mkCounters 0 0 0) B) as R.
    unfold kept in R.
    destruct (unstatable (root_path self)).
    + rewrite R. simpl. split; [discriminate|].
      intros [H|(_ & H & _)]; discriminate.
    + destruct (path_is_dir (root_path self)), (only_dirs self); simpl in R;
        try (destruct R as (node & c' & E & _); rewrite E; simpl;
             split; [discriminate | intros [H|(H1 & _ & H2)]; discriminate]).
      rewrite R. simpl. tauto.
Qed.

(** A root that is a directory always gets a document, and it is not the
    placeholder unless the maximum depth is negative. *)
Lemma generate_markdown_root_directory (self : MarkdownGenerator) c :
  path_is_dir (root_path (tree_generator self)) = true ->
  beyond_max_depth (tree_generator self) 0 = false ->
  exists doc, fst (generate_markdown self c) = Ok doc /\ doc <> PLACEHOLDER.
Proof.
  intros D B.
  pose proof (build_tree_result (tree_generator self)
                (root_path (tree_generator self)) 0%Z (mkCounters 0 0 0) B)
    as R.
  unfold kept in R. rewrite D in R.
  assert (U : unstatable (root_path (tree_generator self)) = false)
    by (destruct (root_path (tree_generator self)); try discriminate D;
        reflexivity).
  rewrite U in R. simpl in R. destruct R as (node & c' & E & _).
  unfold generate_markdown, generate_tree, bind, reset_counters.
  rewrite E. simpl. eexists. split; [reflexivity|]. discriminate.
Qed.

(** ** The renderer *)

Lemma for_children_eq (self : MarkdownGenerator) n child_prefix i l :
  (fix for_children (i : nat) (cs : list TreeNode) : list str :=
     match cs with
     | [] => []
     | child :: cs' =>
         tree_to_lines self child child_prefix (Nat.eqb i (n - 1))
           ++ for_children (S i) cs'
     end) i l
  = children_lines self n child_prefix i l.
Proof.
  revert i. induction l as [|x l IH]; intros i; [reflexivity|].
  cbn [children_lines]. rewrite <- IH. reflexivity.
Qed.

Lemma tree_to_lines_eq (self : MarkdownGenerator) nm d sz cs prefix is_last :
  tree_to_lines self (mkTreeNode nm d sz cs) prefix is_last
  = (if negb (PyStr.eqb nm (root_path_name self)) then
       [prefix ++ (if is_last then lit "└── " else lit "├── ")
          ++ (if d then lit "📁" else lit "📄") ++ lit " " ++ nm
          ++ (if include_size (tree_generator self) && negb d
              then lit " (" ++ format_size sz ++ lit ")" else [])
          ++ lit "\n"]
     else [])
    ++ (if d then
          children_lines self (List.length cs)
            (if PyStr.eqb nm (root_path_name self) then prefix
             else prefix ++ (if is_last then lit "    " else lit "│   "))
            0 cs
        else []).
Proof.
  destruct d; [|reflexivity].
  destruct cs as [|c cs]; [reflexivity|].
  rewrite <- for_children_eq. reflexivity.
Qed.

Lemma root_children_lines_eq (self : MarkdownGenerator) n i cs :
  root_children_lines self n i cs = children_lines self n [] i cs.
Proof.
  revert i. induction cs as [|c cs IH]; intros i; simpl; auto.
  rewrite IH. reflexivity.
Qed.

(** C10: the renderer recognises the root by its name.  A node whose name
    is the root directory's name gets no line of its own, and its
    children are rendered with the prefix unchanged; so for [proj/]
    holding a directory [proj] with a file [x.py], the block shows
    [x.py] directly under the root and no line for the inner [proj],
    while the summary counts two directories. *)
Theorem C10_root_recognised_by_name :
  (forall self nm d sz cs prefix is_last,
      nm = root_path_name self ->
      tree_to_lines self (mkTreeNode nm d sz cs) prefix is_last
      = if d then children_lines self (List.length cs) prefix 0 cs else [])
  /\ fst (generate_tree (main_tree_generator default_args sample_same_name)
            no_counts)
     = Ok (Some (mkTreeNode (lit "proj") true 0
               [mkTreeNode (lit "proj") true 0
                  [mkTreeNode (lit "x.py") false 3 []]]))
  /\ document default_args sample_same_name no_counts
     = Ok (lit "# 目录结构: proj\n\n```\n📁 proj/\n└── 📄 x.py\n```\n\n## 统计信息\n\n- **目录数**: 2\n- **文件数**: 1\n").
Proof.
  split; [|split; vm_compute; reflexivity].
  intros self nm d sz cs prefix is_last ->.
  rewrite tree_to_lines_eq, str_eqb_refl. reflexivity.
Qed.

Lemma C10_root_recognised_by_name_witness :
  tree_to_lines (main_generator default_args sample_same_name)
    (mkTreeNode (lit "proj") true 0 [mkTreeNode (lit "x.py") false 3 []])
    [] true
  = [lit "└── 📄 x.py\n"].
Proof.
  exact (proj1 C10_root_recognised_by_name
           (main_generator default_args sample_same_name)
           (lit "proj") true 0 [mkTreeNode (lit "x.py") false 3 []]
           [] true eq_refl).
Defined.

(** ** Sizes *)

Lemma format_size_units (n : N) : format_size n = spec_format_size n.
Proof.
  unfold format_size, spec_format_size, unit_index.
  cbv [format_size_loop map lt_1024 div_1024 to_float fmt_2f].
  destruct (n <? 1024) eqn:E0.
  - apply N.ltb_lt in E0.
    assert (F : float_of_int n = n).
    { unfold float_of_int.
      destruct (N.leb_spec (N.size n) 53) as [_|H]; [reflexivity|].
      exfalso. destruct n as [|p]; [discriminate H|].
      pose proof (N.size_le (N.pos p)) as S.
      assert (2 ^ 54 <= 2 ^ N.size (N.pos p))
        by (apply N.pow_le_mono_r; lia).
      change (2 ^ 54) with 18014398509481984 in *. lia. }
    rewrite F. reflexivity.
  - change (1024 * 1024 ^ (0 + 1)) with (1024 ^ 2).
    change (1024 * 1024 ^ (0 + 1 + 1)) with (1024 ^ 3).
    change (1024 * 1024 ^ (0 + 1 + 1 + 1)) with (1024 ^ 4).
    change (1024 * 1024 ^ (0 + 1 + 1 + 1 + 1)) with (1024 ^ 5).
    destruct (float_of_int n <? 1024 ^ 2); [reflexivity|].
    destruct (float_of_int n <? 1024 ^ 3); [reflexivity|].
    destruct (float_of_int n <? 1024 ^ 4); [reflexivity|].
    destruct (float_of_int n <? 1024 ^ 5); reflexivity.
Qed.

Lemma float_of_int_exact (n : N) : n < 2 ^ 53 -> float_of_int n = n.
Proof.
  intros H. unfold float_of_int.
  destruct (N.leb_spec (N.size n) 53) as [_|L]; [reflexivity|].
  exfalso. destruct n as [|p]; [discriminate L|].
  pose proof (N.size_le (N.pos p)) as S.
  assert (2 ^ 54 <= 2 ^ N.size (N.pos p)) by (apply N.pow_le_mono_r; lia).
  change (2 ^ 54) with 18014398509481984 in *.
  change (2 ^ 53) with 9007199254740992 in *. lia.
Qed.

(** ** Shape of built trees *)

Lemma build_children_nodes (self : DirectoryTree) (P : TreeNode -> Prop)
    items :
  Forall
    (fun p => forall depth c node,
         fst (build_tree self p depth c) = Ok (Some node) ->
         Forall P (nodes node)) items ->
  forall depth c ns,
    fst (build_children self items depth c) = Ok ns ->
    Forall (fun n => Forall P (nodes n)) ns.
Proof.
  induction 1 as [|x items Hx _ IH]; intros depth c ns; simpl.
  - intros E. injection E as <-. constructor.
  - destruct (should_ignore self (path_name x)); [apply IH|].
    unfold bind. specialize (Hx (depth + 1)%Z c).
    destruct (build_tree self x (depth + 1) c) as [[r|] c1];
      [|discriminate].
    specialize (IH depth c1).
    destruct (build_children self items depth c1) as [[its|] c2];
      [|discriminate].
    simpl in *. intros E. injection E as <-.
    specialize (IH its eq_refl).
    destruct r as [n|]; [|exact IH].
    constructor; [apply Hx; reflexivity | exact IH].
Qed.

(** A property that holds of every file leaf and of every directory node
    holds of every node of a built tree. *)
Lemma build_tree_nodes (self : DirectoryTree) (P : TreeNode -> Prop) :
  (forall nm sz, P (mkTreeNode nm false sz [])) ->
  (forall nm items, P (mkTreeNode nm true 0 items)) ->
  forall p depth c node,
    fst (build_tree self p depth c) = Ok (Some node) -> Forall P (nodes node).
Proof.
  intros Hfile Hdir p.
  induction p as [nm st|nm r es IH|nm] using Path_ind; intros depth c node;
    (destruct (beyond_max_depth self depth) eqn:B;
     [rewrite build_tree_pruned by assumption; discriminate|]).
  - rewrite build_tree_File by assumption.
    destruct (only_dirs self); simpl; [discriminate|].
    destruct st; simpl; intros E; injection E as <-;
      repeat constructor; apply Hfile.
  - destruct r.
    + rewrite build_tree_Dir_readable by assumption.
      assert (IH' : Forall
        (fun p => forall depth c node,
           fst (build_tree self p depth c) = Ok (Some node) ->
           Forall P (nodes node)) (sorted path_name es)).
      { eapply Permutation_Forall; [apply sorted_perm | exact IH]. }
      pose proof (build_children_nodes self P _ IH' depth (count_dir c)) as W.
      destruct (build_children _ _ _ _) as [[its|] c2]; simpl in *;
        intros E; injection E as <-.
      * unfold nodes. simpl. constructor; [apply Hdir|].
        apply Forall_flat_map. apply W. reflexivity.
      * repeat constructor. apply Hdir.
    + rewrite build_tree_Dir_unreadable by assumption. simpl.
      intros E; injection E as <-. repeat constructor. apply Hdir.
  - rewrite build_tree_Unstatable by assumption. discriminate.
Qed.

Lemma build_tree_leaf_files (self : DirectoryTree) p depth c node :
  fst (build_tree self p depth c) = Ok (Some node) ->
  Forall leaf_if_file (nodes node).
Proof.
  apply build_tree_nodes; intros; unfold leaf_if_file; simpl;
    [reflexivity | discriminate].
Qed.

(** ** The renderer against the specification's wording *)

Lemma ancestry_prefix_snoc (anc : list bool) (b : bool) :
  ancestry_prefix (anc ++ [b])
  = ancestry_prefix anc ++ (if b then lit "    " else lit "│   ").
Proof.
  unfold ancestry_prefix. rewrite map_app, concat_app. simpl.
  rewrite app_nil_r. reflexivity.
Qed.

Lemma spec_tree_lines_eq with_size anc is_last nm d sz cs :
  spec_tree_lines with_size anc is_last (mkTreeNode nm d sz cs)
  = spec_line with_size anc is_last (mkTreeNode nm d sz cs)
    :: spec_siblings_lines with_size (anc ++ [is_last]) cs.
Proof.
  cbn [spec_tree_lines]. f_equal.
  induction cs as [|c cs IH]; [reflexivity|].
  cbn [spec_siblings_lines]. rewrite <- IH. reflexivity.
Qed.

Lemma children_lines_spec (self : MarkdownGenerator) anc l :
  Forall (renders_as_specified self) l ->
  Forall (fun c => Forall leaf_if_file (nodes c)) l ->
  Forall (fun c => Forall (fun n => name n <> root_path_name self) (nodes c))
    l ->
  forall n i,
    (i + List.length l = n)%nat ->
    children_lines self n (ancestry_prefix anc) i l
    = spec_siblings_lines (include_size (tree_generator self)) anc l.
Proof.
  induction 1 as [|x l Hx _ IH]; intros HL HN n i Hn; [reflexivity|].
  inversion HL as [|? ? HLx HLl]; subst.
  inversion HN as [|? ? HNx HNl]; subst.
  cbn [children_lines spec_siblings_lines].
  rewrite (Hx HLx HNx).
  rewrite (IH HLl HNl _ (S i)) by (simpl; lia).
  f_equal. f_equal.
  destruct l as [|y l]; simpl List.length.
  - replace (i + 1 - 1)%nat with i by lia. apply Nat.eqb_refl.
  - apply Nat.eqb_neq. lia.
Qed.

Lemma tree_to_lines_spec (self : MarkdownGenerator) (node : TreeNode) :
  renders_as_specified self node.
Proof.
  induction node as [nm d sz cs IH] using TreeNode_ind.
  intros HL HN anc is_last.
  unfold nodes in HL, HN. cbn [descendants] in HL, HN.
  inversion HL as [|? ? HLn HLc]; subst.
  inversion HN as [|? ? HNn HNc]; subst.
  apply Forall_flat_map in HLc, HNc.
  rewrite tree_to_lines_eq, spec_tree_lines_eq.
  cbn [name] in HNn. apply str_eqb_neq in HNn. rewrite HNn.
  cbn [negb app]. unfold spec_line. cbn [is_dir name size].
  rewrite <- format_size_units. f_equal.
  destruct d.
  - rewrite <- ancestry_prefix_snoc.
    apply children_lines_spec; auto.
  - pose proof (HLn eq_refl) as E. simpl in E. subst cs. reflexivity.
Qed.

(** For every built tree in which no entry below the root bears the root
    directory's name, the document is as specified: the title,
    a fenced block and the summary; the block has the unprefixed root
    line and, for every entry below the root, a line made of the ancestry
    prefix (four spaces per last-sibling ancestor, a vertical bar and
    three spaces per other ancestor), the connector ([├── ], or [└── ]
    for a last sibling), the marker glyph, the name and, for a file when
    sizes are on, the size in parentheses (two decimals, unit B to PB by
    division by 1024); the summary gives the directory count and, unless
    directories only, the file count and, if sizes are on, the total size
    in the same form. *)
Lemma rendered_document_as_specified :
  forall self c root_node c',
    generate_tree (tree_generator self) c = (Ok (Some root_node), c') ->
    Forall (fun n => name n <> root_path_name self) (descendants root_node) ->
    fst (generate_markdown self c) = Ok (spec_document self root_node c').
Proof.
  intros self c root_node c' G HN.
  unfold generate_markdown, bind. rewrite G. simpl.
  unfold spec_document, block_lines, summary_lines.
  rewrite root_children_lines_eq, format_size_units.
  assert (L : Forall leaf_if_file (nodes root_node)).
  { apply (build_tree_leaf_files (tree_generator self)
             (root_path (tree_generator self)) 0%Z (mkCounters 0 0 0)).
    unfold generate_tree, bind, reset_counters in G. rewrite G. reflexivity. }
  destruct root_node as [nm d sz cs]. cbn [children is_dir] in *.
  unfold nodes in L. cbn [descendants] in L, HN.
  inversion L as [|? ? _ Lc]; subst.
  apply Forall_flat_map in Lc, HN.
  rewrite (children_lines_spec self [] cs) with (n := List.length cs)
    by (auto; apply Forall_forall; intros; apply tree_to_lines_spec).
  do 3 f_equal. f_equal. f_equal.
  destruct (only_dirs (tree_generator self)); reflexivity.
Qed.

Example rendered_document_sample :
  document size_args sample_docs no_counts
  = Ok (lit "# 目录结构: proj\n\n```\n📁 proj/\n├── 📄 data.bin (5.00 MB)\n└── 📁 docs\n    ├── 📄 a.md (0.00 B)\n    └── 📄 b.md (1.50 KB)\n```\n\n## 统计信息\n\n- **目录数**: 2\n- **文件数**: 3\n- **总大小**: 5.00 MB\n").
Proof.
  unfold document.
  rewrite (rendered_document_as_specified
             (main_generator size_args sample_docs)
             no_counts
             (mkTreeNode (lit "proj") true 0
                [mkTreeNode (lit "data.bin") false 5242880 [];
                 mkTreeNode (lit "docs") true 0
                   [mkTreeNode (lit "a.md") false 0 [];
                    mkTreeNode (lit "b.md") false 1536 []]])
             (mkCounters 2 3 5244416)).
  - vm_compute. reflexivity.
  - vm_compute. reflexivity.
  - repeat constructor; vm_compute; discriminate.
Qed.

(** C4 at [proj/proj/x.py], a tree with an entry below the root that has
    the root's name: the specified block has the line [└── 📁 proj] and,
    under it, [x.py] behind an ancestry prefix of four spaces; the
    document written has no line for the inner [proj] and the line of
    [x.py] has no ancestry prefix, while the summary counts both
    directories. *)
Theorem C4_same_name_entry_not_rendered :
  let self := main_generator default_args sample_same_name in
  let root_node :=
    mkTreeNode (lit "proj") true 0
      [mkTreeNode (lit "proj") true 0
         [mkTreeNode (lit "x.py") false 3 []]] in
  generate_tree (tree_generator self) no_counts
  = (Ok (Some root_node), mkCounters 2 1 3)
  /\ spec_document self root_node (mkCounters 2 1 3)
     = lit "# 目录结构: proj\n\n```\n📁 proj/\n└── 📁 proj\n    └── 📄 x.py\n```\n\n## 统计信息\n\n- **目录数**: 2\n- **文件数**: 1\n"
  /\ fst (generate_markdown self no_counts)
     = Ok (lit "# 目录结构: proj\n\n```\n📁 proj/\n└── 📄 x.py\n```\n\n## 统计信息\n\n- **目录数**: 2\n- **文件数**: 1\n")
  /\ fst (generate_markdown self no_counts)
     <> Ok (spec_document self root_node (mkCounters 2 1 3)).
Proof.
  intros self root_node.
  split; [vm_compute; reflexivity|].
  split; [vm_compute; reflexivity|].
  split; [vm_compute; reflexivity|].
  vm_compute. discriminate.
Qed.

(** ** The viewer's parser *)

Lemma lstrip_spaces (n : nat) (s : str) :
  lstrip (repeat 32 n ++ s) = lstrip s.
Proof. induction n as [|n IH]; [reflexivity | exact IH]. Qed.

(** A line whose first character after the leading blanks is the vertical
    bar is matched by no alternative of the content pattern. *)
Lemma content_pattern_rejects_bar (rest : str) :
  re_match CONTENT_PATTERN (9474 :: rest) = None.
Proof. reflexivity. Qed.

Lemma parse_line_skips_bar st (n : nat) (rest : str) :
  parse_line st (repeat 32 n ++ lit "│" ++ rest) = st.
Proof.
  unfold parse_line. destruct st as [h stack].
  destruct (strip _); [reflexivity|].
  rewrite lstrip_spaces.
  change (lstrip (lit "│" ++ rest)) with (9474 :: rest).
  rewrite content_pattern_rejects_bar. reflexivity.
Qed.

(** C1 at [proj/] with [src/main.py] and [tests/]: the block has the line
    [│   └── 📄 main.py]; [lstrip] removes blanks only, so the line still
    starts with the bar, the content pattern does not match it and the
    line is skipped: the viewer's tree has [src] without [main.py].
    Every line that starts, after blanks, with the bar is skipped in
    the same way.  (For [proj/] with [README.md] and [src/core/x.py],
    and for [proj/] with [data.bin] and [docs/] with sizes on, where
    only last siblings have children, the tree is read back in full,
    the sizes as the texts [5.00 MB], [0.00 B] and [1.50 KB].) *)
Theorem C1_viewer_drops_entries_under_non_last_directory :
  document default_args sample_src_tests no_counts
  = Ok (lit "# 目录结构: proj\n\n```\n📁 proj/\n├── 📁 src\n│   └── 📄 main.py\n└── 📁 tests\n```\n\n## 统计信息\n\n- **目录数**: 3\n- **文件数**: 1\n")
  /\ expected_tree default_args sample_src_tests
     = Some (VNode (lit "proj") true []
               [VNode (lit "src") true []
                  [VNode (lit "main.py") false [] []];
                VNode (lit "tests") true [] []])
  /\ viewer_tree default_args sample_src_tests
     = Some (VNode (lit "proj") true []
               [VNode (lit "src") true [] [];
                VNode (lit "tests") true [] []])
  /\ viewer_tree default_args sample_src_tests
     <> expected_tree default_args sample_src_tests
  /\ (forall st n rest,
         parse_line st (repeat 32 n ++ lit "│" ++ rest) = st)
  /\ viewer_tree default_args sample_nested
     = expected_tree default_args sample_nested
  /\ viewer_tree size_args sample_docs
     = Some (VNode (lit "proj") true []
               [VNode (lit "data.bin") false (lit "5.00 MB") [];
                VNode (lit "docs") true []
                  [VNode (lit "a.md") false (lit "0.00 B") [];
                   VNode (lit "b.md") false (lit "1.50 KB") []]])
  /\ expected_tree size_args sample_docs = viewer_tree size_args sample_docs.
Proof.
  split; [vm_compute; reflexivity|].
  split; [vm_compute; reflexivity|].
  split; [vm_compute; reflexivity|].
  split; [vm_compute; discriminate|].
  split; [apply parse_line_skips_bar|].
  repeat split; vm_compute; reflexivity.
Qed.

(** * Further properties of the walker *)

Ltac counters_unfold :=
  repeat
    (progress
       (unfold le_counters, plus_counters, count_dir, count_file,
          count_size, census_of, census, census_node, nodes in *;
        cbn [dir_count file_count total_size tally fold_right flat_map
             descendants is_dir size app] in *)).

Ltac counters :=
  counters_unfold;
  repeat match goal with
         | c : Counters |- _ => destruct c
         | H : _ /\ _ |- _ => destruct H
         | H : mkCounters _ _ _ = mkCounters _ _ _ |- _ =>
             injection H as ? ? ?
         end;
  counters_unfold; subst;
  first [ f_equal; lia | repeat split; lia ].

Lemma tally_app (l1 l2 : list TreeNode) :
  tally (l1 ++ l2) = plus_counters (tally l1) (tally l2).
Proof.
  induction l1 as [|n l1 IH]; simpl.
  - destruct (tally l2); reflexivity.
  - rewrite IH. generalize (census_node n), (tally l1), (tally l2).
    intros a b c. counters.
Qed.

Lemma tally_flat_map_cons (n : TreeNode) (ns : list TreeNode) :
  tally (flat_map nodes (n :: ns))
  = plus_counters (census n) (tally (flat_map nodes ns)).
Proof.
  change (flat_map nodes (n :: ns)) with (nodes n ++ flat_map nodes ns).
  apply tally_app.
Qed.

Lemma census_node_eq nm d sz cs :
  census (mkTreeNode nm d sz cs)
  = plus_counters (census_node (mkTreeNode nm d sz cs))
      (tally (flat_map nodes cs)).
Proof. reflexivity. Qed.





Lemma build_children_at_least (self : DirectoryTree) items :
  Forall (counts_at_least self) items ->
  forall depth c,
    le_counters
      (plus_counters c
         match fst (build_children self items depth c) with
         | Ok ns => tally (flat_map nodes ns)
         | OSError => mkCounters 0 0 0
         end)
      (snd (build_children self items depth c)).
Proof.
  induction 1 as [|x items Hx _ IH]; intros depth c; simpl.
  - counters.
  - destruct (should_ignore self (path_name x)); [apply IH|].
    unfold bind. specialize (Hx (depth + 1)%Z c).
    destruct (build_tree self x (depth + 1) c) as [[r|] c1];
      cbn [fst snd census_result] in Hx.
    + specialize (IH depth c1).
      destruct (build_children self items depth c1) as [[ns|] c2];
        unfold ret; cbn [fst snd] in *.
      * destruct r as [n|]; cbn [census_of] in Hx.
        -- rewrite tally_flat_map_cons.
           revert Hx IH.
           generalize (census n), (tally (flat_map nodes ns)).
           intros a b Hx IH. counters.
        -- revert Hx IH. generalize (tally (flat_map nodes ns)).
           intros b Hx IH. counters.
      * revert Hx IH. generalize (census_of r). intros a Hx IH. counters.
    + exact Hx.
Qed.

Lemma build_tree_at_least (self : DirectoryTree) (p : Path) :
  counts_at_least self p.
Proof.
  induction p as [nm st|nm r es IH|nm] using Path_ind; intros depth c;
    (destruct (beyond_max_depth self depth) eqn:B;
     [rewrite build_tree_pruned by assumption; unfold ret;
      cbn [fst snd census_result]; counters|]).
  - rewrite build_tree_File by assumption.
    destruct (only_dirs self); cbn [negb]; [cbn [fst snd census_result]; counters|].
    destruct st; cbn [fst snd census_result]; counters.
  - destruct r.
    + rewrite build_tree_Dir_readable by assumption.
      assert (F : Forall (counts_at_least self) (sorted path_name es)).
      { eapply Permutation_Forall; [apply sorted_perm | exact IH]. }
      pose proof (build_children_at_least self _ F depth (count_dir c)) as L.
      destruct (build_children _ _ _ _) as [[ns|] c2];
        cbn [fst snd census_result census_of] in *.
      * rewrite census_node_eq. revert L.
        generalize (tally (flat_map nodes ns)). intros a L.
        unfold census_node. cbn [is_dir]. counters.
      * counters.
    + rewrite build_tree_Dir_unreadable by assumption.
      cbn [fst snd census_result]. counters.
  - rewrite build_tree_Unstatable by assumption.
    cbn [fst snd census_result]. counters.
Qed.

(** X2: whatever fails during the walk, the counters never fall short of
    the tree: after [generate_tree] each of [dir_count], [file_count] and
    [total_size] is at least the number of directories, of files and of
    bytes of the tree returned.  They can be larger: in [proj/] with
    [odd/] holding [ok.txt] and an entry that cannot be examined, the tree
    has 2 files and 10 bytes while the counters say 3 files and 14
    bytes. *)
Theorem X2_counters_never_undercount :
  (forall self c,
      le_counters (census_result (fst (generate_tree self c)))
        (snd (generate_tree self c)))
  /\ (let self := main_tree_generator default_args sample_failures in
      census_result (fst (generate_tree self no_counts)) = mkCounters 3 2 10
      /\ snd (generate_tree self no_counts) = mkCounters 3 3 14).
Proof.
  split; [|split; vm_compute; reflexivity].
  intros self c. unfold generate_tree, bind, reset_counters.
  pose proof (build_tree_at_least self (root_path self) 0%Z
                (mkCounters 0 0 0)) as L.
  destruct (build_tree self (root_path self) 0 (mkCounters 0 0 0))
    as [[r|] c1]; cbn [fst snd] in *.
  - revert L. generalize (census_result (Ok r)). intros a L. counters.
  - revert L. generalize (census_result (@OSError (option TreeNode))).
    intros a L. counters.
Qed.

(** ** Depth and shape of the tree *)

Lemma height_children_le (m : Z) (cs : list TreeNode) :
  (0 <= m)%Z ->
  Forall (fun n => (1 + height n <= m)%Z) cs ->
  (fold_right (fun c acc => Z.max (1 + height c) acc) 0 cs <= m)%Z.
Proof.
  intros Hm. induction 1 as [|n cs Hn _ IH]; cbn [fold_right];
    [exact Hm | apply Z.max_lub; assumption].
Qed.

Lemma height_nonneg (t : TreeNode) : (0 <= height t)%Z.
Proof.
  destruct t as [nm d sz cs]. cbn [height].
  induction cs as [|c cs IH]; cbn [fold_right]; [lia|].
  apply Z.max_le_iff. right. exact IH.
Qed.

Lemma build_children_height (self : DirectoryTree) (d : Z) items :
  Forall
    (fun p => forall depth c node,
         fst (build_tree self p depth c) = Ok (Some node) ->
         (depth + height node <= d)%Z) items ->
  forall depth c ns,
    fst (build_children self items depth c) = Ok ns ->
    Forall (fun n => (1 + height n <= d - depth)%Z) ns.
Proof.
  induction 1 as [|x items Hx _ IH]; intros depth c ns;
    cbn [build_children].
  - unfold ret. cbn [fst]. intros E. injection E as <-. constructor.
  - destruct (should_ignore self (path_name x)); [apply IH|].
    unfold bind. specialize (Hx (depth + 1)%Z c).
    destruct (build_tree self x (depth + 1) c) as [[r|] c1];
      [|discriminate].
    specialize (IH depth c1).
    destruct (build_children self items depth c1) as [[its|] c2];
      [|discriminate].
    unfold ret. cbn [fst snd] in *. intros E. injection E as <-.
    specialize (IH its eq_refl).
    destruct r as [n|]; [|exact IH].
    constructor; [|exact IH]. specialize (Hx n eq_refl).
    cbv beta. lia.
Qed.

Lemma build_tree_height (self : DirectoryTree) (d : Z) (p : Path) :
  max_depth self = Some d ->
  forall depth c node,
    fst (build_tree self p depth c) = Ok (Some node) ->
    (depth + height node <= d)%Z.
Proof.
  intros Hd.
  induction p as [nm st|nm r es IH|nm] using Path_ind; intros depth c node;
    (destruct (beyond_max_depth self depth) eqn:B;
     [rewrite build_tree_pruned by assumption; discriminate|]);
    (assert (Hle : (depth <= d)%Z)
       by (unfold beyond_max_depth in B; rewrite Hd in B;
           apply Z.ltb_ge in B; exact B)).
  - rewrite build_tree_File by assumption.
    destruct (only_dirs self); simpl; [discriminate|].
    destruct st; simpl; intros E; injection E as <-; simpl; lia.
  - destruct r.
    + rewrite build_tree_Dir_readable by assumption.
      assert (IH' : Forall
        (fun p => forall depth c node,
           fst (build_tree self p depth c) = Ok (Some node) ->
           (depth + height node <= d)%Z) (sorted path_name es)).
      { eapply Permutation_Forall; [apply sorted_perm | exact IH]. }
      pose proof (build_children_height self d _ IH' depth (count_dir c))
        as W.
      destruct (build_children _ _ _ _) as [[its|] c2]; simpl in *;
        intros E; injection E as <-; cbn [height]; [|simpl; lia].
      pose proof (height_children_le (d - depth) its) as L.
      specialize (L ltac:(lia) (W its eq_refl)). lia.
    + rewrite build_tree_Dir_unreadable by assumption. simpl.
      intros E; injection E as <-. simpl. lia.
  - rewrite build_tree_Unstatable by assumption. discriminate.
Qed.

(** X3: with a maximum depth [d] the tree that [generate_tree] returns
    has at most [d] levels below the root: no node lies deeper than the
    limit (and the same holds, relative to the depth of the call, for
    every call of [build_tree]). *)
Theorem X3_tree_height_within_max_depth :
  forall self d,
    max_depth self = Some d ->
    (forall p depth c node c',
        build_tree self p depth c = (Ok (Some node), c') ->
        (depth + height node <= d)%Z)
    /\ (forall c root_node c',
          generate_tree self c = (Ok (Some root_node), c') ->
          (0 <= height root_node <= d)%Z).
Proof.
  intros self d Hd. split.
  - intros p depth c node c' E.
    apply (build_tree_height self d p Hd depth c). rewrite E. reflexivity.
  - intros c root_node c' G.
    unfold generate_tree, bind, reset_counters in G.
    split; [apply height_nonneg|].
    pose proof (build_tree_height self d (root_path self) Hd 0%Z
                  (mkCounters 0 0 0) root_node) as H.
    rewrite G in H. specialize (H eq_refl). lia.
Qed.

Lemma X3_tree_height_within_max_depth_witness :
  (0 <= height (mkTreeNode (lit "proj") true 0
                  [mkTreeNode (lit "README.md") false 120 [];
                   mkTreeNode (lit "src") true 0 []]) <= 1)%Z.
Proof.
  apply (proj2 (X3_tree_height_within_max_depth
                  (main_tree_generator (mkArgs false false (Some 1%Z) false)
                     sample_nested) 1%Z eq_refl)
           no_counts _ (mkCounters 2 1 120)).
  vm_compute. reflexivity.
Defined.

(** X4: in every tree that [generate_tree] returns a directory node has
    size 0 and a file node has no children. *)
Theorem X4_directories_sizeless_files_childless :
  forall self c root_node c',
    generate_tree self c = (Ok (Some root_node), c') ->
    Forall (fun n => if is_dir n then size n = 0 else children n = [])
      (nodes root_node).
Proof.
  intros self c root_node c' G.
  unfold generate_tree, bind, reset_counters in G.
  apply (build_tree_nodes self
           (fun n => if is_dir n then size n = 0 else children n = []))
    with (p := root_path self) (depth := 0%Z) (c := mkCounters 0 0 0);
    [reflexivity | reflexivity | rewrite G; reflexivity].
Qed.

Lemma X4_directories_sizeless_files_childless_witness :
  Forall (fun n => if is_dir n then size n = 0 else children n = [])
    (nodes (mkTreeNode (lit "proj") true 0
              [mkTreeNode (lit "README.md") false 120 [];
               mkTreeNode (lit "src") true 0 []])).
Proof.
  apply (X4_directories_sizeless_files_childless
           (main_tree_generator (mkArgs false false (Some 1%Z) false)
              sample_nested) no_counts _ (mkCounters 2 1 120)).
  vm_compute. reflexivity.
Defined.

(** ** Independence of the order of a listing *)

Lemma str_leb_antisym (a b : str) :
  PyStr.leb a b = true -> PyStr.leb b a = true -> a = b.
Proof.
  revert b; induction a as [|x a IH]; intros [|y b]; simpl;
    try discriminate; auto.
  destruct (N.ltb_spec x y), (N.ltb_spec y x); try discriminate; try lia.
  intros H1 H2. assert (x = y) by lia. subst. f_equal. auto.
Qed.

Section SortedMore.
Variables (A : Type) (key : A -> str).

Lemma sorted_of_sorted (l : list A) :
  StronglySorted (key_le key) l -> sorted key l = l.
Proof.
  induction 1 as [|x l Hs IH Hx]; simpl; [reflexivity|].
  rewrite IH. destruct l as [|y l]; [reflexivity|]. simpl.
  inversion Hx as [|? ? Hxy _]; subst.
  unfold key_le, name_le in Hxy. rewrite Hxy. reflexivity.
Qed.

Lemma sorted_idem (l : list A) : sorted key (sorted key l) = sorted key l.
Proof. apply sorted_of_sorted, sorted_sorted. Qed.

Lemma sorted_ext (key' : A -> str) (l : list A) :
  (forall x, key x = key' x) -> sorted key l = sorted key' l.
Proof.
  intros E. induction l as [|x l IH]; simpl; [reflexivity|].
  rewrite IH. generalize (sorted key' l) as s.
  induction s as [|y s IHs]; simpl; [reflexivity|].
  rewrite !E, IHs. reflexivity.
Qed.

(** Two lists in name order with the same elements, whose names are
    distinct, are the same list. *)
Lemma sorted_unique (l1 l2 : list A) :
  StronglySorted (key_le key) l1 -> StronglySorted (key_le key) l2 ->
  Permutation l1 l2 -> NoDup (map key l1) -> l1 = l2.
Proof.
  intros S1. revert l2.
  induction S1 as [|x l1 S1 IH Hx]; intros l2 S2 P N.
  - apply Permutation_nil in P. subst. reflexivity.
  - destruct S2 as [|y l2 S2 Hy].
    + apply Permutation_sym, Permutation_nil in P. discriminate P.
    + assert (Hxy : key x = key y).
      { apply str_leb_antisym.
        - assert (I : In y (x :: l1))
            by (eapply Permutation_in;
                [apply Permutation_sym; exact P | left; reflexivity]).
          destruct I as [<-|I]; [apply str_leb_refl|].
          rewrite Forall_forall in Hx. apply Hx, I.
        - assert (I : In x (y :: l2))
            by (eapply Permutation_in; [exact P | left; reflexivity]).
          destruct I as [<-|I]; [apply str_leb_refl|].
          rewrite Forall_forall in Hy. apply Hy, I. }
      assert (E : x = y).
      { assert (I : In y (x :: l1))
          by (eapply Permutation_in;
              [apply Permutation_sym; exact P | left; reflexivity]).
        destruct I as [I|I]; [exact I|]. exfalso.
        simpl in N. inversion N as [|? ? Hnot _]; subst.
        apply Hnot. rewrite Hxy. apply in_map, I. }
      subst y. f_equal. apply IH; [exact S2| |].
      * eapply Permutation_cons_inv; exact P.
      * simpl in N. inversion N; assumption.
Qed.

Lemma sorted_permutation (l1 l2 : list A) :
  Permutation l1 l2 -> NoDup (map key l1) ->
  sorted key l1 = sorted key l2.
Proof.
  intros P N. apply sorted_unique; try apply sorted_sorted.
  - rewrite <- (sorted_perm A key l1), <- (sorted_perm A key l2). exact P.
  - eapply Permutation_NoDup; [|exact N].
    apply Permutation_map, sorted_perm.
Qed.

End SortedMore.

Lemma sorted_map (A B : Type) (key : B -> str) (f : A -> B) (l : list A) :
  sorted key (map f l) = map f (sorted (fun x => key (f x)) l).
Proof.
  induction l as [|x l IH]; simpl; [reflexivity|].
  rewrite IH. generalize (sorted (fun x => key (f x)) l) as s.
  induction s as [|y s IHs]; simpl; [reflexivity|].
  destruct (PyStr.leb (key (f x)) (key (f y))); simpl; [reflexivity|].
  rewrite IHs. reflexivity.
Qed.

Lemma path_name_canon (p : Path) : path_name (canon p) = path_name p.
Proof. destruct p; reflexivity. Qed.

Lemma build_children_canon (self : DirectoryTree) (l : list Path) :
  Forall
    (fun p => forall depth c,
         build_tree self (canon p) depth c = build_tree self p depth c) l ->
  forall depth c,
    build_children self (map canon l) depth c
    = build_children self l depth c.
Proof.
  induction 1 as [|x l Hx _ IH]; intros depth c; [reflexivity|].
  cbn [map build_children]. rewrite path_name_canon.
  destruct (should_ignore self (path_name x)); [apply IH|].
  unfold bind. rewrite Hx.
  destruct (build_tree self x (depth + 1) c) as [[r|] c1]; [|reflexivity].
  rewrite IH. reflexivity.
Qed.

Lemma build_tree_canon (self : DirectoryTree) (p : Path) :
  forall depth c,
    build_tree self (canon p) depth c = build_tree self p depth c.
Proof.
  induction p as [nm st|nm r es IH|nm] using Path_ind; intros depth c;
    try reflexivity.
  destruct (beyond_max_depth self depth) eqn:B.
  - rewrite !build_tree_pruned by assumption. reflexivity.
  - cbn [canon]. destruct r.
    + rewrite !build_tree_Dir_readable by assumption.
      rewrite sorted_idem, sorted_map.
      rewrite (sorted_ext Path (fun x => path_name (canon x)) path_name)
        by apply path_name_canon.
      rewrite build_children_canon; [reflexivity|].
      eapply Permutation_Forall; [apply sorted_perm | exact IH].
    + rewrite !build_tree_Dir_unreadable by assumption. reflexivity.
Qed.

(** X5: the result does not depend on the order in which the operating
    system lists a directory.  Two listings of a directory that are
    permutations of one another, with distinct names, give the same tree
    and the same counters; and putting the listings of all directories,
    at every depth, in name order beforehand changes nothing. *)
Theorem X5_listing_order_is_irrelevant :
  forall self,
    (forall nm readable entries entries' depth c,
        Permutation entries entries' ->
        NoDup (map path_name entries) ->
        build_tree self (Dir nm readable entries) depth c
        = build_tree self (Dir nm readable entries') depth c)
    /\ (forall p depth c,
          build_tree self (canon p) depth c = build_tree self p depth c).
Proof.
  intros self. split; [|apply build_tree_canon].
  intros nm readable entries entries' depth c P N.
  destruct (beyond_max_depth self depth) eqn:B.
  - rewrite !build_tree_pruned by assumption. reflexivity.
  - destruct readable.
    + rewrite !build_tree_Dir_readable by assumption.
      rewrite (sorted_permutation Path path_name entries entries' P N).
      reflexivity.
    + rewrite !build_tree_Dir_unreadable by assumption. reflexivity.
Qed.

Lemma X5_listing_order_is_irrelevant_witness :
  build_tree (main_tree_generator size_args sample_docs)
    (sample_proj [sample_a_txt; sample_b]) 0%Z no_counts
  = build_tree (main_tree_generator size_args sample_docs)
      (sample_proj [sample_b; sample_a_txt]) 0%Z no_counts.
Proof.
  apply (proj1 (X5_listing_order_is_irrelevant
                  (main_tree_generator size_args sample_docs))).
  - apply perm_swap.
  - repeat constructor; simpl; intuition discriminate.
Defined.

(** ** Directories-only mode against the full walk *)

Lemma dirs_only_eq nm d sz cs :
  dirs_only (mkTreeNode nm d sz cs) = mkTreeNode nm d sz (dirs_only_list cs).
Proof.
  reflexivity.
Qed.

Lemma build_children_projection (self : DirectoryTree) items :
  Forall (only_dirs_projection self) items ->
  forall depth c c0,
    fst (build_children (with_only_dirs true self) items depth c0)
    = match fst (build_children (with_only_dirs false self) items depth c)
      with
      | Ok ns => Ok (dirs_only_list ns)
      | OSError => OSError
      end
    /\ dir_count (snd (build_children (with_only_dirs true self) items
                         depth c0))
       + dir_count c
       = dir_count (snd (build_children (with_only_dirs false self) items
                           depth c))
         + dir_count c0.
Proof.
  induction 1 as [|x items Hx _ IH]; intros depth c c0;
    cbn [build_children].
  - unfold ret. cbn [fst snd]. split; [reflexivity | lia].
  - change (should_ignore (with_only_dirs true self) (path_name x))
      with (should_ignore (with_only_dirs false self) (path_name x)).
    destruct (should_ignore (with_only_dirs false self) (path_name x));
      [apply IH|].
    unfold bind. destruct (Hx (depth + 1)%Z c c0) as [Hr Hc].
    destruct (build_tree (with_only_dirs false self) x (depth + 1) c)
      as [[rf|] cf1];
      destruct (build_tree (with_only_dirs true self) x (depth + 1) c0)
      as [[ro|] co1]; cbn [fst snd dirs_only_result] in Hr, Hc;
      try discriminate Hr;
      try (destruct rf as [t|]; [destruct (is_dir t)|]; discriminate Hr);
      [|cbn [fst snd]; split; [reflexivity | exact Hc]].
    destruct (IH depth cf1 co1) as [Ir Ic].
    destruct (build_children (with_only_dirs false self) items depth cf1)
      as [[nsf|] cf2];
      destruct (build_children (with_only_dirs true self) items depth co1)
      as [[nso|] co2]; cbn [fst snd] in Ir, Ic; try discriminate Ir;
      unfold ret; cbn [fst snd]; (split; [|lia]); [|reflexivity].
    injection Ir as ->.
    destruct rf as [t|]; cbn [dirs_only_list].
    + destruct (is_dir t); injection Hr as ->; reflexivity.
    + injection Hr as ->. reflexivity.
Qed.

Lemma build_tree_projection (self : DirectoryTree) (p : Path) :
  only_dirs_projection self p.
Proof.
  induction p as [nm st|nm r es IH|nm] using Path_ind; intros depth c c0;
    change (beyond_max_depth (with_only_dirs true self) depth)
      with (beyond_max_depth (with_only_dirs false self) depth);
    (destruct (beyond_max_depth (with_only_dirs false self) depth) eqn:B;
     [assert (B' : beyond_max_depth (with_only_dirs true self) depth = true)
        by exact B;
      rewrite !build_tree_pruned by assumption; unfold ret;
      cbn [fst snd dirs_only_result]; split; [reflexivity | lia]|]);
    assert (B' : beyond_max_depth (with_only_dirs true self) depth = false)
      by exact B.
  - rewrite !build_tree_File by assumption.
    cbn [with_only_dirs only_dirs negb].
    destruct st; cbn [fst snd dirs_only_result is_dir count_size count_file
                        dir_count]; split; (reflexivity || lia).
  - destruct r.
    + rewrite !build_tree_Dir_readable by assumption.
      assert (F : Forall (only_dirs_projection self) (sorted path_name es)).
      { eapply Permutation_Forall; [apply sorted_perm | exact IH]. }
      destruct (build_children_projection self _ F depth (count_dir c)
                  (count_dir c0)) as [Ir Ic].
      destruct (build_children (with_only_dirs false self) _ depth
                  (count_dir c)) as [[nsf|] cf2];
        destruct (build_children (with_only_dirs true self) _ depth
                    (count_dir c0)) as [[nso|] co2];
        cbn [fst snd] in Ir, Ic; try discriminate Ir;
        cbn [fst snd dirs_only_result is_dir]; rewrite dirs_only_eq;
        unfold count_dir in Ic; cbn [dir_count] in Ic;
        (split; [|lia]).
      * injection Ir as ->. reflexivity.
      * reflexivity.
    + rewrite !build_tree_Dir_unreadable by assumption.
      cbn [fst snd dirs_only_result is_dir]. rewrite dirs_only_eq.
      unfold count_dir. cbn [dir_count dirs_only_list].
      split; [reflexivity | lia].
  - rewrite !build_tree_Unstatable by assumption.
    cbn [fst snd dirs_only_result]. split; [reflexivity | lia].
Qed.

(** X6: directories-only mode shows the full tree without its files.
    For generators that differ in the [only_dirs] flag alone,
    [generate_tree] with the flag returns the tree that [generate_tree]
    without the flag returns, with every file node removed, and leaves
    the same [dir_count]. *)
Theorem X6_only_dirs_is_the_full_tree_without_files :
  forall self c c0,
    fst (generate_tree (with_only_dirs true self) c0)
    = dirs_only_result (fst (generate_tree (with_only_dirs false self) c))
    /\ dir_count (snd (generate_tree (with_only_dirs true self) c0))
       = dir_count (snd (generate_tree (with_only_dirs false self) c)).
Proof.
  intros self c c0. unfold generate_tree, bind, reset_counters.
  cbn [with_only_dirs root_path].
  destruct (build_tree_projection self (root_path self) 0%Z
              (mkCounters 0 0 0) (mkCounters 0 0 0)) as [Hr Hc].
  cbn [dir_count] in Hc. split; [exact Hr | lia].
Qed.

(** * Further properties of the renderer *)








(** * Further properties of [format_size] *)

Lemma round_half_even_nearest (n d : N) :
  d <> 0 ->
  2 * (round_half_even n d * d) <= 2 * n + d
  /\ 2 * n <= 2 * (round_half_even n d * d) + d.
Proof.
  intros Hd. unfold round_half_even.
  pose proof (N.div_mod' n d) as E.
  pose proof (N.mod_lt n d Hd) as L.
  set (q := n / d) in *. set (r := n mod d) in *.
  assert (Eq : (q + 1) * d = d * q + d) by lia.
  assert (Eq' : q * d = d * q) by lia.
  destruct ((d <? 2 * r) || ((2 * r =? d) && N.odd q)) eqn:C.
  - rewrite Eq. apply orb_true_iff in C. destruct C as [C|C].
    + apply N.ltb_lt in C. lia.
    + apply andb_true_iff in C. destruct C as [C _].
      apply N.eqb_eq in C. lia.
  - rewrite Eq'. apply orb_false_iff in C. destruct C as [C _].
    apply N.ltb_ge in C. lia.
Qed.

Lemma two_decimals_whole (n : N) :
  two_decimals (100 * n) = str_of_int n ++ lit ".00".
Proof.
  unfold two_decimals.
  replace (100 * n / 100) with n by (rewrite N.mul_comm, N.div_mul; lia).
  replace (100 * n mod 100) with 0
    by (rewrite N.mul_comm, N.Div0.mod_mul; reflexivity).
  replace (100 * n mod 10) with 0.
  - reflexivity.
  - replace (100 * n) with (10 * n * 10) by lia.
    rewrite N.Div0.mod_mul. reflexivity.
Qed.

(** X8: a size below 1024 bytes is shown exactly: the byte count in
    decimal, followed by [.00 B]. *)
Theorem X8_format_size_below_1024 :
  forall n, n < 1024 -> format_size n = str_of_int n ++ lit ".00 B".
Proof.
  intros n H. unfold format_size. cbn [map format_size_loop lt_1024].
  apply N.ltb_lt in H. rewrite H. apply N.ltb_lt in H.
  unfold fmt_2f, to_float.
  rewrite float_of_int_exact
    by (change (2 ^ 53) with 9007199254740992; lia).
  unfold round_half_even. change (1024 ^ 0) with 1.
  rewrite N.div_1_r, N.mod_1_r.
  change ((1 <? 2 * 0) || (2 * 0 =? 1) && N.odd (100 * n)) with false.
  cbv iota. rewrite two_decimals_whole, <- app_assoc. reflexivity.
Qed.

Lemma X8_format_size_below_1024_witness :
  format_size 1023 = lit "1023.00 B".
Proof.
  exact (X8_format_size_below_1024 1023 eq_refl).
Defined.

(** X9: for a size [n] below 2^53 bytes the text is a number with two
    decimals and a unit, B to PB; the unit is the one with
    1024^k <= n < 1024^(k+1) (PB from 1024^5 on), and the number is
    n / 1024^k rounded to the nearest hundredth: it differs from the
    exact quotient by at most half a hundredth. *)
Theorem X9_format_size_is_nearest_hundredth :
  forall n,
    n < 2 ^ 53 ->
    exists h,
      let k := unit_index n in
      format_size n = two_decimals h ++ lit " " ++ nth k UNITS []
      /\ (k <= 5)%nat
      /\ 2 * (h * 1024 ^ N.of_nat k) <= 200 * n + 1024 ^ N.of_nat k
      /\ 200 * n <= 2 * (h * 1024 ^ N.of_nat k) + 1024 ^ N.of_nat k
      /\ ((k < 5)%nat -> n < 1024 * 1024 ^ N.of_nat k)
      /\ ((0 < k)%nat -> 1024 ^ N.of_nat k <= n).
Proof.
  intros n H.
  exists (round_half_even (100 * n) (1024 ^ N.of_nat (unit_index n))).
  cbv zeta. rewrite format_size_units. unfold spec_format_size.
  rewrite (float_of_int_exact n H).
  split; [reflexivity|].
  assert (P : 1024 ^ N.of_nat (unit_index n) <> 0)
    by (apply N.pow_nonzero; discriminate).
  destruct (round_half_even_nearest (100 * n) _ P) as [R1 R2].
  split; [|split; [lia|split; [lia|]]].
  - unfold unit_index.
    repeat match goal with
           | |- context [if ?b then _ else _] => destruct b
           end; lia.
  - unfold unit_index. rewrite (float_of_int_exact n H).
    destruct (N.ltb_spec n 1024);
      [change (1024 ^ N.of_nat 0) with 1; split; intros; lia|].
    destruct (N.ltb_spec n (1024 ^ 2));
      [change (1024 ^ N.of_nat 1) with 1024;
       change (1024 ^ 2) with (1024 * 1024) in *; split; intros; lia|].
    destruct (N.ltb_spec n (1024 ^ 3));
      [change (N.of_nat 2) with 2;
       change (1024 ^ 3) with (1024 * 1024 ^ 2) in *; split; intros; lia|].
    destruct (N.ltb_spec n (1024 ^ 4));
      [change (N.of_nat 3) with 3;
       change (1024 ^ 4) with (1024 * 1024 ^ 3) in *; split; intros; lia|].
    destruct (N.ltb_spec n (1024 ^ 5));
      [change (N.of_nat 4) with 4;
       change (1024 ^ 5) with (1024 * 1024 ^ 4) in *; split; intros; lia|].
    change (N.of_nat 5) with 5. split; intros; lia.
Qed.

Lemma X9_format_size_is_nearest_hundredth_witness :
  exists h,
    format_size 2058 = two_decimals h ++ lit " " ++ lit "KB"
    /\ 2 * (h * 1024) <= 200 * 2058 + 1024
    /\ 200 * 2058 <= 2 * (h * 1024) + 1024.
Proof.
  destruct (X9_format_size_is_nearest_hundredth 2058 eq_refl)
    as (h & E & _ & L1 & L2 & _).
  exists h. split; [exact E | split; [exact L1 | exact L2]].
Defined.

(** * Properties of the viewer's parser *)

Lemma append_child_length (h : store) (p c : nat) :
  List.length (append_child h p c) = List.length h.
Proof.
  revert p. induction h as [|n h IH]; intros [|p]; simpl; auto.
Qed.

Lemma append_child_same (h : store) (p c : nat) (n : ViewerNode) :
  nth_error h p = Some n ->
  nth_error (append_child h p c) p
  = Some (mkViewerNode (v_name n) (v_is_dir n) (v_size n)
            (v_children n ++ [c]) (v_parent n)).
Proof.
  revert p. induction h as [|m h IH]; intros [|p]; simpl; try discriminate.
  - intros E. injection E as ->. reflexivity.
  - apply IH.
Qed.

Lemma append_child_other (h : store) (p c a : nat) :
  a <> p -> nth_error (append_child h p c) a = nth_error h a.
Proof.
  revert p a. induction h as [|m h IH]; intros [|p] [|a] Hne; simpl;
    try reflexivity; try contradiction.
  apply IH. intros ->. apply Hne. reflexivity.
Qed.

Lemma pop_while_suffix (stack : list (nat * Z)) (level : Z) :
  exists popped, stack = popped ++ pop_while stack level.
Proof.
  induction stack as [|top below IH]; [exists []; reflexivity|].
  cbn [pop_while]. destruct below as [|e below']; [exists []; reflexivity|].
  destruct (level <=? snd top)%Z; [|exists []; reflexivity].
  destruct IH as [popped E]. exists (top :: popped).
  cbn [app]. f_equal. exact E.
Qed.

Lemma pop_while_nonempty (stack : list (nat * Z)) (level : Z) :
  stack <> [] -> pop_while stack level <> [].
Proof.
  induction stack as [|top below IH]; [contradiction|]. intros _.
  cbn [pop_while]. destruct below as [|e below']; [discriminate|].
  destruct (level <=? snd top)%Z; [|discriminate].
  apply IH. discriminate.
Qed.

Lemma stack_ok_pop_while (h : store) stack level :
  stack_ok h stack -> stack_ok h (pop_while stack level).
Proof.
  intros [Hne Hall]. split; [apply pop_while_nonempty, Hne|].
  destruct (pop_while_suffix stack level) as [popped E].
  rewrite E in Hall. apply Forall_app in Hall. tauto.
Qed.

Lemma parse_line_cases (st : store * list (nat * Z)) (line : str) :
  parse_line st line = st
  \/ exists g,
       re_match CONTENT_PATTERN (lstrip line) = Some g
       /\ parse_line st line
          = add_node st
              match group 3 g with Some v => v | None => [] end
              match group 2 g with
              | Some m => PyStr.eqb m (lit "📁")
              | None => false
              end
              match group 4 g with Some v => v | None => [] end
              (Z.of_nat (List.length line - List.length (lstrip line)) / 4)%Z.
Proof.
  unfold parse_line, add_node. destruct st as [h stack].
  destruct (strip line); [left; reflexivity|].
  destruct (lstrip line) eqn:L; [left; reflexivity|].
  destruct (re_match CONTENT_PATTERN (c0 :: s0)) as [g|];
    [|left; reflexivity].
  right. exists g. split; reflexivity.
Qed.

Lemma add_node_invariant st nm isdir sz level :
  parser_invariant st -> parser_invariant (add_node st nm isdir sz level).
Proof.
  destruct st as [h stack]. unfold parser_invariant, add_node.
  cbn [fst snd]. intros (CL & (P0 & PS & PA) & SO & Hne).
  pose proof (stack_ok_pop_while h stack level SO) as [Sne Sall].
  destruct (pop_while stack level) as [|[p lp] rest] eqn:E;
    [contradiction Sne; reflexivity|].
  clear Sne. inversion Sall as [|? ? Hp Hrest]; subst. cbn [fst] in Hp.
  remember (List.length h) as node eqn:Hnode.
  set (h1 := append_child h p node).
  assert (L1 : List.length h1 = node)
    by (subst node; apply append_child_length).
  set (new := mkViewerNode nm isdir sz [] (Some p)).
  assert (L2 : List.length (h1 ++ [new]) = S node)
    by (rewrite length_app, L1; simpl; lia).
  (* the nodes of the new store *)
  assert (OLD : forall a n,
             nth_error (h1 ++ [new]) a = Some n ->
             (a < node)%nat ->
             exists n0, nth_error h a = Some n0
                        /\ v_parent n = v_parent n0
                        /\ v_children n
                           = if Nat.eqb a p then v_children n0 ++ [node]
                             else v_children n0).
  { intros a n Ha La. rewrite nth_error_app1 in Ha by lia.
    destruct (Nat.eqb_spec a p) as [->|Hap].
    - destruct (nth_error h p) as [n0|] eqn:E0;
        [|apply nth_error_None in E0; lia].
      unfold h1 in Ha. rewrite (append_child_same h p node n0 E0) in Ha.
      injection Ha as <-. exists n0. repeat split; reflexivity.
    - unfold h1 in Ha. rewrite append_child_other in Ha by assumption.
      exists n. repeat split; auto. }
  assert (NEW : forall n, nth_error (h1 ++ [new]) node = Some n -> n = new).
  { intros n Hn. rewrite nth_error_app2 in Hn by lia.
    rewrite L1, Nat.sub_diag in Hn. injection Hn as <-. reflexivity. }
  assert (RANGE : forall a n, nth_error (h1 ++ [new]) a = Some n ->
                              (a < node)%nat \/ a = node).
  { intros a n Ha.
    assert (a < S node)%nat
      by (rewrite <- L2; apply nth_error_Some; congruence).
    lia. }
  cbn [fst snd].
  split; [|split; [split; [|split]|split]].
  - (* children_later *)
    intros a n Ha.
    enough (G : Forall (fun k => (a < k < S node)%nat) (v_children n)).
    { eapply Forall_impl; [|exact G]. intros k Hk. cbv beta.
      rewrite L2. exact Hk. }
    destruct (RANGE a n Ha) as [La| ->].
    + destruct (OLD a n Ha La) as (n0 & E0 & _ & Ec). rewrite Ec.
      pose proof (CL a n0 E0) as F.
      assert (F' : Forall (fun k => (a < k < S node)%nat) (v_children n0)).
      { eapply Forall_impl; [|exact F]. intros k Hk. cbv beta in *. lia. }
      destruct (Nat.eqb_spec a p) as [->|_]; [|exact F'].
      apply Forall_app. split; [exact F'|].
      constructor; [lia | constructor].
    + rewrite (NEW n Ha). constructor.
  - (* the first node has no parent *)
    intros n Hn.
    assert (Z0 : (0 < node)%nat)
      by (subst node; destruct h; [contradiction Hne; reflexivity|simpl; lia]).
    destruct (OLD 0%nat n Hn Z0) as (n0 & E0 & Ep & _).
    rewrite Ep. apply P0, E0.
  - (* every other node has an earlier parent *)
    intros k n Hn. destruct (RANGE (S k) n Hn) as [La|Ea].
    + destruct (OLD (S k) n Hn La) as (n0 & E0 & Ep & _).
      rewrite Ep. apply PS, E0.
    + rewrite Ea in Hn. rewrite (NEW n Hn). exists p. split; [reflexivity|].
      lia.
  - (* children and parent agree *)
    intros a k na nk Ha Hk.
    destruct (RANGE a na Ha) as [La|Ea], (RANGE k nk Hk) as [Lk|Ek].
    + destruct (OLD a na Ha La) as (a0 & Ea0 & _ & Eca).
      destruct (OLD k nk Hk Lk) as (k0 & Ek0 & Epk & _).
      rewrite Eca, Epk, <- (PA a k a0 k0 Ea0 Ek0).
      destruct (Nat.eqb a p); [|reflexivity].
      rewrite in_app_iff. simpl. split; [intros [H|[H|[]]]; [exact H|lia]|tauto].
    + destruct (OLD a na Ha La) as (a0 & Ea0 & _ & Eca).
      subst k. rewrite (NEW nk Hk). cbn [v_parent new]. rewrite Eca.
      pose proof (CL a a0 Ea0) as F. rewrite Forall_forall in F.
      destruct (Nat.eqb_spec a p) as [->|Hap].
      * split; [reflexivity|]. intros _. apply in_app_iff. right. left.
        reflexivity.
      * split.
        -- intros I. apply F in I. lia.
        -- intros I. injection I as ->. contradiction Hap. reflexivity.
    + subst a. rewrite (NEW na Ha). cbn [v_children new].
      destruct (OLD k nk Hk Lk) as (k0 & Ek0 & Epk & _). rewrite Epk.
      split; [intros []|]. intros I. exfalso.
      destruct k as [|k'].
      * rewrite (P0 k0 Ek0) in I. discriminate I.
      * destruct (PS k' k0 Ek0) as (q & Eq & Lq). rewrite Eq in I.
        injection I as ->. lia.
    + subst a k. rewrite (NEW na Ha), (NEW nk Hk). cbn [v_children v_parent new].
      split; [intros []|]. intros I. injection I as ->. lia.
  - (* the stack *)
    assert (S1 : Forall (fun e => (fst e < List.length (h1 ++ [new]))%nat)
                   ((p, lp) :: rest)).
    { rewrite L2. eapply Forall_impl; [|exact Sall].
      intros e He. cbv beta in *. lia. }
    destruct isdir; split; try discriminate; auto.
    constructor; [cbn [fst]; rewrite L2; lia | exact S1].
  - destruct h1; discriminate.
Qed.

Lemma parse_line_invariant st line :
  parser_invariant st -> parser_invariant (parse_line st line).
Proof.
  intros I. destruct (parse_line_cases st line) as [->|(g & _ & ->)];
    [exact I | apply add_node_invariant, I].
Qed.

Lemma fold_parse_line_invariant lines st :
  parser_invariant st -> parser_invariant (fold_left parse_line lines st).
Proof.
  revert st. induction lines as [|l lines IH]; intros st I; [exact I|].
  apply IH, parse_line_invariant, I.
Qed.

Lemma initial_invariant (root_node : ViewerNode) :
  v_children root_node = [] -> v_parent root_node = None ->
  parser_invariant ([root_node], [(0%nat, (-1)%Z)]).
Proof.
  intros Hc Hp. unfold parser_invariant. cbn [fst snd].
  split; [|split; [split; [|split]|split]].
  - intros [|[|a]] n E; simpl in E; try discriminate.
    injection E as <-. rewrite Hc. constructor.
  - intros n E. injection E as <-. exact Hp.
  - intros [|k] n E; discriminate E.
  - intros [|[|a]] [|[|k]] na nk Ea Ek; simpl in Ea, Ek; try discriminate.
    injection Ea as <-. injection Ek as <-. rewrite Hc, Hp.
    split; [intros []|discriminate].
  - split; [discriminate|]. repeat constructor.
  - discriminate.
Qed.

Lemma reify_children (fuel : nat) (h : store) (ks : list nat) :
  Forall (fun k => exists t, reify fuel h k = Some t) ks ->
  exists ts,
    fold_right
      (fun k acc =>
         match reify fuel h k, acc with
         | Some t, Some ts => Some (t :: ts)
         | _, _ => None
         end)
      (Some []) ks = Some ts.
Proof.
  induction 1 as [|k ks [t Ht] _ [ts IH]]; simpl; [eauto|].
  rewrite Ht, IH. eauto.
Qed.

(** With fuel for the addresses that remain, the tree below an address is
    read off the store. *)
Lemma reify_total (h : store) :
  children_later h ->
  forall fuel a,
    (a < List.length h)%nat -> (List.length h - a <= fuel)%nat ->
    exists t, reify fuel h a = Some t.
Proof.
  intros CL fuel. induction fuel as [|fuel IH]; intros a La Lf; [lia|].
  cbn [reify].
  destruct (nth_error h a) as [n|] eqn:E;
    [|apply nth_error_None in E; lia].
  destruct (reify_children fuel h (v_children n)) as [ts Hts].
  - eapply Forall_impl; [|exact (CL a n E)].
    intros k Hk. cbv beta in Hk. apply IH; lia.
  - rewrite Hts. eauto.
Qed.

Lemma parse_tree_lines_store lines root h :
  parse_tree_lines lines = Some (root, h) ->
  root = 0%nat /\ children_later h /\ parents_agree h /\ h <> [].
Proof.
  unfold parse_tree_lines. destruct lines as [|line0 rest]; [discriminate|].
  destruct (re_match ROOT_PATTERN (strip line0)) as [g|]; [|discriminate].
  set (root_node :=
         mkViewerNode match group 1 g with Some v => v | None => [] end
           true [] [] None).
  pose proof (fold_parse_line_invariant rest _
                (initial_invariant root_node eq_refl eq_refl)) as I.
  destruct (fold_left parse_line rest ([root_node], [(0%nat, (-1)%Z)]))
    as [h' stack'].
  intros E. injection E as <- <-.
  destruct I as (CL & PA & _ & Hne). cbn [fst] in *. auto.
Qed.

Lemma split_go_nonempty (sep : char) (s cur : str) :
  split_go sep s cur <> [].
Proof.
  revert cur. induction s as [|c s IH]; intros cur; simpl; [discriminate|].
  destruct (N.eqb c sep); [discriminate | apply IH].
Qed.

(** X10: the objects that [parse_tree_lines] creates form a tree.  The
    root is the first node made and has no parent; every other node has a
    parent that was created before it; a node is among the [children] of
    another exactly when its [parent] field names that one; and all the
    children listed exist. *)
Theorem X10_parsed_nodes_form_a_tree :
  forall lines root h,
    parse_tree_lines lines = Some (root, h) ->
    root = 0%nat
    /\ (forall n, nth_error h 0 = Some n -> v_parent n = None)
    /\ (forall k n, nth_error h (S k) = Some n ->
                    exists p, v_parent n = Some p /\ (p < S k)%nat)
    /\ (forall a k na nk,
           nth_error h a = Some na -> nth_error h k = Some nk ->
           (In k (v_children na) <-> v_parent nk = Some a))
    /\ (forall a n,
           nth_error h a = Some n ->
           Forall (fun k => (a < k < List.length h)%nat) (v_children n)).
Proof.
  intros lines root h E.
  destruct (parse_tree_lines_store lines root h E)
    as (R & CL & (P0 & PS & PA) & _).
  repeat split; try assumption; apply PA; assumption.
Qed.

Lemma X10_parsed_nodes_form_a_tree_witness :
  In 2%nat [1%nat; 2%nat] <-> Some 0%nat = Some 0%nat.
Proof.
  destruct (X10_parsed_nodes_form_a_tree
              (map lit [ "📁 proj/"; "├── 📁 src";
                         "│   └── 📄 main.py"; "└── 📁 tests" ]%string)
              0%nat
              [ mkViewerNode (lit "proj") true [] [1%nat; 2%nat] None;
                mkViewerNode (lit "src") true [] [] (Some 0%nat);
                mkViewerNode (lit "tests") true [] [] (Some 0%nat) ]
              ltac:(vm_compute; reflexivity))
    as (_ & _ & _ & PA & _).
  exact (PA 0%nat 2%nat _ _ eq_refl eq_refl).
Defined.

(** X11: [load_directory_tree] yields a tree whenever the document has a
    fenced block whose first line matches the root pattern, whatever the
    other lines are (lines that do not match are skipped), and yields
    nothing otherwise. *)
Theorem X11_viewer_loads_whenever_root_line_matches :
  forall content,
    load_directory_tree content <> None
    <-> exists lines,
          fenced_lines content = Some lines
          /\ re_match ROOT_PATTERN (strip (hd [] lines)) <> None.
Proof.
  intros content. unfold load_directory_tree, fenced_lines.
  destruct (re_search FENCE_PATTERN content) as [g|];
    [|split; [intros H; contradiction H; reflexivity
             | intros (lines & E & _); discriminate E]].
  set (lines := split 10 (strip match group 1 g with
                                | Some v => v
                                | None => []
                                end)).
  destruct (parse_tree_lines lines) as [[root h]|] eqn:P.
  - destruct (parse_tree_lines_store lines root h P) as (-> & CL & _ & Hne).
    destruct (reify_total h CL (S (List.length h)) 0%nat) as [t Ht];
      [destruct h; [contradiction Hne; reflexivity | simpl; lia] | lia |].
    rewrite Ht. split; [|discriminate].
    intros _. exists lines. split; [reflexivity|].
    unfold parse_tree_lines in P. destruct lines as [|l0 rest];
      [discriminate P|]. cbn [hd].
    destruct (re_match ROOT_PATTERN (strip l0)); [discriminate|discriminate P].
  - split; [intros H; contradiction H; reflexivity|].
    intros (lines' & E & Hroot). injection E as <-. exfalso.
    unfold parse_tree_lines in P. destruct lines as [|l0 rest] eqn:EL.
    + unfold lines, split in EL. exact (split_go_nonempty _ _ _ EL).
    + cbn [hd] in Hroot.
      destruct (re_match ROOT_PATTERN (strip l0)); [|contradiction Hroot; reflexivity].
      destruct (fold_left parse_line rest _); discriminate P.
Qed.

(** ** Soundness of the matcher *)

Lemma orelse_Some (A : Type) (a b : option A) (x : A) :
  orelse a b = Some x -> a = Some x \/ b = Some x.
Proof. destruct a; simpl; auto. Qed.

Lemma rep_greedy_sound (p : char -> bool) (k : cont) (res : groups) :
  forall s stop g,
    rep_greedy p stop s g k = Some res ->
    exists cs s',
      s = cs ++ s' /\ forallb p cs = true /\ (stop = false -> cs <> [])
      /\ k s' g = Some res.
Proof.
  induction s as [|c s IH]; intros stop g H; cbn [rep_greedy] in H.
  - destruct stop; [|discriminate]. exists [], []. repeat split; auto.
    discriminate.
  - destruct (p c) eqn:Pc.
    + apply orelse_Some in H. destruct H as [H|H].
      * destruct (IH true g H) as (cs & s' & -> & Hall & _ & Hk).
        exists (c :: cs), s'. repeat split; auto.
        -- simpl. rewrite Pc. exact Hall.
        -- discriminate.
      * destruct stop; [|discriminate]. exists [], (c :: s).
        repeat split; auto. discriminate.
    + destruct stop; [|discriminate]. exists [], (c :: s).
      repeat split; auto. discriminate.
Qed.

Lemma rep_lazy_sound (p : char -> bool) (k : cont) (res : groups) :
  forall s stop g,
    rep_lazy p stop s g k = Some res ->
    exists cs s',
      s = cs ++ s' /\ forallb p cs = true /\ (stop = false -> cs <> [])
      /\ k s' g = Some res.
Proof.
  assert (Stop : forall s (stop : bool) g,
             (if stop then k s g else None) = Some res ->
             exists cs s',
               s = cs ++ s' /\ forallb p cs = true
               /\ (stop = false -> cs <> []) /\ k s' g = Some res).
  { intros s [|] g H; [|discriminate]. exists (@nil char), s.
    split; [reflexivity|]. split; [reflexivity|].
    split; [discriminate | exact H]. }
  induction s as [|c s IH]; intros stop g H; cbn [rep_lazy] in H;
    apply orelse_Some in H; destruct H as [H|H]; try discriminate;
    try (apply Stop; exact H).
  destruct (p c) eqn:Pc; [|discriminate].
  destruct (IH true g H) as (cs & s' & -> & Hall & _ & Hk).
  exists (c :: cs), s'. repeat split; auto.
  - simpl. rewrite Pc. exact Hall.
  - discriminate.
Qed.

Lemma run_sound (r : regex) :
  forall s g k res,
    run r s g k = Some res ->
    exists s' g', matches r s g s' g' /\ k s' g' = Some res.
Proof.
  induction r as [|c|p|greedy one p|r1 IH1 r2 IH2|r IH|i r IH|];
    intros s g k res H; cbn [run] in H.
  - exists s, g. split; [constructor | exact H].
  - destruct s as [|x s]; [discriminate|].
    destruct (N.eqb_spec x c) as [->|]; [|discriminate].
    exists s, g. split; [constructor | exact H].
  - destruct s as [|x s]; [discriminate|].
    destruct (p x) eqn:Px; [|discriminate].
    exists s, g. split; [constructor; exact Px | exact H].
  - assert (E : exists cs s',
               s = cs ++ s' /\ forallb p cs = true
               /\ (negb one = false -> cs <> []) /\ k s' g = Some res).
    { destruct greedy;
        [apply rep_greedy_sound | apply rep_lazy_sound]; exact H. }
    destruct E as (cs & s' & -> & Hall & Hne & Hk).
    exists s', g. split; [|exact Hk].
    constructor; [exact Hall|]. intros ->. apply Hne. reflexivity.
  - destruct (IH1 _ _ _ _ H) as (s1 & g1 & M1 & H1).
    destruct (IH2 _ _ _ _ H1) as (s2 & g2 & M2 & H2).
    exists s2, g2. split; [econstructor; eassumption | exact H2].
  - apply orelse_Some in H. destruct H as [H|H].
    + destruct (IH _ _ _ _ H) as (s' & g' & M & Hk).
      exists s', g'. split; [apply matches_Opt_taken, M | exact Hk].
    + exists s, g. split; [apply matches_Opt_skipped | exact H].
  - destruct (IH _ _ _ _ H) as (s' & g' & M & Hk).
    eexists s', _. split; [apply matches_Group, M | exact Hk].
  - destruct s as [|c [|d s]]; try discriminate.
    + exists [], g. split; [constructor | exact H].
    + destruct (N.eqb_spec c 10) as [->|]; [|discriminate].
      exists [10], g. split; [constructor | exact H].
Qed.

(** What is matched is a prefix of the text. *)
Lemma matches_prefix r s g s' g' :
  matches r s g s' g' -> exists cs, s = cs ++ s'.
Proof.
  induction 1;
    try (exists []; reflexivity);
    try (eexists [_]; reflexivity);
    try (eexists; reflexivity); try assumption.
  destruct IHmatches1 as [cs1 ->], IHmatches2 as [cs2 ->].
  exists (cs1 ++ cs2). rewrite app_assoc. reflexivity.
Qed.

(** ** The groups of the viewer's patterns *)

Lemma firstn_matched (cs s' : str) :
  firstn (List.length (cs ++ s') - List.length s') (cs ++ s') = cs.
Proof.
  rewrite length_app, Nat.add_sub. rewrite firstn_app, Nat.sub_diag.
  rewrite firstn_all. simpl. apply app_nil_r.
Qed.

Lemma forallb_dot_no_newline (cs : str) :
  forallb dot cs = true -> ~ In 10 cs.
Proof.
  intros H I. rewrite forallb_forall in H. apply H in I. discriminate I.
Qed.

Lemma forallb_none_of_paren (cs : str) :
  forallb (none_of ")") cs = true -> ~ In 41 cs.
Proof.
  intros H I. rewrite forallb_forall in H. apply H in I. discriminate I.
Qed.

Ltac invert_matches :=
  repeat match goal with
    | H : matches (Seq _ _) _ _ _ _ |- _ => inversion H; subst; clear H
    | H : matches (Group _ _) _ _ _ _ |- _ => inversion H; subst; clear H
    | H : matches (Rep _ _ _) _ _ _ _ |- _ => inversion H; subst; clear H
    | H : matches (Class _) _ _ _ _ |- _ => inversion H; subst; clear H
    | H : matches (Chr _) _ _ _ _ |- _ => inversion H; subst; clear H
    | H : matches Eol _ _ _ _ |- _ => inversion H; subst; clear H
    | H : matches (Opt _) _ _ _ _ |- _ => inversion H; subst; clear H
    end.

(** A line that matches the pattern of an entry gives a name that is not
    empty and stays on the line, and a size, if any, without [)]. *)
Lemma content_groups (s : str) (g : groups) :
  re_match CONTENT_PATTERN s = Some g ->
  (exists nm, group 3 g = Some nm /\ nm <> [] /\ ~ In 10 nm)
  /\ (group 4 g = None
      \/ exists sz, group 4 g = Some sz /\ sz <> [] /\ ~ In 41 sz).
Proof.
  unfold re_match. intros H. apply run_sound in H.
  destruct H as (s' & g' & M & E). injection E as <-.
  unfold CONTENT_PATTERN, str_ in M.
  change (lit "──") with [9472; 9472] in M.
  change (lit "(") with [40] in M. change (lit ")") with [41] in M.
  cbn [seq map] in M.
  invert_matches;
    repeat match goal with
      | |- context [firstn (List.length (?cs ++ ?t) - List.length ?t) _] =>
          rewrite (firstn_matched cs t)
      end;
    cbn [group Nat.eqb];
    (split;
     [ eexists; split; [reflexivity|];
       split; [auto | apply forallb_dot_no_newline; assumption]
     | first [ left; reflexivity
             | right; eexists; split; [reflexivity|];
               split; [auto | apply forallb_none_of_paren; assumption] ] ]).
Qed.

Lemma root_groups (s : str) (g : groups) :
  re_match ROOT_PATTERN s = Some g ->
  exists nm, group 1 g = Some nm /\ nm <> [] /\ ~ In 10 nm.
Proof.
  unfold re_match. intros H. apply run_sound in H.
  destruct H as (s' & g' & M & E). injection E as <-.
  unfold ROOT_PATTERN, str_ in M.
  change (lit "📁") with [128193] in M. change (lit "/") with [47] in M.
  cbn [seq map] in M.
  invert_matches;
    repeat match goal with
      | |- context [firstn (List.length (?cs ++ ?t) - List.length ?t) _] =>
          rewrite (firstn_matched cs t)
      end;
    cbn [group Nat.eqb];
    (eexists; split; [reflexivity|];
     split; [auto | apply forallb_dot_no_newline; assumption]).
Qed.

(** ** Names, sizes and kinds of the parsed nodes *)

Lemma append_child_well_formed (h : store) (p c : nat) :
  Forall well_formed_node h ->
  (forall n, nth_error h p = Some n -> v_is_dir n = true) ->
  Forall well_formed_node (append_child h p c).
Proof.
  revert p. induction h as [|m h IH]; intros p F D; [destruct p; constructor|].
  inversion F as [|? ? Wm Wh]; subst.
  destruct p as [|p]; cbn [append_child]; constructor; auto.
  - destruct Wm as (W1 & W2 & W3 & _).
    repeat split; auto. cbn [v_is_dir v_children]. intros Hd.
    rewrite (D m eq_refl) in Hd. discriminate Hd.
Qed.

Lemma append_child_is_dir (h : store) (p c a : nat) (n : ViewerNode) :
  nth_error h a = Some n ->
  exists n', nth_error (append_child h p c) a = Some n'
             /\ v_is_dir n' = v_is_dir n.
Proof.
  intros Hn. destruct (Nat.eq_dec a p) as [->|Hap].
  - rewrite (append_child_same h p c n Hn). eexists. split; reflexivity.
  - rewrite append_child_other by assumption. exists n. split; auto.
Qed.

Lemma stack_of_dirs_pop_while (h : store) stack level :
  stack_of_dirs h stack -> stack_of_dirs h (pop_while stack level).
Proof.
  unfold stack_of_dirs. intros F.
  destruct (pop_while_suffix stack level) as [popped E].
  rewrite E in F. apply Forall_app in F. tauto.
Qed.

Lemma add_node_well_formed st nm isdir sz level :
  nm <> [] -> ~ In 10 nm -> ~ In 41 sz ->
  Forall well_formed_node (fst st) /\ stack_of_dirs (fst st) (snd st) ->
  Forall well_formed_node (fst (add_node st nm isdir sz level))
  /\ stack_of_dirs (fst (add_node st nm isdir sz level))
       (snd (add_node st nm isdir sz level)).
Proof.
  destruct st as [h stack]. unfold add_node. cbn [fst snd].
  intros N1 N2 N3 [W S0].
  pose proof (stack_of_dirs_pop_while h stack level S0) as S1.
  assert (Wnew : forall parent,
             well_formed_node (mkViewerNode nm isdir sz [] parent)).
  { intros parent. repeat split; auto. }
  assert (Keep : forall (h' : store) new rest,
             (forall a n, nth_error h a = Some n ->
                          exists n', nth_error h' a = Some n'
                                     /\ v_is_dir n' = v_is_dir n) ->
             stack_of_dirs h rest -> stack_of_dirs (h' ++ [new]) rest).
  { intros h' new rest K F. unfold stack_of_dirs in *.
    eapply Forall_impl; [|exact F]. cbv beta.
    intros e (n & Hn & Hd). destruct (K _ _ Hn) as (n' & Hn' & Hd').
    exists n'. split; [|congruence].
    rewrite nth_error_app1; [exact Hn'|].
    apply nth_error_Some. congruence. }
  destruct (pop_while stack level) as [|[p lp] rest] eqn:E; cbn [fst snd].
  - split.
    + apply Forall_app. split; [exact W | constructor; auto].
    + destruct isdir; [|constructor].
      constructor; [|constructor]. cbn [fst].
      exists (mkViewerNode nm true sz [] None). split; [|reflexivity].
      rewrite nth_error_app2, Nat.sub_diag by lia. reflexivity.
  - assert (Dp : forall n, nth_error h p = Some n -> v_is_dir n = true).
    { intros n Hn. inversion S1 as [|? ? (n0 & Hn0 & Hd) _]; subst.
      cbn [fst] in Hn0. congruence. }
    split.
    + apply Forall_app. split; [|constructor; auto].
      apply append_child_well_formed; assumption.
    + assert (S2 : stack_of_dirs
                     (append_child h p (List.length h)
                      ++ [mkViewerNode nm isdir sz [] (Some p)])
                     ((p, lp) :: rest)).
      { apply Keep; [|exact S1]. intros a n Hn.
        apply append_child_is_dir, Hn. }
      destruct isdir; [|exact S2].
      constructor; [|exact S2]. cbn [fst].
      exists (mkViewerNode nm true sz [] (Some p)). split; [|reflexivity].
      rewrite nth_error_app2; rewrite append_child_length; [|lia].
      rewrite Nat.sub_diag. reflexivity.
Qed.

Lemma parse_line_well_formed st line :
  Forall well_formed_node (fst st) /\ stack_of_dirs (fst st) (snd st) ->
  Forall well_formed_node (fst (parse_line st line))
  /\ stack_of_dirs (fst (parse_line st line)) (snd (parse_line st line)).
Proof.
  intros I. destruct (parse_line_cases st line) as [->|(g & Hg & ->)];
    [exact I|].
  destruct (content_groups _ _ Hg) as ((nm & -> & N1 & N2) & Hsz).
  apply add_node_well_formed; auto.
  destruct Hsz as [->|(sz & -> & _ & N3)]; [intros []|exact N3].
Qed.

Lemma fold_parse_line_well_formed lines st :
  Forall well_formed_node (fst st) /\ stack_of_dirs (fst st) (snd st) ->
  Forall well_formed_node (fst (fold_left parse_line lines st)).
Proof.
  revert st. induction lines as [|l lines IH]; intros st I; [apply I|].
  apply IH, parse_line_well_formed, I.
Qed.

Lemma parse_tree_lines_well_formed (lines : list str) (root : nat)
    (h : store) :
  parse_tree_lines lines = Some (root, h) ->
  Forall well_formed_node h.
Proof.
  unfold parse_tree_lines. destruct lines as [|line0 rest]; [discriminate|].
  destruct (re_match ROOT_PATTERN (strip line0)) as [g|] eqn:Hg;
    [|discriminate].
  destruct (root_groups _ _ Hg) as (nm & -> & N1 & N2).
  destruct (fold_left parse_line rest _) as [h' stack'] eqn:E.
  intros H. injection H as _ <-.
  change h' with (fst (h', stack')). rewrite <- E.
  apply fold_parse_line_well_formed. cbn [fst snd]. split.
  - constructor; [|constructor]. repeat split; auto.
  - constructor; [|constructor]. cbn [fst]. eexists. split; reflexivity.
Qed.

(** X12. Every node that [parse_tree_lines] creates, the root included,
    has a name that is not empty and holds no line break, and a size text
    without a closing parenthesis; and a node that is not a directory has
    no children. *)
Theorem X12_parsed_nodes_are_well_formed (lines : list str) (root : nat)
    (h : store) :
  parse_tree_lines lines = Some (root, h) ->
  Forall well_formed_node h.
Proof. apply parse_tree_lines_well_formed. Qed.

Lemma X12_parsed_nodes_are_well_formed_witness :
  Forall well_formed_node
    [ mkViewerNode (lit "proj") true [] [1%nat; 2%nat] None;
      mkViewerNode (lit "a.txt") false (lit "10.00 B") [] (Some 0%nat);
      mkViewerNode (lit "src") true [] [] (Some 0%nat) ].
Proof.
  apply (X12_parsed_nodes_are_well_formed
           (map lit [ "📁 proj/"; "├── 📄 a.txt (10.00 B)"; "└── 📁 src" ]%string)
           0%nat).
  vm_compute. reflexivity.
Defined.

(** ** The tree that is shown *)

Lemma reify_kids_named (fuel : nat) (h : store) :
  (forall a t, reify fuel h a = Some t -> named t) ->
  forall ks ts,
    fold_right
      (fun k acc =>
         match reify fuel h k, acc with
         | Some t, Some ts => Some (t :: ts)
         | _, _ => None
         end)
      (Some []) ks = Some ts ->
    fold_right (fun k acc => named k /\ acc) True ts.
Proof.
  intros IH. induction ks as [|k ks IHks]; intros ts E; cbn [fold_right] in E.
  - injection E as <-. exact I.
  - destruct (reify fuel h k) as [t|] eqn:Et; [|discriminate].
    destruct (fold_right _ _ ks) as [ts'|]; [|discriminate].
    injection E as <-. cbn [fold_right]. split; [eapply IH, Et|].
    apply IHks. reflexivity.
Qed.

Lemma reify_named (h : store) :
  Forall well_formed_node h ->
  forall fuel a t, reify fuel h a = Some t -> named t.
Proof.
  intros W. induction fuel as [|fuel IH]; intros a t E; [discriminate|].
  cbn [reify] in E. destruct (nth_error h a) as [n|] eqn:En; [|discriminate].
  destruct (fold_right _ _ (v_children n)) as [ts|] eqn:Ets; [|discriminate].
  injection E as <-. cbn [named]. split.
  - rewrite Forall_forall in W. apply nth_error_In in En.
    apply (W n En).
  - eapply reify_kids_named; [exact IH | exact Ets].
Qed.

Lemma build_treeview_named (t : ViewTree) :
  named t -> build_treeview t = [item_of t].
Proof.
  induction t as [nm d sz kids IH] using ViewTree_ind.
  cbn [named build_treeview item_of]. intros [Hnm Hkids].
  destruct nm as [|c nm]; [contradiction Hnm; reflexivity|].
  do 2 f_equal.
  induction IH as [|k kids Hk _ IHkids]; [reflexivity|].
  cbn [fold_right] in Hkids. destruct Hkids as [Nk Nkids].
  cbn [flat_map map]. rewrite (Hk Nk), (IHkids Nkids). reflexivity.
Qed.

Lemma load_directory_tree_named (content : str) (t : ViewTree) :
  load_directory_tree content = Some t -> named t.
Proof.
  unfold load_directory_tree.
  destruct (re_search FENCE_PATTERN content) as [g|]; [|discriminate].
  destruct (parse_tree_lines _) as [[root h]|] eqn:E; [|discriminate].
  apply reify_named. eapply parse_tree_lines_well_formed, E.
Qed.

(** X13. When the viewer has parsed the tree of the document, the widget
    gets one item for every parsed node below the root, in the order and
    nesting of the parsed tree, the items of the first level open: the
    test of [build_treeview] for an empty name never leaves a node
    out. *)
Theorem X13_every_parsed_node_is_shown (content : str) (t : ViewTree) :
  load_directory_tree content = Some t ->
  show_tree t = map open_item (map item_of (view_kids t)).
Proof.
  intros E. apply load_directory_tree_named in E.
  destruct t as [nm d sz kids]. cbn [show_tree view_kids]. f_equal.
  cbn [named] in E. destruct E as [_ E].
  induction kids as [|k kids IH]; [reflexivity|].
  cbn [fold_right] in E. destruct E as [Nk Nkids].
  cbn [flat_map map]. rewrite (build_treeview_named k Nk), (IH Nkids).
  reflexivity.
Qed.

Lemma X13_every_parsed_node_is_shown_witness :
  show_tree
    (VNode (lit "proj") true []
       [ VNode (lit "a.txt") false (lit "10.00 B") [];
         VNode (lit "src") true [] [ VNode (lit "main.py") false [] [] ] ])
  = [ mkItem (lit "a.txt") (lit "10.00 B") (lit "file") true [];
      mkItem (lit "src") [] (lit "directory") true
        [ mkItem (lit "main.py") [] (lit "file") false [] ] ].
Proof.
  apply (X13_every_parsed_node_is_shown
           (lit "# proj\n\n```\n📁 proj/\n├── 📄 a.txt (10.00 B)\n└── 📁 src\n    └── 📄 main.py\n```\n")).
  vm_compute. reflexivity.
Defined.

(** ** The name of the viewer script *)


Lemma startswith_self (p b : str) : startswith p (p ++ b) = true.
Proof.
  induction p as [|x p IH]; simpl; [reflexivity|].
  rewrite N.eqb_refl. exact IH.
Qed.



(** The first [.md] becomes [.py], and the rest is treated alike. *)
Lemma script_name_first (a b : str) :
  contains (lit ".md") a = false ->
  script_name (a ++ lit ".md" ++ b) = a ++ lit ".py" ++ script_name b.
Proof.
  unfold script_name. change (lit ".md") with [46; 109; 100].
  change (lit ".py") with [46; 112; 121]. cbn [replace].
  induction a as [|c a IH]; intros H; [reflexivity|].
  cbn [contains] in H. apply orb_false_iff in H. destruct H as [H1 H2].
  cbn [app] in *. cbn [replace_go].
  match goal with
  | |- (if ?t then _ else _) = _ => destruct t eqn:E
  end.
  - exfalso. clear IH H2. cbn [startswith] in *.
    destruct (N.eqb_spec 46 c) as [<-|]; [|discriminate E]. cbn [andb] in *.
    destruct a as [|x a]; [discriminate E|]. cbn [app] in E.
    destruct (N.eqb_spec 109 x) as [<-|]; [|discriminate E]. cbn [andb] in *.
    destruct a as [|y a]; [discriminate E|]. cbn [app] in E.
    destruct (N.eqb_spec 100 y) as [<-|]; [|discriminate E]. cbn [andb] in *.
    discriminate H1.
  - f_equal. apply IH, H2.
Qed.


(** X15. In a name whose first [.md] comes after [a], that [.md] becomes
    [.py] and what follows it is renamed in the same way: every [.md] of
    the name is replaced, not only a final one, and [a.md] gives
    [a.py]. *)
Theorem X15_script_name_replaces_every_md :
  forall a b : str,
    contains (lit ".md") a = false ->
    script_name (a ++ lit ".md" ++ b) = a ++ lit ".py" ++ script_name b.
Proof. exact script_name_first. Qed.

Lemma X15_script_name_replaces_every_md_witness :
  script_name (lit "notes" ++ lit ".md" ++ lit ".old.md")
  = lit "notes" ++ lit ".py" ++ script_name (lit ".old.md").
Proof.
  apply (X15_script_name_replaces_every_md (lit "notes") (lit ".old.md")).
  vm_compute. reflexivity.
Defined.

(** ** The characters of a size text *)

Lemma unescape_plain (s : str) :
  Forall (fun c => c <> 92) s -> unescape s = s.
Proof.
  induction 1 as [|c s Hc Hs IH]; [reflexivity|].
  cbn [unescape]. destruct s as [|d rest]; [reflexivity|].
  destruct (N.eqb_spec c 92) as [E|_]; [contradiction|].
  cbn [andb]. f_equal. exact IH.
Qed.

Lemma digits_of_uint (d : Decimal.uint) :
  Forall digit (utf8_go (NilEmpty.string_of_uint d) 0 0).
Proof.
  induction d; simpl; constructor; try assumption; unfold digit; lia.
Qed.

Lemma str_of_int_digits (n : N) : Forall digit (str_of_int n).
Proof.
  unfold str_of_int, lit.
  assert (D : Forall digit
                (utf8_go (NilZero.string_of_uint (N.to_uint n)) 0 0)).
  { unfold NilZero.string_of_uint.
    destruct (N.to_uint n) eqn:E;
      try (rewrite <- E; apply digits_of_uint).
    simpl. repeat constructor; unfold digit; lia. }
  rewrite unescape_plain; [exact D|].
  eapply Forall_impl; [|exact D]. unfold digit. intros c Hc. lia.
Qed.

Lemma digits_plain (s : str) : Forall digit s -> forallb plain_char s = true.
Proof.
  intros D. apply forallb_forall. rewrite Forall_forall in D.
  intros c Hc. apply D in Hc. unfold digit in Hc. unfold plain_char.
  repeat (apply andb_true_iff; split); apply negb_true_iff, N.eqb_neq; lia.
Qed.

Lemma two_decimals_plain (h : N) : forallb plain_char (two_decimals h) = true.
Proof.
  unfold two_decimals. rewrite !forallb_app.
  rewrite (digits_plain _ (str_of_int_digits (h / 100))).
  rewrite (digits_plain _ (str_of_int_digits (h mod 100 / 10))).
  rewrite (digits_plain _ (str_of_int_digits (h mod 10))). reflexivity.
Qed.

Lemma spec_format_size_plain (n : N) :
  forallb plain_char (spec_format_size n) = true.
Proof.
  unfold spec_format_size. rewrite !forallb_app, two_decimals_plain.
  unfold unit_index.
  repeat match goal with
         | |- context [if ?b then _ else _] => destruct b
         end; reflexivity.
Qed.

Lemma spec_format_size_nonempty (n : N) : spec_format_size n <> [].
Proof.
  unfold spec_format_size. intros E. apply app_eq_nil in E.
  destruct E as [_ E]. discriminate E.
Qed.

(** ** How the quantifiers take their text *)

(** A greedy repetition that can take all of [cs], and no more, takes it
    when the rest of the pattern then succeeds. *)
Lemma rep_greedy_all (p : char -> bool) (k : cont) (res : groups) :
  forall cs stop s g,
    forallb p cs = true ->
    (stop = true \/ cs <> []) ->
    match s with [] => True | c :: _ => p c = false end ->
    k s g = Some res ->
    rep_greedy p stop (cs ++ s) g k = Some res.
Proof.
  induction cs as [|c cs IH]; intros stop s g Hall Hstop Hnext Hk.
  - destruct Hstop as [->|N]; [|contradiction N; reflexivity].
    cbn [app]. destruct s as [|c s]; cbn [rep_greedy]; [exact Hk|].
    rewrite Hnext. exact Hk.
  - cbn [forallb] in Hall. apply andb_true_iff in Hall.
    destruct Hall as [Pc Hall]. cbn [app rep_greedy]. rewrite Pc.
    rewrite (IH true s g Hall (or_introl eq_refl) Hnext Hk). reflexivity.
Qed.

(** A lazy repetition stops at the first place, over characters it may
    take, where the rest of the pattern succeeds. *)
Lemma rep_lazy_first (p : char -> bool) (k : cont) (res : groups) :
  forall cs stop s g,
    forallb p cs = true ->
    (stop = true \/ cs <> []) ->
    (forall cs1 c cs2,
        cs = cs1 ++ c :: cs2 -> stop = true \/ cs1 <> [] ->
        k (c :: cs2 ++ s) g = None) ->
    k s g = Some res ->
    rep_lazy p stop (cs ++ s) g k = Some res.
Proof.
  induction cs as [|c cs IH]; intros stop s g Hall Hstop Hearly Hk.
  - destruct Hstop as [->|N]; [|contradiction N; reflexivity].
    cbn [app]. destruct s; cbn [rep_lazy]; rewrite Hk; reflexivity.
  - cbn [forallb] in Hall. apply andb_true_iff in Hall.
    destruct Hall as [Pc Hall]. cbn [app rep_lazy]. rewrite Pc.
    assert (E : (if stop then k (c :: cs ++ s) g else None) = None).
    { destruct stop; [|reflexivity].
      apply (Hearly [] c cs eq_refl). left. reflexivity. }
    rewrite E. cbn [orelse].
    apply IH; auto.
    intros cs1 c' cs2 -> _. apply (Hearly (c :: cs1) c' cs2 eq_refl).
    right. discriminate.
Qed.

(** ** The pattern of an entry on a rendered line *)

Lemma content_pattern_parts :
  CONTENT_PATTERN
  = Seq (Opt (Group 1 (seq [Class (one_of "├└"); str_ "──";
                            Rep true true isspace])))
      (Seq (Group 2 (Class (one_of "📁📄")))
         (Seq (Rep true true isspace)
            (Seq (Group 3 (Rep false true dot)) AFTER_NAME))).
Proof. reflexivity. Qed.

Lemma blank_paren_split (a b : str) (w : char) :
  blank_paren (a ++ w :: 40 :: b) = false -> isspace w = false.
Proof.
  induction a as [|x a IH]; intros H.
  - cbn [app blank_paren] in H. apply orb_false_iff in H.
    destruct H as [H _]. rewrite N.eqb_refl, andb_true_r in H. exact H.
  - cbn [app blank_paren] in H.
    destruct (a ++ w :: 40 :: b) eqn:E; [destruct a; discriminate E|].
    apply orb_false_iff in H. destruct H as [_ H]. apply IH, H.
Qed.

Lemma last_app_one (u : str) (z : char) : last (u ++ [z]) 0 = z.
Proof. apply last_last. Qed.

(** What [plain_name] says, in the form the proofs use. *)
Lemma plain_name_facts (nm : str) :
  plain_name nm = true ->
  (exists c t, nm = c :: t /\ isspace c = false)
  /\ (exists u z, nm = u ++ [z] /\ isspace z = false)
  /\ blank_paren nm = false
  /\ forallb name_char nm = true.
Proof.
  unfold plain_name. destruct nm as [|c t]; [discriminate|].
  intros H.
  apply andb_true_iff in H. destruct H as [H H4].
  apply andb_true_iff in H. destruct H as [H H3].
  apply andb_true_iff in H. destruct H as [H1 H2].
  apply negb_true_iff in H1, H2, H3.
  repeat split; try assumption.
  - exists c, t. split; [reflexivity | exact H1].
  - destruct (exists_last (l := c :: t)) as (u & z & E); [discriminate|].
    exists u, z. split; [exact E|]. rewrite E in H2.
    rewrite last_last in H2. exact H2.
Qed.

Lemma size_pattern_shape (s : str) (g : groups) (s' : str) (g' : groups) :
  matches SIZE_PATTERN s g s' g' ->
  exists ws F,
    s = ws ++ 40 :: F ++ 41 :: s'
    /\ forallb isspace ws = true /\ ws <> []
    /\ forallb (none_of ")") F = true /\ F <> []
    /\ g' = (4%nat, F) :: g.
Proof.
  unfold SIZE_PATTERN, str_. change (lit "(") with [40].
  change (lit ")") with [41]. cbn [seq map]. intros M.
  invert_matches.
  match goal with
  | |- context [firstn _ (?cs ++ ?t)] => rewrite (firstn_matched cs t)
  end.
  eexists _, _. repeat split; auto.
Qed.

Lemma run_Seq r1 r2 s g k :
  run (Seq r1 r2) s g k = run r1 s g (fun s' g' => run r2 s' g' k).
Proof. reflexivity. Qed.

Lemma run_Opt r s g k : run (Opt r) s g k = orelse (run r s g k) (k s g).
Proof. reflexivity. Qed.

Lemma run_Group i r s g k :
  run (Group i r) s g k
  = run r s g
      (fun s' g' => k s' ((i, firstn (List.length s - List.length s') s) :: g')).
Proof. reflexivity. Qed.

Lemma run_Eol_inside (c : char) (t : str) (g : groups) (k : cont) :
  c <> 10 -> run Eol (c :: t) g k = None.
Proof.
  intros Hc. cbn [run]. destruct t; [|reflexivity].
  destruct (N.eqb_spec c 10); [contradiction | reflexivity].
Qed.

Lemma last_suffix (l1 l2 : str) :
  l2 <> [] -> last (l1 ++ l2) 0 = last l2 0.
Proof.
  intros H. induction l1 as [|x l1 IH]; [reflexivity|].
  cbn [app]. rewrite <- IH. cbn [last].
  destruct (l1 ++ l2) eqn:E; [|reflexivity].
  apply app_eq_nil in E. destruct E as [_ E]. contradiction.
Qed.

Lemma last_In (l : str) : l <> [] -> In (last l 0) l.
Proof.
  intros H. destruct (exists_last H) as (u & z & ->).
  rewrite last_last. apply in_elt.
Qed.

(** Inside a plain name, what follows the name in the pattern does not
    match: the rest of the line is not a size in parentheses, and the
    line does not end there. *)
Lemma after_name_fails (nm cs1 cs2 : str) (c : char) (rest : str)
    (g : groups) (k : cont) :
  plain_name nm = true ->
  nm = cs1 ++ c :: cs2 ->
  run AFTER_NAME (c :: cs2 ++ rest) g k = None.
Proof.
  intros P E.
  destruct (plain_name_facts nm P) as (_ & _ & B & C).
  assert (Wz : isspace (last (c :: cs2) 0) = false).
  { rewrite <- (last_suffix cs1) by discriminate. rewrite <- E.
    unfold plain_name in P. destruct nm; [discriminate|].
    apply andb_true_iff in P. destruct P as [P _].
    apply andb_true_iff in P. destruct P as [P _].
    apply andb_true_iff in P. destruct P as [_ P].
    apply negb_true_iff in P. exact P. }
  assert (Cc : c <> 10).
  { rewrite forallb_forall in C. specialize (C c).
    rewrite E in C. specialize (C (in_elt c cs1 cs2)).
    unfold name_char in C. intros ->. discriminate C. }
  unfold AFTER_NAME. rewrite run_Seq, run_Opt.
  rewrite (run_Eol_inside c _ g k Cc).
  destruct (run SIZE_PATTERN _ _ _) as [res|] eqn:R; [exfalso | reflexivity].
  apply run_sound in R. destruct R as (s' & g' & M & _).
  apply size_pattern_shape in M.
  destruct M as (ws & F & Es & Hws & Nws & _).
  change (c :: cs2 ++ rest) with ((c :: cs2) ++ rest) in Es.
  assert (NotAll : forall l, ws = (c :: cs2) ++ l -> False).
  { intros l El. rewrite forallb_forall in Hws.
    assert (I : In (last (c :: cs2) 0) ws).
    { rewrite El. apply in_or_app. left. apply last_In. discriminate. }
    apply Hws in I. congruence. }
  apply app_eq_app in Es. destruct Es as (l & [[E1 E3]|[E1 E3]]).
  - (* the blanks end inside the name *)
    destruct l as [|x l].
    + apply (NotAll []). rewrite app_nil_r in *. auto.
    + cbn [app] in E3. injection E3 as <- _.
      destruct (exists_last Nws) as (ws' & w & ->).
      rewrite E1 in E. rewrite <- app_assoc in E. cbn [app] in E.
      rewrite app_assoc in E. rewrite E in B.
      apply blank_paren_split in B.
      rewrite forallb_app in Hws. apply andb_true_iff in Hws.
      destruct Hws as [_ Hws]. cbn [forallb] in Hws.
      rewrite B in Hws. discriminate Hws.
  - apply (NotAll l). exact E1.
Qed.

Lemma run_Rep_greedy (p : char -> bool) (cs s : str) (g : groups) (k : cont)
    (res : groups) :
  forallb p cs = true -> cs <> [] ->
  match s with [] => True | c :: _ => p c = false end ->
  k s g = Some res ->
  run (Rep true true p) (cs ++ s) g k = Some res.
Proof.
  intros. cbn [run]. apply rep_greedy_all; auto.
Qed.

Lemma run_Chr (c : char) (s : str) (g : groups) (k : cont) :
  run (Chr c) (c :: s) g k = k s g.
Proof. cbn [run]. rewrite N.eqb_refl. reflexivity. Qed.

Lemma after_name_end (g : groups) (k : cont) :
  run AFTER_NAME [] g k = k [] g.
Proof. reflexivity. Qed.

Lemma after_name_size (F : str) (g : groups) (k : cont) (res : groups) :
  forallb (none_of ")") F = true -> F <> [] ->
  k [] ((4%nat, F) :: g) = Some res ->
  run AFTER_NAME (lit " (" ++ F ++ lit ")") g k = Some res.
Proof.
  intros HF NF Hk. unfold AFTER_NAME. rewrite run_Seq, run_Opt.
  change (lit " (" ++ F ++ lit ")") with ([32] ++ 40 :: F ++ [41]).
  unfold SIZE_PATTERN, str_. change (lit "(") with [40].
  change (lit ")") with [41]. cbn [seq map].
  rewrite run_Seq.
  rewrite (run_Rep_greedy isspace [32] _ g _ res); try reflexivity;
    try discriminate.
  rewrite run_Seq, run_Chr, run_Seq, run_Group.
  rewrite (run_Rep_greedy (none_of ")") F [41] g _ res); auto.
  rewrite run_Chr. rewrite (firstn_matched F [41]). exact Hk.
Qed.

Lemma orelse_first (A : Type) (a b : option A) (x : A) :
  a = Some x -> orelse a b = Some x.
Proof. intros ->. reflexivity. Qed.

Lemma run_Class (p : char -> bool) (c : char) (s : str) (g : groups)
    (k : cont) :
  p c = true -> run (Class p) (c :: s) g k = k s g.
Proof. intros H. cbn [run]. rewrite H. reflexivity. Qed.

Lemma firstn_matched_one (c : char) (t : str) :
  firstn (List.length (c :: t) - List.length t) (c :: t) = [c].
Proof. exact (firstn_matched [c] t). Qed.

Lemma content_line_groups (is_last isdir : bool) (nm : str)
    (size : option str) :
  plain_name nm = true ->
  match size with
  | Some F => forallb (none_of ")") F = true /\ F <> []
  | None => True
  end ->
  exists g,
    re_match CONTENT_PATTERN
      ((if is_last then lit "└── " else lit "├── ")
       ++ (if isdir then lit "📁" else lit "📄") ++ lit " " ++ nm
       ++ size_suffix size) = Some g
    /\ group 2 g = Some (if isdir then lit "📁" else lit "📄")
    /\ group 3 g = Some nm
    /\ group 4 g = size.
Proof.
  intros P HS.
  destruct (plain_name_facts nm P) as ((c0 & t0 & En & W0) & _ & _ & C).
  assert (D : forallb dot nm = true).
  { apply forallb_forall. intros c Hc. rewrite forallb_forall in C.
    apply C in Hc. unfold name_char in Hc. unfold dot.
    destruct (c =? 10); [discriminate Hc | reflexivity]. }
  set (conn := if is_last then 9492 else 9500).
  set (marker := if isdir then 128193 else 128196).
  set (rest := nm ++ size_suffix size).
  assert (EL : (if is_last then lit "└── " else lit "├── ")
               ++ (if isdir then lit "📁" else lit "📄") ++ lit " " ++ rest
               = conn :: 9472 :: 9472 :: [32] ++ marker :: [32] ++ rest)
    by (destruct is_last, isdir; reflexivity).
  assert (EM : (if isdir then lit "📁" else lit "📄") = [marker])
    by (destruct isdir; reflexivity).
  rewrite EL, EM. clear EL EM.
  destruct size as [F|]; cbn [size_suffix] in *;
    (eexists; split;
     [ unfold re_match; rewrite content_pattern_parts;
       rewrite run_Seq, run_Opt; apply orelse_first;
       rewrite run_Group; unfold str_; change (lit "──") with [9472; 9472];
       cbn [seq map]; rewrite run_Seq;
       rewrite run_Class by (destruct is_last; reflexivity);
       rewrite !run_Seq, !run_Chr;
       apply run_Rep_greedy;
         [reflexivity | discriminate | destruct isdir; reflexivity |];
       rewrite run_Seq, run_Group;
       rewrite run_Class by (destruct isdir; reflexivity);
       rewrite firstn_matched_one; rewrite run_Seq;
       apply run_Rep_greedy;
         [reflexivity | discriminate | unfold rest; rewrite En; exact W0 |];
       rewrite run_Seq, run_Group; cbn [run negb]; unfold rest;
       apply rep_lazy_first;
         [ exact D
         | right; rewrite En; discriminate
         | intros cs1 c cs2 E _;
           apply (after_name_fails nm cs1 cs2 c); assumption
         | rewrite firstn_matched;
           first [ apply after_name_size; [tauto | tauto | reflexivity]
                 | rewrite after_name_end; reflexivity ] ]
     | repeat split; reflexivity ]).
Qed.

Lemma run_Rep_lazy (p : char -> bool) (s : str) (g : groups) (k : cont) :
  run (Rep false true p) s g k = rep_lazy p false s g k.
Proof. reflexivity. Qed.

Lemma root_line_group (nm : str) :
  plain_root_name nm = true ->
  exists g,
    re_match ROOT_PATTERN (lit "📁 " ++ nm ++ lit "/") = Some g
    /\ group 1 g = Some nm.
Proof.
  unfold plain_root_name. destruct nm as [|c0 t0] eqn:En; [discriminate|].
  rewrite <- En. intros P. apply andb_true_iff in P. destruct P as [W0 C].
  apply negb_true_iff in W0.
  assert (D : forallb dot nm = true).
  { apply forallb_forall. intros c Hc. rewrite forallb_forall in C.
    apply C in Hc. unfold name_char in Hc. unfold dot.
    destruct (c =? 10); [discriminate Hc | reflexivity]. }
  eexists. split.
  - unfold re_match, ROOT_PATTERN, str_.
    change (lit "📁") with [128193]. change (lit "/") with [47].
    change (lit "📁 " ++ nm ++ [47]) with (128193 :: [32] ++ nm ++ [47]).
    cbn [seq map]. rewrite run_Seq, run_Chr, run_Seq.
    apply run_Rep_greedy;
      [reflexivity | discriminate | rewrite En; exact W0 |].
    rewrite run_Seq, run_Group, run_Rep_lazy.
    apply rep_lazy_first; [exact D | right; rewrite En; discriminate | |].
    + intros cs1 c cs2 E _.
      assert (Cc : c <> 10).
      { rewrite forallb_forall in C. specialize (C c).
        rewrite E in C. specialize (C (in_elt c cs1 cs2)).
        unfold name_char in C. intros ->. discriminate C. }
      rewrite run_Seq, run_Opt. rewrite (run_Eol_inside c _ _ _ Cc).
      cbn [run]. destruct (c =? 47); [|reflexivity].
      destruct cs2 as [|x [|y cs2]]; reflexivity.
    + rewrite firstn_matched. reflexivity.
  - reflexivity.
Qed.

(** ** Blanks at the ends of a line *)

Lemma lstrip_nonblank (c : char) (t : str) :
  isspace c = false -> lstrip (c :: t) = c :: t.
Proof. intros H. cbn [lstrip]. rewrite H. reflexivity. Qed.

Lemma lstrip_ends_nonblank (l : str) (z : char) :
  isspace z = false -> lstrip (l ++ [z]) <> [].
Proof.
  intros H. induction l as [|x l IH]; cbn [app lstrip].
  - rewrite H. discriminate.
  - destruct (isspace x); [exact IH | discriminate].
Qed.

Lemma lstrip_head (s : str) (c : char) (t : str) :
  lstrip s = c :: t -> isspace c = false.
Proof.
  induction s as [|x s IH]; cbn [lstrip]; [discriminate|].
  destruct (isspace x) eqn:E; [exact IH|].
  intros H. injection H as <- _. exact E.
Qed.

Lemma strip_nonempty (s : str) (c : char) (t : str) :
  lstrip s = c :: t -> strip s <> [].
Proof.
  intros H. unfold strip, rstrip. rewrite H.
  pose proof (lstrip_head s c t H) as W.
  cbn [rev]. intros E.
  apply (f_equal (@rev char)) in E. rewrite rev_involutive in E.
  cbn [rev] in E. apply (lstrip_ends_nonblank (rev t) c W). exact E.
Qed.

Lemma rstrip_nonblank (u : str) (z : char) :
  isspace z = false -> rstrip (u ++ [z]) = u ++ [z].
Proof.
  intros H. unfold rstrip. rewrite rev_app_distr. cbn [rev app].
  rewrite lstrip_nonblank by exact H. cbn [rev].
  rewrite rev_involutive. reflexivity.
Qed.

Lemma rstrip_line_break (u : str) (z : char) :
  isspace z = false -> rstrip (u ++ [z; 10]) = u ++ [z].
Proof.
  intros H. unfold rstrip. rewrite rev_app_distr. cbn [rev app lstrip].
  change (isspace 10) with true. cbv iota.
  rewrite H. cbn [rev]. rewrite rev_involutive. reflexivity.
Qed.

(** ** A rendered line, parsed *)

Lemma parse_line_match st (line : str) (c : char) (t : str) (g : groups) :
  lstrip line = c :: t ->
  re_match CONTENT_PATTERN (c :: t) = Some g ->
  parse_line st line
  = add_node st
      match group 3 g with Some v => v | None => [] end
      match group 2 g with
      | Some m => PyStr.eqb m (lit "📁")
      | None => false
      end
      match group 4 g with Some v => v | None => [] end
      (Z.of_nat (List.length line - List.length (lstrip line)) / 4)%Z.
Proof.
  intros L M. pose proof (strip_nonempty line c t L) as N.
  unfold parse_line, add_node. destruct st as [h stack].
  destruct (strip line); [contradiction N; reflexivity|].
  rewrite L, M. reflexivity.
Qed.

Lemma none_of_paren_plain (s : str) :
  forallb plain_char s = true -> forallb (none_of ")") s = true.
Proof.
  intros H. apply forallb_forall. intros c Hc.
  rewrite forallb_forall in H. apply H in Hc. unfold plain_char in Hc.
  unfold none_of. change (lit ")") with [41]. cbn [existsb].
  destruct (c =? 41); [|reflexivity].
  rewrite andb_false_r in Hc. discriminate Hc.
Qed.

Lemma parse_entry_line st (with_size : bool) (d : nat) (is_last : bool)
    (node : TreeNode) :
  plain_name (name node) = true ->
  parse_line st (entry_line with_size d is_last node)
  = add_node st (name node) (is_dir node) (size_text with_size node)
      (Z.of_nat d).
Proof.
  intros P. unfold entry_line, size_text.
  set (size := if with_size && negb (is_dir node)
               then Some (spec_format_size (size node)) else None).
  destruct (content_line_groups is_last (is_dir node) (name node) size P)
    as (g & M & G2 & G3 & G4).
  { unfold size. destruct (with_size && negb (is_dir node)); [|exact I].
    split; [apply none_of_paren_plain, spec_format_size_plain
           | apply spec_format_size_nonempty]. }
  set (content := (if is_last then lit "└── " else lit "├── ")
                  ++ (if is_dir node then lit "📁" else lit "📄")
                  ++ lit " " ++ name node ++ size_suffix size) in *.
  assert (L : exists c t, content = c :: t /\ isspace c = false).
  { unfold content. destruct is_last; eexists _, _; split; reflexivity. }
  destruct L as (c & t & Ec & Wc).
  assert (LS : lstrip (repeat 32 (4 * d) ++ content) = c :: t).
  { rewrite lstrip_spaces, Ec. apply lstrip_nonblank, Wc. }
  rewrite (parse_line_match st _ c t g LS) by (rewrite <- Ec; exact M).
  rewrite G2, G3, G4, LS, <- Ec.
  f_equal.
  - destruct (is_dir node); reflexivity.
  - unfold size. destruct (with_size && negb (is_dir node)); reflexivity.
  - rewrite length_app, repeat_length, Nat.add_sub.
    rewrite Nat2Z.inj_mul, Z.mul_comm. apply Z.div_mul. discriminate.
Qed.

(** ** The parser on the lines of a tree *)

Lemma pop_while_keeps (p : nat) (lv level : Z) (below : list (nat * Z)) :
  (lv < level)%Z -> pop_while ((p, lv) :: below) level = (p, lv) :: below.
Proof.
  intros H. cbn [pop_while snd]. destruct below; [reflexivity|].
  destruct (Z.leb_spec level lv); [lia | reflexivity].
Qed.

Lemma add_node_store (h : store) (stack : list (nat * Z)) (p d : nat)
    (nP : ViewerNode) (nm : str) (isdir : bool) (sz : str) :
  nth_error h p = Some nP ->
  ready stack d p ->
  let st' := add_node (h, stack) nm isdir sz (Z.of_nat d) in
  grown h (fst st') p [List.length h]
  /\ nth_error (fst st') (List.length h)
     = Some (mkViewerNode nm isdir sz [] (Some p))
  /\ List.length (fst st') = S (List.length h)
  /\ ready (snd st') d p
  /\ (isdir = true -> ready (snd st') (S d) (List.length h)).
Proof.
  intros Hp [below E]. unfold add_node. rewrite E. cbn [fst snd].
  assert (Lp : (p < List.length h)%nat)
    by (apply nth_error_Some; congruence).
  split; [|split; [|split; [|split]]].
  - split; [|split].
    + rewrite length_app, append_child_length. lia.
    + intros a n Ha Hap.
      assert (La : (a < List.length h)%nat)
        by (apply nth_error_Some; congruence).
      rewrite nth_error_app1 by (rewrite append_child_length; exact La).
      rewrite append_child_other by exact Hap. exact Ha.
    + intros n Hn.
      rewrite nth_error_app1 by (rewrite append_child_length; exact Lp).
      rewrite (append_child_same h p _ n Hn). reflexivity.
  - rewrite nth_error_app2 by (rewrite append_child_length; lia).
    rewrite append_child_length, Nat.sub_diag. reflexivity.
  - rewrite length_app, append_child_length. simpl. lia.
  - destruct isdir.
    + exists below. cbn [pop_while snd].
      rewrite Z.leb_refl. apply pop_while_keeps. lia.
    + exists below. apply pop_while_keeps. lia.
  - intros ->. exists ((p, (Z.of_nat d - 1)%Z) :: below).
    rewrite pop_while_keeps by lia.
    do 2 f_equal. lia.
Qed.

Lemma reify_S (fuel : nat) (h : store) (a : nat) :
  reify (S fuel) h a
  = match nth_error h a with
    | None => None
    | Some n =>
        match reify_kids fuel h (v_children n) with
        | Some ts => Some (VNode (v_name n) (v_is_dir n) (v_size n) ts)
        | None => None
        end
    end.
Proof. reflexivity. Qed.

Lemma reify_kids_cons (fuel : nat) (h : store) (k : nat) (ks : list nat) :
  reify_kids fuel h (k :: ks)
  = match reify fuel h k, reify_kids fuel h ks with
    | Some t, Some ts => Some (t :: ts)
    | _, _ => None
    end.
Proof. reflexivity. Qed.

Lemma reify_mono (h : store) :
  forall fuel a t,
    reify fuel h a = Some t ->
    forall fuel', (fuel <= fuel')%nat -> reify fuel' h a = Some t.
Proof.
  induction fuel as [|fuel IH]; intros a t E fuel' L; [discriminate|].
  destruct fuel' as [|fuel']; [lia|]. rewrite reify_S in *.
  destruct (nth_error h a) as [n|]; [|discriminate].
  destruct (reify_kids fuel h (v_children n)) as [ts|] eqn:K; [|discriminate].
  assert (K' : reify_kids fuel' h (v_children n) = Some ts).
  { clear E. revert ts K. induction (v_children n) as [|k ks IHks];
      intros ts K; [exact K|].
    rewrite reify_kids_cons in *.
    destruct (reify fuel h k) as [tk|] eqn:Ek; [|discriminate].
    destruct (reify_kids fuel h ks) as [tks|]; [|discriminate].
    rewrite (IH k tk Ek fuel') by lia.
    rewrite (IHks tks eq_refl). exact K. }
  rewrite K'. exact E.
Qed.

Lemma shows_kids (h : store) (ks : list nat) (ts : list ViewTree) :
  Forall2 (shows h) ks ts -> exists fuel, reify_kids fuel h ks = Some ts.
Proof.
  induction 1 as [|k t ks ts [f1 E1] _ [f2 E2]]; [exists 0%nat; reflexivity|].
  exists (Nat.max f1 f2). rewrite reify_kids_cons.
  rewrite (reify_mono h f1 k t E1) by lia.
  assert (E2' : reify_kids (Nat.max f1 f2) h ks = Some ts).
  { clear E1. revert ts E2. induction ks as [|k' ks IH]; intros ts E2;
      [exact E2|].
    rewrite reify_kids_cons in *.
    destruct (reify f2 h k') as [t'|] eqn:Ek; [|discriminate].
    destruct (reify_kids f2 h ks) as [ts'|]; [|discriminate].
    rewrite (reify_mono h f2 k' t' Ek) by lia.
    rewrite (IH ts' eq_refl). exact E2. }
  rewrite E2'. reflexivity.
Qed.

Lemma shows_node (h : store) (k : nat) (n : ViewerNode)
    (ts : list ViewTree) :
  nth_error h k = Some n ->
  Forall2 (shows h) (v_children n) ts ->
  shows h k (VNode (v_name n) (v_is_dir n) (v_size n) ts).
Proof.
  intros Hn F. destruct (shows_kids h _ _ F) as [fuel K].
  exists (S fuel). rewrite reify_S, Hn, K. reflexivity.
Qed.

Lemma grown_trans (h h1 h2 : store) (p : nat) (ks1 ks2 : list nat) :
  grown h h1 p ks1 -> grown h1 h2 p ks2 -> grown h h2 p (ks1 ++ ks2).
Proof.
  intros (L1 & O1 & P1) (L2 & O2 & P2). split; [lia|]. split.
  - intros a n Ha Hap. apply O2; [apply O1; assumption | exact Hap].
  - intros n Hn. rewrite (P2 _ (P1 n Hn)). unfold with_children.
    cbn [v_name v_is_dir v_size v_children v_parent].
    rewrite <- app_assoc. reflexivity.
Qed.

(** Nodes added below a node created since leave the older nodes as they
    were. *)
Lemma grown_below (h h1 h2 : store) (p k : nat) (ks1 ks2 : list nat) :
  grown h h1 p ks1 -> grown h1 h2 k ks2 ->
  (List.length h <= k)%nat ->
  grown h h2 p ks1.
Proof.
  intros (L1 & O1 & P1) (L2 & O2 & P2) Lk. split; [lia|]. split.
  - intros a n Ha Hap. apply O2; [apply O1; assumption|].
    assert (a < List.length h)%nat by (apply nth_error_Some; congruence).
    lia.
  - intros n Hn. apply O2; [apply P1, Hn|].
    assert (p < List.length h)%nat by (apply nth_error_Some; congruence).
    lia.
Qed.

Lemma ancestry_blanks (d : nat) :
  ancestry_prefix (repeat true d) = repeat 32 (4 * d).
Proof.
  induction d as [|d IH]; [reflexivity|].
  replace (4 * S d)%nat with (4 + 4 * d)%nat by lia.
  unfold ancestry_prefix in *. cbn [repeat map List.concat Nat.add].
  rewrite IH. reflexivity.
Qed.

Lemma spec_line_entry (with_size : bool) (d : nat) (is_last : bool)
    (node : TreeNode) :
  spec_line with_size (repeat true d) is_last node
  = entry_line with_size d is_last node ++ [10].
Proof.
  unfold spec_line, entry_line. rewrite ancestry_blanks.
  change (lit "\n") with [10].
  destruct (with_size && negb (is_dir node)); cbn [size_suffix];
    rewrite <- ?app_assoc; reflexivity.
Qed.

Lemma shows_leaf (h : store) (k : nat) (nm : str) (isdir : bool) (sz : str)
    (parent : option nat) :
  nth_error h k = Some (mkViewerNode nm isdir sz [] parent) ->
  shows h k (VNode nm isdir sz []).
Proof.
  intros Hn. apply (shows_node h k _ [] Hn). constructor.
Qed.

Lemma view_of_eq (with_size : bool) nm d sz cs :
  view_of with_size (mkTreeNode nm d sz cs)
  = VNode nm d (size_text with_size (mkTreeNode nm d sz cs))
      (map (view_of with_size) cs).
Proof.
  unfold size_text. cbn [view_of is_dir size].
  rewrite format_size_units. reflexivity.
Qed.

Lemma grown_refl (h : store) (p : nat) : grown h h p [].
Proof.
  split; [lia|]. split; [auto|].
  intros n Hn. rewrite app_nil_r, Hn. destruct n. reflexivity.
Qed.

Lemma parse_lines_app (l1 l2 : list str) st :
  parse_lines (l1 ++ l2) st = parse_lines l2 (parse_lines l1 st).
Proof. unfold parse_lines. rewrite map_app, fold_left_app. reflexivity. Qed.

Lemma parse_lines_cons (l : str) (ls : list str) st :
  parse_lines (l :: ls) st = parse_lines ls (parse_line st (removelast l)).
Proof. reflexivity. Qed.

Lemma shown_part_eq nm d sz cs :
  shown_part (mkTreeNode nm d sz cs) = mkTreeNode nm d sz (shown_siblings cs).
Proof.
  reflexivity.
Qed.

(** *** Lines behind a vertical bar *)

Lemma ancestry_prefix_app (a b : list bool) :
  ancestry_prefix (a ++ b) = ancestry_prefix a ++ ancestry_prefix b.
Proof. unfold ancestry_prefix. rewrite map_app. apply concat_app. Qed.

Lemma spec_line_behind_bar (with_size : bool) (d : nat) (anc : list bool)
    (is_last : bool) (node : TreeNode) :
  behind_bar (spec_line with_size (repeat true d ++ false :: anc) is_last node).
Proof.
  unfold behind_bar, spec_line. rewrite ancestry_prefix_app, ancestry_blanks.
  change (ancestry_prefix (false :: anc))
    with (lit "│" ++ lit "   " ++ ancestry_prefix anc).
  change (lit "\n") with [10].
  set (size_str := if with_size && negb (is_dir node)
                   then lit " (" ++ spec_format_size (size node) ++ lit ")"
                   else []).
  exists (4 * d)%nat,
    (lit "   " ++ ancestry_prefix anc
     ++ (if is_last then lit "└── " else lit "├── ")
     ++ (if is_dir node then lit "📁" else lit "📄")
     ++ lit " " ++ name node ++ size_str).
  rewrite <- (removelast_last
                (repeat 32 (4 * d) ++ lit "│" ++ lit "   "
                 ++ ancestry_prefix anc
                 ++ (if is_last then lit "└── " else lit "├── ")
                 ++ (if is_dir node then lit "📁" else lit "📄")
                 ++ lit " " ++ name node ++ size_str) 10).
  f_equal. rewrite <- !app_assoc. reflexivity.
Qed.

Lemma spec_tree_lines_behind_bar (with_size : bool) (d : nat)
    (c : TreeNode) :
  forall anc is_last,
    Forall behind_bar
      (spec_tree_lines with_size (repeat true d ++ false :: anc) is_last c).
Proof.
  induction c as [nm isdir sz cs IH] using TreeNode_ind.
  intros anc is_last. rewrite spec_tree_lines_eq.
  constructor; [apply spec_line_behind_bar|].
  rewrite <- app_assoc. cbn [app]. generalize (anc ++ [is_last]). clear anc.
  induction IH as [|c cs Hc _ IHcs]; intros anc; [constructor|].
  cbn [spec_siblings_lines]. apply Forall_app. split; auto.
Qed.

Lemma spec_siblings_lines_behind_bar (with_size : bool) (d : nat)
    (anc : list bool) (cs : list TreeNode) :
  Forall behind_bar
    (spec_siblings_lines with_size (repeat true d ++ false :: anc) cs).
Proof.
  induction cs as [|c cs IH]; [constructor|].
  cbn [spec_siblings_lines]. apply Forall_app.
  split; [apply spec_tree_lines_behind_bar | exact IH].
Qed.

Lemma parse_lines_skipped (ls : list str) st :
  Forall behind_bar ls -> parse_lines ls st = st.
Proof.
  induction 1 as [|l ls (n & rest & E) _ IH]; [reflexivity|].
  rewrite parse_lines_cons, E, parse_line_skips_bar. exact IH.
Qed.

(** *** The lines that are kept *)

Lemma parse_siblings (with_size : bool) (cs : list TreeNode) :
  Forall (parses_back with_size) cs ->
  forallb plain_names cs = true ->
  Forall (fun c => Forall leaf_if_file (nodes c)) cs ->
  forall d (h : store) (stack : list (nat * Z)) p nP,
    nth_error h p = Some nP ->
    ready stack d p ->
    let st' :=
      parse_lines (spec_siblings_lines with_size (repeat true d) cs)
        (h, stack) in
    exists ks,
      grown h (fst st') p ks
      /\ Forall2 (shows (fst st')) ks
           (map (view_of with_size) (shown_siblings cs)).
Proof.
  induction 1 as [|c cs Hc _ IH]; intros RB LF d h stack p nP Hp Hr.
  - exists []. split; [apply grown_refl | constructor].
  - cbn [forallb] in RB. apply andb_true_iff in RB. destruct RB as [RBc RB].
    inversion LF as [|? ? LFc LFcs]; subst.
    cbn [spec_siblings_lines shown_siblings]. rewrite parse_lines_app.
    set (is_last := match cs with [] => true | _ :: _ => false end).
    pose proof (Hc RBc LFc d is_last h stack p nP Hp Hr) as Hn.
    cbv zeta in *.
    destruct (parse_lines (spec_tree_lines _ _ is_last c) (h, stack))
      as [h1 stack1].
    cbn [fst snd] in Hn. destruct Hn as (G1 & S1 & Leaf).
    destruct cs as [|c2 cs].
    + exists [List.length h]. split; [exact G1|].
      constructor; [exact S1 | constructor].
    + destruct (Leaf (or_introl eq_refl)) as [R1 N1].
      pose proof G1 as (L1 & O1 & P1).
      destruct (IH RB LFcs d h1 stack1 p _ (P1 nP Hp) R1)
        as (ks & G2 & S2).
      exists (List.length h :: ks). split.
      * exact (grown_trans h h1 _ p [List.length h] ks G1 G2).
      * cbn [map]. constructor; [|exact S2].
        assert (Lp : (p < List.length h)%nat)
          by (apply nth_error_Some; congruence).
        destruct G2 as (_ & O2 & _).
        pose proof (O2 _ _ N1 ltac:(lia)) as N2.
        destruct c as [nm isdir sz ccs]. unfold without_children.
        rewrite view_of_eq. cbn [map name is_dir size] in *.
        eapply shows_leaf. exact N2.
Qed.

Lemma parse_node (with_size : bool) (c : TreeNode) : parses_back with_size c.
Proof.
  induction c as [nm isdir sz cs IH] using TreeNode_ind.
  intros RB LF d is_last h stack p nP Hp Hr.
  cbn [plain_names] in RB.
  apply andb_true_iff in RB. destruct RB as [Pn RBcs].
  unfold nodes in LF. cbn [descendants] in LF.
  inversion LF as [|? ? LFn LFcs]; subst. apply Forall_flat_map in LFcs.
  cbv zeta. rewrite spec_tree_lines_eq, parse_lines_cons.
  rewrite spec_line_entry, removelast_last.
  rewrite parse_entry_line by exact Pn.
  cbn [name is_dir children] in *.
  set (node := mkTreeNode nm isdir sz cs) in *.
  destruct (add_node_store h stack p d nP nm isdir
              (size_text with_size node) Hp Hr)
    as (G1 & N1 & L1 & R1 & R1').
  destruct (add_node (h, stack) nm isdir (size_text with_size node)
              (Z.of_nat d)) as [h1 stack1].
  cbn [fst snd] in *.
  assert (Leaf : shows h1 (List.length h)
                   (view_of with_size (without_children node))).
  { unfold without_children, node. rewrite view_of_eq.
    cbn [map name is_dir size]. eapply shows_leaf. exact N1. }
  destruct is_last.
  - destruct cs as [|c1 cs'].
    + (* no lines below *)
      cbn [spec_siblings_lines]. unfold parse_lines.
      cbn [map fold_left fst snd].
      split; [exact G1|]. split; [exact Leaf | intros _; split; assumption].
    + (* a last directory and its entries *)
      assert (isdir = true).
      { destruct isdir; [reflexivity|].
        unfold leaf_if_file in LFn. cbn [is_dir children] in LFn.
        discriminate (LFn eq_refl). }
      subst isdir.
      replace (repeat true d ++ [true]) with (repeat true (S d))
        by (cbn [repeat]; apply repeat_cons).
      destruct (parse_siblings with_size (c1 :: cs') IH RBcs
                  ltac:(apply Forall_forall; intros x Hx;
                        rewrite Forall_forall in LFcs; apply LFcs, Hx)
                  (S d) h1 stack1 (List.length h) _ N1 (R1' eq_refl))
        as (ks & G2 & S2).
      cbv zeta in G2, S2.
      set (st2 := parse_lines _ (h1, stack1)) in *.
      split; [|split; [|intros [E|E]; discriminate E]].
      * eapply grown_below; [exact G1 | exact G2 | lia].
      * destruct G2 as (_ & _ & P2). pose proof (P2 _ N1) as N2.
        unfold node. rewrite shown_part_eq, view_of_eq.
        apply (shows_node _ _ _ _ N2). exact S2.
  - (* the lines below are behind a bar *)
    rewrite parse_lines_skipped
      by (change [false] with (false :: @nil bool);
          apply spec_siblings_lines_behind_bar).
    cbn [fst snd].
    split; [exact G1|]. split; [exact Leaf | intros _; split; assumption].
Qed.

(** ** The lines of the block, cut out of its text *)

Ltac split_andb :=
  repeat match goal with
         | H : _ && _ = true |- _ =>
             apply andb_true_iff in H; destruct H
         end;
  repeat first [assumption | reflexivity | apply andb_true_iff; split].

Lemma name_char_plain (s : str) :
  forallb plain_char s = true -> forallb name_char s = true.
Proof.
  intros H. apply forallb_forall. intros c Hc.
  rewrite forallb_forall in H. apply H in Hc.
  unfold plain_char in Hc. unfold name_char.
  destruct (c =? 10), (c =? 13), (c =? 96); try reflexivity;
    cbn in Hc; try discriminate Hc;
    rewrite ?andb_false_r in Hc; discriminate Hc.
Qed.

Lemma ancestry_prefix_chars (anc : list bool) :
  forallb name_char (ancestry_prefix anc) = true.
Proof.
  unfold ancestry_prefix. induction anc as [|b anc IH]; [reflexivity|].
  cbn [map List.concat]. rewrite forallb_app, IH.
  destruct b; reflexivity.
Qed.

Lemma spec_line_ok (with_size : bool) (anc : list bool) (is_last : bool)
    (node : TreeNode) :
  plain_name (name node) = true ->
  line_ok (spec_line with_size anc is_last node).
Proof.
  intros P.
  destruct (plain_name_facts _ P) as (_ & (u & z & En & Wz) & _ & C).
  unfold spec_line, line_ok. change (lit "\n") with [10].
  pose proof (ancestry_prefix_chars anc) as A.
  assert (K : forallb name_char
                ((if is_last then lit "└── " else lit "├── ")
                 ++ (if is_dir node then lit "📁" else lit "📄")
                 ++ lit " ") = true)
    by (destruct is_last, (is_dir node); reflexivity).
  destruct (with_size && negb (is_dir node)).
  - exists (ancestry_prefix anc
            ++ ((if is_last then lit "└── " else lit "├── ")
                ++ (if is_dir node then lit "📁" else lit "📄") ++ lit " ")
            ++ name node ++ lit " (" ++ spec_format_size (size node)), 41.
    split; [|split; [|reflexivity]].
    + change (lit ")") with [41]. rewrite <- !app_assoc. reflexivity.
    + pose proof (name_char_plain _ (spec_format_size_plain (size node))).
      rewrite !forallb_app in *. split_andb.
  - exists (ancestry_prefix anc
            ++ ((if is_last then lit "└── " else lit "├── ")
                ++ (if is_dir node then lit "📁" else lit "📄") ++ lit " ")
            ++ u), z.
    split; [|split; [|exact Wz]].
    + rewrite En. rewrite <- !app_assoc. reflexivity.
    + rewrite En in C. rewrite !forallb_app in *. split_andb.
Qed.

Lemma spec_tree_lines_ok (with_size : bool) (c : TreeNode) :
  plain_names c = true ->
  forall anc is_last,
    Forall line_ok (spec_tree_lines with_size anc is_last c).
Proof.
  induction c as [nm isdir sz cs IH] using TreeNode_ind.
  intros RB anc is_last. cbn [plain_names] in RB.
  apply andb_true_iff in RB. destruct RB as [Pn RBcs].
  rewrite spec_tree_lines_eq. constructor; [apply spec_line_ok, Pn|].
  generalize (anc ++ [is_last]). clear anc.
  induction IH as [|c cs Hc _ IHcs]; intros anc; [constructor|].
  cbn [forallb] in RBcs. apply andb_true_iff in RBcs.
  destruct RBcs as [RBc RBcs].
  cbn [spec_siblings_lines]. apply Forall_app. split; auto.
Qed.

Lemma spec_siblings_lines_ok (with_size : bool) (cs : list TreeNode)
    (anc : list bool) :
  forallb plain_names cs = true ->
  Forall line_ok (spec_siblings_lines with_size anc cs).
Proof.
  induction cs as [|c cs IH]; intros RB; [constructor|].
  cbn [forallb] in RB. apply andb_true_iff in RB. destruct RB as [RBc RB].
  cbn [spec_siblings_lines]. apply Forall_app.
  split; [apply spec_tree_lines_ok, RBc | apply IH, RB].
Qed.

Lemma split_go_field (sep : char) (b rest cur : str) :
  ~ In sep b ->
  split_go sep (b ++ rest) cur = split_go sep rest (rev b ++ cur).
Proof.
  revert cur. induction b as [|c b IH]; intros cur N; [reflexivity|].
  cbn [app split_go]. destruct (N.eqb_spec c sep) as [->|_].
  - contradiction N. left. reflexivity.
  - rewrite IH by (intros I; apply N; right; exact I).
    cbn [rev]. rewrite <- app_assoc. reflexivity.
Qed.

Lemma name_char_no_break (s : str) :
  forallb name_char s = true -> ~ In 10 s.
Proof.
  intros H I. rewrite forallb_forall in H. apply H in I. discriminate I.
Qed.

Lemma line_ok_removelast (l : str) :
  line_ok l ->
  exists body, l = body ++ [10] /\ removelast l = body /\ ~ In 10 body.
Proof.
  intros (b & z & -> & C & _). exists (b ++ [z]).
  change [z; 10] with ([z] ++ [10]). rewrite app_assoc.
  rewrite removelast_last.
  repeat split; [apply name_char_no_break, C].
Qed.

(** The text of some lines and a last line without its line break, cut
    at the line breaks. *)
Lemma split_lines (ls : list str) (last_body : str) :
  Forall line_ok ls -> ~ In 10 last_body ->
  split 10 (List.concat ls ++ last_body)
  = map (@removelast char) ls ++ [last_body].
Proof.
  unfold split. intros F N. induction F as [|l ls Hl _ IH].
  - cbn [List.concat map app].
    rewrite <- (app_nil_r last_body) at 1.
    rewrite split_go_field by exact N. cbn [split_go app].
    rewrite app_nil_r, rev_involutive. reflexivity.
  - destruct (line_ok_removelast l Hl) as (body & El & Er & Nb).
    cbn [List.concat map app]. rewrite Er. rewrite El at 1.
    rewrite <- !app_assoc. rewrite split_go_field by exact Nb.
    cbn [app split_go]. rewrite N.eqb_refl.
    rewrite app_nil_r, rev_involutive. f_equal. exact IH.
Qed.

(** [tree_content.strip().split("\n")] on the text of the block gives
    its lines, without their line breaks. *)
Lemma block_text_lines (l0 : str) (ls : list str) :
  line_ok l0 ->
  (exists c t, l0 = c :: t /\ isspace c = false) ->
  Forall line_ok ls ->
  split 10 (strip (List.concat (l0 :: ls)))
  = map (@removelast char) (l0 :: ls).
Proof.
  intros H0 (c & t & E0 & W0) F.
  assert (Fall : Forall line_ok (l0 :: ls)) by (constructor; assumption).
  destruct (@exists_last _ (l0 :: ls)) as (init & lastl & E);
    [discriminate|].
  rewrite E in Fall. apply Forall_app in Fall. destruct Fall as [Fi Fl].
  inversion Fl as [|? ? (b & z & Eb & C & Wz) _]; subst lastl.
  unfold strip.
  assert (L : lstrip (List.concat (l0 :: ls)) = List.concat (l0 :: ls)).
  { cbn [List.concat]. rewrite E0. cbn [app].
    apply lstrip_nonblank, W0. }
  rewrite L, E. rewrite concat_app. cbn [List.concat].
  rewrite app_nil_r, app_assoc. rewrite rstrip_line_break by exact Wz.
  rewrite <- app_assoc. rewrite split_lines;
    [|exact Fi | apply name_char_no_break, C].
  rewrite map_app. cbn [map]. do 2 f_equal.
  change [z; 10] with ([z] ++ [10]). rewrite app_assoc.
  symmetry. apply removelast_last.
Qed.

(** ** The fenced block, found in the document *)

Lemma fence_not_here (c : char) (s : str) :
  c <> 96 -> re_match FENCE_PATTERN (c :: s) = None.
Proof.
  intros H. unfold re_match, FENCE_PATTERN, str_.
  change (lit "```\n") with [96; 96; 96; 10]. cbn [seq map run].
  destruct (N.eqb_spec c 96); [contradiction | reflexivity].
Qed.

Lemma run_Rep_lazy_any (p : char -> bool) (s : str) (g : groups) (k : cont) :
  run (Rep false false p) s g k = rep_lazy p true s g k.
Proof. reflexivity. Qed.

Lemma fence_here (block rest : str) :
  no_backquote block = true ->
  re_match FENCE_PATTERN (lit "```\n" ++ block ++ lit "```" ++ rest)
  = Some [(1%nat, block)].
Proof.
  intros B. unfold re_match, FENCE_PATTERN, str_.
  change (lit "```\n") with [96; 96; 96; 10].
  change (lit "```") with [96; 96; 96].
  cbn [seq map app].
  repeat first [rewrite run_Seq | rewrite run_Chr | progress cbv beta].
  rewrite run_Group.
  rewrite run_Rep_lazy_any.
  apply rep_lazy_first.
  - apply forallb_forall. reflexivity.
  - left. reflexivity.
  - intros cs1 c cs2 E _. cbn [run].
    assert (c <> 96).
    { unfold no_backquote in B. rewrite forallb_forall in B.
      specialize (B c). rewrite E in B.
      specialize (B (in_elt c cs1 cs2)). intros ->. discriminate B. }
    destruct (N.eqb_spec c 96); [contradiction | reflexivity].
  - repeat first [rewrite run_Seq | rewrite run_Chr | progress cbv beta].
    rewrite firstn_matched. reflexivity.
Qed.

Lemma fence_found (header block rest : str) :
  no_backquote header = true ->
  no_backquote block = true ->
  re_search FENCE_PATTERN
    (header ++ lit "```\n" ++ block ++ lit "```" ++ rest)
  = Some [(1%nat, block)].
Proof.
  intros H B. induction header as [|c header IH].
  - cbn [app]. rewrite <- (fence_here block rest B).
    change (lit "```\n" ++ block ++ lit "```" ++ rest)
      with (96 :: ([96; 96; 10] ++ block ++ lit "```" ++ rest)).
    cbn [re_search].
    change (96 :: ([96; 96; 10] ++ block ++ lit "```" ++ rest))
      with (lit "```\n" ++ block ++ lit "```" ++ rest).
    rewrite (fence_here block rest B). reflexivity.
  - unfold no_backquote in H. cbn [forallb] in H.
    apply andb_true_iff in H. destruct H as [Hc H].
    cbn [app re_search]. rewrite fence_not_here.
    + cbn [orelse]. apply IH, H.
    + intros ->. discriminate Hc.
Qed.

(** ** From the lines back to the tree *)

Lemma strip_plain (c z : char) (u : str) :
  isspace c = false -> isspace z = false ->
  strip (c :: u ++ [z]) = c :: u ++ [z].
Proof.
  intros Wc Wz. unfold strip. rewrite lstrip_nonblank by exact Wc.
  change (c :: u ++ [z]) with ((c :: u) ++ [z]).
  apply rstrip_nonblank, Wz.
Qed.

Lemma parse_tree_lines_reads_back (with_size : bool) (root_nm : str)
    (cs : list TreeNode) :
  plain_root_name root_nm = true ->
  forallb plain_names cs = true ->
  Forall (fun c => Forall leaf_if_file (nodes c)) cs ->
  exists h,
    parse_tree_lines
      ((lit "📁 " ++ root_nm ++ lit "/")
       :: map (@removelast char) (spec_siblings_lines with_size [] cs))
    = Some (0%nat, h)
    /\ reify (S (List.length h)) h 0
       = Some (VNode root_nm true []
                 (map (view_of with_size) (shown_siblings cs))).
Proof.
  intros PR RB LF.
  destruct (root_line_group root_nm PR) as (g & M & G1).
  set (root := mkViewerNode root_nm true [] [] None).
  destruct (parse_siblings with_size cs
              ltac:(apply Forall_forall; intros; apply parse_node)
              RB LF 0%nat [root] [(0%nat, (-1)%Z)] 0%nat root eq_refl)
    as (ks & G & Sk).
  { exists []. reflexivity. }
  cbv zeta in G, Sk. change (repeat true 0) with (@nil bool) in G, Sk.
  assert (E : parse_tree_lines
                ((lit "📁 " ++ root_nm ++ lit "/")
                 :: map (@removelast char)
                      (spec_siblings_lines with_size [] cs))
              = Some (0%nat,
                      fst (parse_lines (spec_siblings_lines with_size [] cs)
                             ([root], [(0%nat, (-1)%Z)])))).
  { unfold parse_tree_lines.
    change (lit "📁 " ++ root_nm ++ lit "/")
      with (128193 :: (32 :: root_nm) ++ [47]).
    rewrite strip_plain by reflexivity.
    change (128193 :: (32 :: root_nm) ++ [47])
      with (lit "📁 " ++ root_nm ++ lit "/").
    rewrite M, G1. fold root. unfold parse_lines.
    destruct (fold_left parse_line _ _). reflexivity. }
  eexists. split; [exact E|].
  set (h := fst (parse_lines _ _)) in *.
  destruct (parse_tree_lines_store _ _ _ E) as (_ & CL & _ & Hne).
  destruct G as (_ & _ & P0). pose proof (P0 root eq_refl) as N0.
  pose proof (shows_node h 0 _ _ N0 Sk) as [fuel Sh].
  cbn [with_children v_name v_is_dir v_size root] in Sh.
  destruct (reify_total h CL (S (List.length h)) 0%nat) as [t Ht];
    [destruct h; [contradiction Hne; reflexivity | simpl; lia] | lia |].
  rewrite Ht. f_equal.
  destruct (Nat.le_ge_cases fuel (S (List.length h))) as [L|L].
  - rewrite (reify_mono h fuel _ _ Sh _ L) in Ht. congruence.
  - rewrite (reify_mono h _ _ _ Ht _ L) in Sh. congruence.
Qed.

Lemma line_ok_no_backquote (l : str) : line_ok l -> no_backquote l = true.
Proof.
  intros (b & z & -> & C & _). unfold no_backquote.
  change [z; 10] with ([z] ++ [10]). rewrite app_assoc, forallb_app.
  apply andb_true_iff. split; [|reflexivity].
  apply forallb_forall. intros c Hc. rewrite forallb_forall in C.
  apply C in Hc. unfold name_char in Hc.
  destruct (c =? 96); [|reflexivity].
  rewrite andb_false_r in Hc. discriminate Hc.
Qed.

Lemma no_backquote_app (a b : str) :
  no_backquote (a ++ b) = no_backquote a && no_backquote b.
Proof. apply forallb_app. Qed.

Lemma concat_no_backquote (ls : list str) :
  Forall line_ok ls -> no_backquote (List.concat ls) = true.
Proof.
  induction 1 as [|l ls Hl _ IH]; [reflexivity|].
  cbn [List.concat]. rewrite no_backquote_app, IH.
  rewrite (line_ok_no_backquote l Hl). reflexivity.
Qed.

Lemma root_line_ok (root_nm : str) :
  plain_root_name root_nm = true ->
  line_ok (lit "📁" ++ lit " " ++ root_nm ++ lit "/\n").
Proof.
  unfold plain_root_name. destruct root_nm as [|c t] eqn:E; [discriminate|].
  rewrite <- E. intros P. apply andb_true_iff in P. destruct P as [_ C].
  exists (lit "📁" ++ lit " " ++ root_nm), 47.
  split; [|split; [|reflexivity]].
  - rewrite <- !app_assoc. reflexivity.
  - rewrite !forallb_app, C. reflexivity.
Qed.

(** The document as specified, for a tree with plain names, gives the
    viewer what it keeps of that tree. *)
Lemma spec_document_read_back (self : MarkdownGenerator)
    (root_node : TreeNode) (c : Counters) :
  plainly_named self root_node = true ->
  Forall leaf_if_file (nodes root_node) ->
  load_directory_tree (spec_document self root_node c)
  = Some (view_of_root self (shown_part root_node)).
Proof.
  unfold plainly_named. intros V LF.
  apply andb_true_iff in V. destruct V as [V _].
  apply andb_true_iff in V. destruct V as [V RB].
  apply andb_true_iff in V. destruct V as [D PR].
  destruct root_node as [nm isdir sz cs]. cbn [is_dir children] in *.
  subst isdir. unfold nodes in LF. cbn [descendants] in LF.
  inversion LF as [|? ? _ LFcs]; subst. apply Forall_flat_map in LFcs.
  rewrite shown_part_eq. unfold view_of_root. cbn [children].
  set (with_size := include_size (tree_generator self)).
  set (lines := spec_siblings_lines with_size [] cs).
  set (root_line := lit "📁" ++ lit " " ++ root_name self ++ lit "/\n").
  pose proof (root_line_ok _ PR) as RL. fold root_line in RL.
  pose proof (spec_siblings_lines_ok with_size cs [] RB) as LL.
  fold lines in LL.
  assert (E : exists rest,
             spec_document self (mkTreeNode nm true sz cs) c
             = (lit "# 目录结构: " ++ root_name self ++ lit "\n\n")
               ++ lit "```\n" ++ List.concat (root_line :: lines)
               ++ lit "```" ++ rest).
  { eexists. unfold spec_document, join. cbn [is_dir children].
    fold with_size. fold lines. fold root_line.
    cbn [app List.concat]. rewrite !concat_app. cbn [List.concat].
    rewrite <- !app_assoc. reflexivity. }
  destruct E as [rest E].
  unfold load_directory_tree. rewrite E.
  rewrite fence_found.
  - cbn [group Nat.eqb].
    rewrite block_text_lines; [|exact RL | | exact LL].
    + cbn [map].
      destruct (parse_tree_lines_reads_back with_size (root_name self) cs
                  PR RB) as (h & Ep & Er).
      { apply Forall_forall. intros x Hx. rewrite Forall_forall in LFcs.
        apply LFcs, Hx. }
      replace (removelast root_line)
        with (lit "📁 " ++ root_name self ++ lit "/").
      * fold lines in Ep. rewrite Ep. exact Er.
      * unfold root_line. change (lit "/\n") with ([47] ++ [10]).
        rewrite !app_assoc. rewrite removelast_last.
        rewrite <- !app_assoc. reflexivity.
    + exists 128193, (lit " " ++ root_name self ++ lit "/\n").
      split; reflexivity.
  - rewrite !no_backquote_app.
    assert (C' : no_backquote (root_name self) = true).
    { unfold plain_root_name in PR.
      destruct (root_name self) as [|x t] eqn:En; [discriminate|].
      apply andb_true_iff in PR. destruct PR as [_ C].
      apply forallb_forall. intros y Hy. rewrite forallb_forall in C.
      apply C in Hy. unfold name_char in Hy.
      destruct (y =? 96); [|reflexivity].
      rewrite andb_false_r in Hy. discriminate Hy. }
    rewrite C'. reflexivity.
  - apply concat_no_backquote. constructor; assumption.
Qed.

Lemma generated_document_read_back :
  forall self c root_node c',
    generate_tree (tree_generator self) c = (Ok (Some root_node), c') ->
    plainly_named self root_node = true ->
    exists doc,
      fst (generate_markdown self c) = Ok doc
      /\ load_directory_tree doc
         = Some (view_of_root self (shown_part root_node)).
Proof.
  intros self c root_node c' G V.
  assert (LF : Forall leaf_if_file (nodes root_node)).
  { apply (build_tree_leaf_files (tree_generator self)
             (root_path (tree_generator self)) 0%Z (mkCounters 0 0 0)).
    unfold generate_tree, bind, reset_counters in G. rewrite G. reflexivity. }
  assert (HN : Forall (fun n => name n <> root_path_name self)
                 (descendants root_node)).
  { unfold plainly_named in V. apply andb_true_iff in V. destruct V as [_ V].
    apply Forall_forall. intros n Hn. rewrite forallb_forall in V.
    apply V in Hn. apply negb_true_iff in Hn. apply str_eqb_neq, Hn. }
  exists (spec_document self root_node c'). split.
  - apply rendered_document_as_specified; assumption.
  - apply spec_document_read_back; assumption.
Qed.

Lemma shown_part_all (node : TreeNode) :
  last_branches node = true -> shown_part node = node.
Proof.
  induction node as [nm d sz cs IH] using TreeNode_ind.
  cbn [last_branches]. intros H.
  apply andb_true_iff in H. destruct H as [OL LB].
  rewrite shown_part_eq. f_equal.
  induction IH as [|c cs Hc _ IHcs]; [reflexivity|].
  cbn [forallb] in LB. apply andb_true_iff in LB. destruct LB as [LBc LB].
  cbn [shown_siblings]. destruct cs as [|c2 cs].
  - rewrite (Hc LBc). reflexivity.
  - cbn [only_last_has_children] in OL. apply andb_true_iff in OL.
    destruct OL as [CL OL]. rewrite (IHcs OL LB). f_equal.
    destruct c as [nm' d' sz' cs']. unfold childless in CL.
    cbn [children] in CL. destruct cs'; [reflexivity | discriminate CL].
Qed.

(** X16. The viewer reads back in full the document of a tree in which
    the root is a directory, every name is plain (no blank at either
    end, no blank directly before a parenthesis, no line break, no
    backquote; for the root: no blank in front, no line break, no
    backquote), no entry has the name of the root directory, and in every
    directory only the last entry has entries of its own: it then gets
    the root's name, and below it the names, kinds, sizes as written and
    nesting of the tree that [generate_tree] built. *)
Theorem X16_viewer_reads_back_last_branch_trees :
  forall self c root_node c',
    generate_tree (tree_generator self) c = (Ok (Some root_node), c') ->
    viewable self root_node = true ->
    exists doc,
      fst (generate_markdown self c) = Ok doc
      /\ load_directory_tree doc = Some (view_of_root self root_node).
Proof.
  intros self c root_node c' G V. unfold viewable in V.
  apply andb_true_iff in V. destruct V as [P LB].
  destruct (generated_document_read_back self c root_node c' G P)
    as (doc & E & L).
  exists doc. split; [exact E|].
  rewrite (shown_part_all root_node LB) in L. exact L.
Qed.

Lemma X16_viewer_reads_back_last_branch_trees_witness :
  exists doc,
    fst (generate_markdown (main_generator size_args sample_docs) no_counts)
    = Ok doc
    /\ load_directory_tree doc
       = Some (VNode (lit "proj") true []
                 [VNode (lit "data.bin") false (lit "5.00 MB") [];
                  VNode (lit "docs") true []
                    [VNode (lit "a.md") false (lit "0.00 B") [];
                     VNode (lit "b.md") false (lit "1.50 KB") []]]).
Proof.
  apply (X16_viewer_reads_back_last_branch_trees
           (main_generator size_args sample_docs) no_counts
           (mkTreeNode (lit "proj") true 0
              [mkTreeNode (lit "data.bin") false 5242880 [];
               mkTreeNode (lit "docs") true 0
                 [mkTreeNode (lit "a.md") false 0 [];
                  mkTreeNode (lit "b.md") false 1536 []]])
           (mkCounters 2 3 5244416)).
  - vm_compute. reflexivity.
  - vm_compute. reflexivity.
Defined.

(** X17. Whatever the shape of a tree with plain names, the viewer gets
    from its document the root's name and, below it, the tree without
    everything that lies below an entry that is not the last of its
    siblings: those lines start with a vertical bar and are skipped.  The
    entries that are kept have their names, kinds, sizes as written,
    order and nesting. *)
Theorem X17_viewer_keeps_the_last_branches :
  forall self c root_node c',
    generate_tree (tree_generator self) c = (Ok (Some root_node), c') ->
    plainly_named self root_node = true ->
    exists doc,
      fst (generate_markdown self c) = Ok doc
      /\ load_directory_tree doc
         = Some (view_of_root self (shown_part root_node)).
Proof.
  intros self c root_node c' G V.
  destruct (generated_document_read_back self c root_node c' G V)
    as (doc & E & L).
  exists doc. split; assumption.
Qed.

Lemma X17_viewer_keeps_the_last_branches_witness :
  exists doc,
    fst (generate_markdown (main_generator default_args sample_src_tests)
           no_counts) = Ok doc
    /\ load_directory_tree doc
       = Some (VNode (lit "proj") true []
                 [VNode (lit "src") true [] [];
                  VNode (lit "tests") true [] []]).
Proof.
  apply (X17_viewer_keeps_the_last_branches
           (main_generator default_args sample_src_tests) no_counts
           (mkTreeNode (lit "proj") true 0
              [mkTreeNode (lit "src") true 0
                 [mkTreeNode (lit "main.py") false 3 []];
               mkTreeNode (lit "tests") true 0 []])
           (mkCounters 3 1 3)).
  - vm_compute. reflexivity.
  - vm_compute. reflexivity.
Defined.


(** ** A name that ends like a size *)

Lemma parse_rendered_line st (d : nat) (is_last isdir : bool) (nm : str)
    (size : option str) :
  plain_name nm = true ->
  match size with
  | Some F => forallb (none_of ")") F = true /\ F <> []
  | None => True
  end ->
  parse_line st
    (repeat 32 (4 * d)
     ++ (if is_last then lit "└── " else lit "├── ")
     ++ (if isdir then lit "📁" else lit "📄")
     ++ lit " " ++ nm ++ size_suffix size)
  = add_node st nm isdir match size with Some F => F | None => [] end
      (Z.of_nat d).
Proof.
  intros P HS.
  destruct (content_line_groups is_last isdir nm size P HS)
    as (g & M & G2 & G3 & G4).
  set (content := (if is_last then lit "└── " else lit "├── ")
                  ++ (if isdir then lit "📁" else lit "📄")
                  ++ lit " " ++ nm ++ size_suffix size) in *.
  assert (L : exists c t, content = c :: t /\ isspace c = false).
  { unfold content. destruct is_last; eexists _, _; split; reflexivity. }
  destruct L as (c & t & Ec & Wc).
  assert (LS : lstrip (repeat 32 (4 * d) ++ content) = c :: t).
  { rewrite lstrip_spaces, Ec. apply lstrip_nonblank, Wc. }
  rewrite (parse_line_match st _ c t g LS) by (rewrite <- Ec; exact M).
  rewrite G2, G3, G4, LS, <- Ec.
  f_equal.
  - destruct isdir; reflexivity.
  - rewrite length_app, repeat_length, Nat.add_sub.
    rewrite Nat2Z.inj_mul, Z.mul_comm. apply Z.div_mul. discriminate.
Qed.

(** X18. An entry whose line shows no size (a directory, or a file when
    sizes are off) and whose name is a plain name followed by a blank and
    a text in parentheses is read back with the plain name as its name
    and the text in parentheses as its size: [tree_to_lines] writes for
    it the line that it writes for a file of the plain name with that
    size text, and [parse_tree_lines] takes the parentheses for a size. *)
Theorem X18_parenthesised_end_of_a_name_is_read_as_size :
  forall (self : MarkdownGenerator) st (d : nat) (is_last isdir : bool)
         (nm F : str) (sz : N),
    plain_name nm = true ->
    F <> [] ->
    forallb (none_of ")") F = true ->
    include_size (tree_generator self) && negb isdir = false ->
    PyStr.eqb (nm ++ lit " (" ++ F ++ lit ")") (root_path_name self) = false ->
    exists line,
      tree_to_lines self
        (mkTreeNode (nm ++ lit " (" ++ F ++ lit ")") isdir sz [])
        (repeat 32 (4 * d)) is_last
      = [line ++ lit "\n"]
      /\ parse_line st line = add_node st nm isdir F (Z.of_nat d).
Proof.
  intros self st d is_last isdir nm F sz P NF HF NS NR.
  exists (repeat 32 (4 * d)
          ++ (if is_last then lit "└── " else lit "├── ")
          ++ (if isdir then lit "📁" else lit "📄")
          ++ lit " " ++ nm ++ size_suffix (Some F)).
  split.
  - rewrite tree_to_lines_eq, NR, NS. cbn [negb size_suffix children_lines].
    destruct isdir; cbn [app]; rewrite ?app_nil_r;
      rewrite <- !app_assoc; reflexivity.
  - apply (parse_rendered_line st d is_last isdir nm (Some F) P).
    split; assumption.
Qed.

Lemma X18_parenthesised_end_of_a_name_is_read_as_size_witness :
  exists line,
    tree_to_lines (main_generator default_args sample_docs)
      (mkTreeNode (lit "Photos" ++ lit " (" ++ lit "2019" ++ lit ")") true 0 [])
      (repeat 32 (4 * 0)) true
    = [line ++ lit "\n"]
    /\ parse_line ([mkViewerNode (lit "proj") true [] [] None],
                   [(0%nat, (-1)%Z)]) line
       = add_node ([mkViewerNode (lit "proj") true [] [] None],
                   [(0%nat, (-1)%Z)])
           (lit "Photos") true (lit "2019") (Z.of_nat 0).
Proof.
  apply (X18_parenthesised_end_of_a_name_is_read_as_size
           (main_generator default_args sample_docs)
           ([mkViewerNode (lit "proj") true [] [] None], [(0%nat, (-1)%Z)])
           0%nat true true (lit "Photos") (lit "2019") 0);
    vm_compute; (reflexivity || discriminate).
Defined.


(** ** The three outcomes of [generate_markdown] *)

Lemma generate_tree_raises (self : DirectoryTree) c :
  fst (generate_tree self c) = OSError
  <-> beyond_max_depth self 0 = false /\ unstatable (root_path self) = true.
Proof.
  unfold generate_tree, bind, reset_counters.
  destruct (beyond_max_depth self 0) eqn:B.
  - rewrite build_tree_pruned by assumption. simpl.
    split; [discriminate | intros [H _]; discriminate H].
  - pose proof (build_tree_result self (root_path self) 0%Z
                  (mkCounters 0 0 0) B) as R.
    destruct (unstatable (root_path self)).
    + rewrite R. simpl. tauto.
    + destruct (kept self (root_path self)).
      * destruct R as (node & c' & E & _). rewrite E. simpl.
        split; [discriminate | intros [_ H]; discriminate H].
      * rewrite R. simpl.
        split; [discriminate | intros [_ H]; discriminate H].
Qed.

(** X19. [generate_markdown] has three outcomes.  It returns the
    placeholder text exactly when [generate_tree] returns no root node:
    the maximum depth is negative, or the root is a file and only
    directories are asked for.  It raises exactly when the maximum depth
    is not negative and [is_dir] raises on the root.  In every other case
    it returns a document with a title, a fenced block and a summary,
    which is not the placeholder. *)
Theorem X19_placeholder_error_or_document :
  forall (self : MarkdownGenerator) (c : Counters),
    let tg := tree_generator self in
    (fst (generate_markdown self c) = Ok PLACEHOLDER
     <-> beyond_max_depth tg 0 = true
         \/ (path_is_dir (root_path tg) = false
             /\ unstatable (root_path tg) = false /\ only_dirs tg = true))
    /\ (fst (generate_markdown self c) = OSError
        <-> beyond_max_depth tg 0 = false
            /\ unstatable (root_path tg) = true)
    /\ (forall doc,
           fst (generate_markdown self c) = Ok doc -> doc <> PLACEHOLDER ->
           exists root_node c',
             generate_tree tg c = (Ok (Some root_node), c')
             /\ doc = join
                        ([lit "# 目录结构: " ++ root_name self ++ lit "\n\n";
                          lit "```\n"]
                         ++ block_lines self root_node
                         ++ [lit "```\n"]
                         ++ summary_lines self c')).
Proof.
  intros self c tg. split; [|split].
  - rewrite generate_markdown_placeholder. apply generate_tree_None.
  - rewrite <- (generate_tree_raises tg c). unfold generate_markdown, bind.
    fold tg.
    destruct (generate_tree tg c) as [[[root_node|]|] c']; simpl;
      split; intros H; try reflexivity; discriminate H.
  - intros doc E NP. unfold generate_markdown, bind in E. fold tg in E.
    destruct (generate_tree tg c) as [[[root_node|]|] c']; simpl in E.
    + injection E as <-. exists root_node, c'. split; reflexivity.
    + injection E as <-. contradiction NP. reflexivity.
    + discriminate E.
Qed.
